(** * Quantum circuit simulator: state vector, gate engine and session

    A shallow embedding of [src/quantum/state.ts], [src/quantum/gates.ts],
    [src/quantum/operations.ts] and [src/quantum/simulator.ts].

    Modelling conventions.
    - A JavaScript [number] holding an amplitude component, a probability or
      a random sample is a real number ([R]); arithmetic is exact.  The
      tolerances of the specification (1e-9) are therefore met with room to
      spare whenever an equation is proved, and missed whenever a value is
      off by a macroscopic amount.
    - Exact arithmetic is the arithmetic of the code only up to rounding, and
      only while the numbers stay inside the range of a double.  Where a
      rounding decides a branch or a division, or a square leaves the range,
      the statements carry the condition that keeps them true of the code:
      a sample at least [tolerance] away from the probability it is compared
      with, an amplitude array that is [moderate].  The state an object of
      the code holds after a rounding is written down as it is held
      ([heldState]).
    - A value of the code that is NaN has no real number.  A function whose
      result the code computes as NaN reports it: as [NaN] in
      [calculateFidelity], as [Err NonFinite] elsewhere (a state of NaN
      amplitudes, a quotient 0/0); the code does not throw there.
    - A [number] holding a qubit count, a qubit index, a basis-state index or
      a circuit position is an integer ([Z]); the bit operators [>>], [<<],
      [&], [|] and [~] are [Z.shiftr], [Z.shiftl], [Z.land], [Z.lor] and
      [Z.lnot] (the operands stay below 2^5, far from the 32-bit wrap).
    - [throw] is a result in the [Err] branch of [Result]; the error
      constructors carry the names the specification gives to the messages.
    - A method that mutates [this] returns the object after the call next to
      its result, so that a mutation followed by a [throw] is visible.
    - [Math.random()] is an explicit argument [u]. *)

From Stdlib Require Import String Reals Lra Lia ZArith Bool Psatz List.
From Stdlib Require Import Sorting.Sorted Sorting.Permutation.
Import ListNotations.

Local Open Scope Z_scope.

(* ------------------------------------------------------------------ *)
(** ** Errors and the result monad *)

Inductive Error : Type :=
| InvalidQubitCount     (* 'Maximum 5 qubits supported',
                           'Number of qubits must be between 1 and 5' *)
| DimensionMismatch     (* 'Initial state must have .. amplitudes ..' *)
| ZeroStateError        (* 'Cannot normalize zero state' *)
| IndexOutOfRange       (* 'Basis state .. out of range',
                           'Qubit index .. out of range',
                           'Target qubit .. out of range',
                           'Qubit indices out of range' *)
| GateArityMismatch     (* 'Gate must be a single-qubit gate',
                           'Gate must be a two-qubit gate' *)
| InvalidQubitPair      (* 'Control and target qubits must be different' *)
| TargetCountMismatch   (* 'Gate requires .. target qubits, but .. provided' *)
| UnsupportedGateArity  (* 'Gates with .. qubits not supported' *)
| QubitCountMismatch    (* 'States must have the same number of qubits' *)
| RangeError            (* new Array(k) with k not an array length *)
| TypeError             (* arithmetic on [undefined] *)
| NonFinite.            (* a division by zero: the value leaves the reals *)

Inductive Result (A : Type) : Type :=
| Ok (a : A)
| Err (e : Error).

Arguments Ok {A} a.
Arguments Err {A} e.

Definition bind {A B : Type} (m : Result A) (k : A -> Result B) : Result B :=
  match m with
  | Ok a => k a
  | Err e => Err e
  end.

Notation "x <- m ;; k" := (bind m (fun x => k))
  (at level 61, m at next level, right associativity).
Notation "' p <- m ;; k" := (bind m (fun p => k))
  (at level 61, p pattern, m at next level, right associativity).

(** [for (i ...) { out[i] = f(i) }] over a list of indices, stopping at the
    first [throw]. *)
Fixpoint mapM {A B : Type} (f : A -> Result B) (l : list A) : Result (list B) :=
  match l with
  | [] => Ok []
  | x :: t => y <- f x ;; ys <- mapM f t ;; Ok (y :: ys)
  end.

(** [a[i] = v] on an array.  Every use below is at an index inside the
    array (JavaScript would grow the array at an index past its end; here
    the array is returned as it is). *)
Fixpoint update {A : Type} (i : nat) (v : A) (l : list A) : list A :=
  match l, i with
  | [], _ => []
  | _ :: t, O => v :: t
  | x :: t, S j => x :: update j v t
  end.

(** The indices [0 .. k-1] of a [for (let i = 0; i < k; i++)] loop. *)
Definition indices (k : Z) : list Z := map Z.of_nat (seq 0 (Z.to_nat k)).

(* ------------------------------------------------------------------ *)
(** ** mathjs complex numbers *)

Module MathJS.

Local Open Scope R_scope.

Record Complex : Type := mkComplex { re : R; im : R }.

(** [complex(x)] and [complex(x, y)]. *)
Definition complex (x : R) : Complex := mkComplex x 0.
Definition complex2 (x y : R) : Complex := mkComplex x y.

Definition add (a b : Complex) : Complex :=
  mkComplex (re a + re b) (im a + im b).

Definition multiply (a b : Complex) : Complex :=
  mkComplex (re a * re b - im a * im b) (re a * im b + im a * re b).

(** mathjs [abs] on a complex number: the modulus. *)
Definition abs (a : Complex) : R := sqrt (re a * re a + im a * im a).

(** A JavaScript number that is a real number or NaN. *)
Inductive JSNumber : Type :=
| Num (x : R)
| NaN.

(** ToNumber of a Complex *object*.  ToNumber calls the object's [valueOf],
    which mathjs sets to [toString]: the text of a Complex whose [im] is 0 is
    the text of [re], which reads back as [re]; the text of any other
    Complex has a term in [i] and reads as NaN. *)
Definition valueOf (a : Complex) : JSNumber :=
  if Req_dec_T (im a) 0 then Num (re a) else NaN.

(** The builtin [Math.abs] applied to a Complex object, and [Math.pow(x, 2)]:
    both keep NaN. *)
Definition Math_abs_object (a : Complex) : JSNumber :=
  match valueOf a with
  | Num x => Num (Rabs x)
  | NaN => NaN
  end.

Definition Math_pow2 (x : JSNumber) : JSNumber :=
  match x with
  | Num v => Num (v ^ 2)
  | NaN => NaN
  end.

End MathJS.

Export MathJS.

(* ------------------------------------------------------------------ *)
(** ** state.ts: class QuantumState *)

Module QuantumState.

Record t : Type := mk { amplitudes : list Complex; numQubits : Z }.

Definition getAmplitudes (s : t) : list Complex := amplitudes s.
Definition getNumQubits (s : t) : Z := numQubits s.

(** [Math.pow(Number(abs(amp)), 2)]. *)
Definition prob (amp : Complex) : R := (abs amp ^ 2)%R.

(** [this.amplitudes.reduce((sum, amp) => sum + |amp|^2, 0)]. *)
Definition sumSquares (amps : list Complex) : R :=
  fold_left (fun sum amp => (sum + prob amp)%R) amps 0%R.

(** [normalize()], on the amplitude array. *)
Definition normalize (amps : list Complex) : Result (list Complex) :=
  let norm := sqrt (sumSquares amps) in
  if Req_dec_T norm 0 then Err ZeroStateError
  else Ok (map (fun amp => multiply amp (complex (1 / norm))) amps).

(** [Math.pow(2, numQubits)] read as an array length.  For a count of 0 or
    more it is the integer 2^n.  For a negative count above -1075 it is a
    fraction: no array has that length, and [new Array] of it throws.  From
    -1075 down the power underflows to 0. *)
Definition numStates (n : Z) : option Z :=
  if 0 <=? n then Some (2 ^ n)
  else if n <=? -1075 then Some 0
  else None.

(** [new QuantumState(numQubits, initialState?)].  The only guard on the
    count is [numQubits > 5].  Without an initial array the store of
    [complex(1)] at index 0 makes an empty array one element long. *)
Definition new (n : Z) (initialState : option (list Complex)) : Result t :=
  if 5 <? n then Err InvalidQubitCount
  else
    amps <- match initialState, numStates n with
            | Some init, Some k =>
                if Z.of_nat (length init) =? k then Ok init
                else Err DimensionMismatch
            | Some init, None => Err DimensionMismatch
            | None, Some k =>
                if k =? 0 then Ok [complex 1]
                else Ok (update 0 (complex 1)
                           (repeat (complex 0) (Z.to_nat k)))
            | None, None => Err RangeError
            end ;;
    amps' <- normalize amps ;;
    Ok (mk amps' n).

Definition inRange (s : t) (basisState : Z) : bool :=
  (0 <=? basisState) && (basisState <? Z.of_nat (length (amplitudes s))).

(** [setAmplitude]: the object after the call, and the error if it threw.
    The store happens before [normalize], so a failing [normalize] leaves
    the stored amplitude in place. *)
Definition setAmplitude (s : t) (basisState : Z) (amplitude : Complex)
  : t * option Error :=
  if negb (inRange s basisState) then (s, Some IndexOutOfRange)
  else
    let stored := update (Z.to_nat basisState) amplitude (amplitudes s) in
    match normalize stored with
    | Ok amps' => (mk amps' (numQubits s), None)
    | Err e => (mk stored (numQubits s), Some e)
    end.

Definition getAmplitude (s : t) (basisState : Z) : Result Complex :=
  if negb (inRange s basisState) then Err IndexOutOfRange
  else
    match nth_error (amplitudes s) (Z.to_nat basisState) with
    | Some a => Ok a
    | None => Err IndexOutOfRange
    end.

Definition getMeasurementProbabilities (s : t) : list R :=
  map prob (amplitudes s).

Definition getMeasurementProbability (s : t) (basisState : Z) : Result R :=
  if negb (inRange s basisState) then Err IndexOutOfRange
  else
    match nth_error (amplitudes s) (Z.to_nat basisState) with
    | Some a => Ok (prob a)
    | None => Err IndexOutOfRange
    end.

(** [(i >> (numQubits - 1 - q)) & 1]. *)
Definition qubitValue (n q i : Z) : Z := Z.land (Z.shiftr i (n - 1 - q)) 1.

(** One iteration of the loop of [getQubitMeasurementProbabilities]. *)
Definition probStep (n q : Z) (acc : R * R) (ia : Z * Complex) : R * R :=
  let '(prob0, prob1) := acc in
  let '(i, amp) := ia in
  let probability := prob amp in
  if qubitValue n q i =? 0
  then ((prob0 + probability)%R, prob1)
  else (prob0, (prob1 + probability)%R).

(** The array paired with its indices, [(0, a[0]), (1, a[1]), ...]. *)
Definition indexed {A : Type} (l : list A) : list (Z * A) :=
  combine (indices (Z.of_nat (length l))) l.

Definition getQubitMeasurementProbabilities (s : t) (qubitIndex : Z)
  : Result (R * R) :=
  if (qubitIndex <? 0) || (qubitIndex >=? numQubits s)
  then Err IndexOutOfRange
  else Ok (fold_left (probStep (numQubits s) qubitIndex)
             (indexed (amplitudes s)) (0%R, 0%R)).

Definition clone (s : t) : Result t := new (numQubits s) (Some (amplitudes s)).

(** [k.toString(2)] for an integer [k]: the binary digits, most significant
    first, after a minus sign for a negative number. *)
Fixpoint binaryDigits (p : positive) : string :=
  match p with
  | xH => "1"%string
  | xO q => String.append (binaryDigits q) "0"%string
  | xI q => String.append (binaryDigits q) "1"%string
  end.

Definition toString2 (k : Z) : string :=
  match k with
  | Z0 => "0"%string
  | Zpos p => binaryDigits p
  | Zneg p => String.append "-"%string (binaryDigits p)
  end.

Fixpoint zeros (k : nat) : string :=
  match k with
  | O => EmptyString
  | S j => String.append "0"%string (zeros j)
  end.

(** [str.padStart(targetLength, '0')]. *)
Definition padStart (targetLength : Z) (str : string) : string :=
  let len := Z.of_nat (String.length str) in
  if targetLength <=? len then str
  else String.append (zeros (Z.to_nat (targetLength - len))) str.

Definition basisStateToString (s : t) (basisState : Z) : string :=
  padStart (numQubits s) (toString2 basisState).

End QuantumState.

(* ------------------------------------------------------------------ *)
(** ** The gate and circuit-element interfaces, and gates.ts

    [QuantumGate] and [CircuitElement] have the fields of the interfaces
    declared with the types of the repository. *)

Record QuantumGate : Type := mkGate {
  name : string;
  symbol : string;
  qubits : Z;
  matrix : list (list Complex)
}.

Record CircuitElement : Type := mkElement {
  gate : QuantumGate;
  targetQubits : list Z;
  position : Z
}.

Module Gates.

Local Open Scope R_scope.

Definition SQRT2 : R := sqrt 2.

Definition HadamardGate : QuantumGate :=
  mkGate "Hadamard" "H" 1
    [ [complex (1 / SQRT2); complex (1 / SQRT2)];
      [complex (1 / SQRT2); complex (-1 / SQRT2)] ].

Definition PauliXGate : QuantumGate :=
  mkGate "Pauli-X" "X" 1
    [ [complex 0; complex 1];
      [complex 1; complex 0] ].

Definition PauliYGate : QuantumGate :=
  mkGate "Pauli-Y" "Y" 1
    [ [complex 0; complex2 0 (-1)];
      [complex2 0 1; complex 0] ].

Definition PauliZGate : QuantumGate :=
  mkGate "Pauli-Z" "Z" 1
    [ [complex 1; complex 0];
      [complex 0; complex (-1)] ].

Definition CNOTGate : QuantumGate :=
  mkGate "CNOT" "CX" 2
    [ [complex 1; complex 0; complex 0; complex 0];
      [complex 0; complex 1; complex 0; complex 0];
      [complex 0; complex 0; complex 0; complex 1];
      [complex 0; complex 0; complex 1; complex 0] ].

Definition availableGates : list QuantumGate :=
  [HadamardGate; PauliXGate; PauliYGate; PauliZGate; CNOTGate].

End Gates.

(* ------------------------------------------------------------------ *)
(** ** operations.ts: class QuantumOperations *)

(** A loop that threads an accumulator and stops at the first [throw]. *)
Fixpoint foldM {A B : Type} (f : B -> A -> Result B) (l : list A) (acc : B)
  : Result B :=
  match l with
  | [] => Ok acc
  | x :: t => acc' <- f acc x ;; foldM f t acc'
  end.

Module QuantumOperations.

Import QuantumState.

(** [gate.matrix[r][c]]; a missing entry is [undefined], on which the
    arithmetic of mathjs throws. *)
Definition matrixAt (g : QuantumGate) (r c : nat) : Result Complex :=
  match nth_error (matrix g) r with
  | Some row =>
      match nth_error row c with
      | Some m => Ok m
      | None => Err TypeError
      end
  | None => Err TypeError
  end.

(** The body of the loop of [applySingleQubitGate], for output index [i]. *)
Definition singleQubitAmplitude (state : t) (g : QuantumGate)
  (numQubits targetQubit i : Z) : Result Complex :=
  let qubitBit := Z.land (Z.shiftr i (numQubits - 1 - targetQubit)) 1 in
  let state0 := Z.land i (Z.lnot (Z.shiftl 1 (numQubits - 1 - targetQubit))) in
  let state1 := Z.lor i (Z.shiftl 1 (numQubits - 1 - targetQubit)) in
  if qubitBit =? 0 then
    m0 <- matrixAt g 0 0 ;;
    a0 <- getAmplitude state state0 ;;
    m1 <- matrixAt g 0 1 ;;
    a1 <- getAmplitude state state1 ;;
    Ok (add (multiply m0 a0) (multiply m1 a1))
  else
    m0 <- matrixAt g 1 0 ;;
    a0 <- getAmplitude state state0 ;;
    m1 <- matrixAt g 1 1 ;;
    a1 <- getAmplitude state state1 ;;
    Ok (add (multiply m0 a0) (multiply m1 a1)).

Definition applySingleQubitGate (state : t) (g : QuantumGate) (targetQubit : Z)
  : Result t :=
  if negb (qubits g =? 1) then Err GateArityMismatch
  else if (targetQubit <? 0) || (targetQubit >=? getNumQubits state)
  then Err IndexOutOfRange
  else
    let numQubits := getNumQubits state in
    let numStates := 2 ^ numQubits in
    newAmplitudes <-
      mapM (singleQubitAmplitude state g numQubits targetQubit)
        (indices numStates) ;;
    new numQubits (Some newAmplitudes).

(** The four entries of the [states] array of [applyTwoQubitGate], with the
    grouping the operator precedences of the source give them: [~] binds
    tightest, then [<<], then [&], then [|]. *)
Definition twoQubitStates (numQubits controlQubit targetQubit i : Z) : list Z :=
  let c := Z.shiftl 1 (numQubits - 1 - controlQubit) in
  let t := Z.shiftl 1 (numQubits - 1 - targetQubit) in
  [ Z.land (Z.land i (Z.lnot c)) (Z.lnot t);
    Z.lor (Z.land i (Z.lnot c)) t;
    Z.lor i (Z.land c (Z.lnot t));
    Z.lor (Z.lor i c) t ].

(** The body of the outer loop of [applyTwoQubitGate], for output index [i]:
    the inner loop over [j] accumulates from [complex(0)]. *)
Definition twoQubitAmplitude (state : t) (g : QuantumGate)
  (numQubits controlQubit targetQubit i : Z) : Result Complex :=
  let controlBit := Z.land (Z.shiftr i (numQubits - 1 - controlQubit)) 1 in
  let targetBit := Z.land (Z.shiftr i (numQubits - 1 - targetQubit)) 1 in
  let twoQubitState := Z.lor (Z.shiftl controlBit 1) targetBit in
  let states := twoQubitStates numQubits controlQubit targetQubit i in
  foldM (fun acc j =>
           m <- matrixAt g (Z.to_nat twoQubitState) j ;;
           a <- getAmplitude state (nth j states 0) ;;
           Ok (add acc (multiply m a)))
    [0%nat; 1%nat; 2%nat; 3%nat] (complex 0).

Definition applyTwoQubitGate (state : t) (g : QuantumGate)
  (controlQubit targetQubit : Z) : Result t :=
  if negb (qubits g =? 2) then Err GateArityMismatch
  else if (controlQubit <? 0) || (controlQubit >=? getNumQubits state)
          || (targetQubit <? 0) || (targetQubit >=? getNumQubits state)
  then Err IndexOutOfRange
  else if controlQubit =? targetQubit then Err InvalidQubitPair
  else
    let numQubits := getNumQubits state in
    let numStates := 2 ^ numQubits in
    newAmplitudes <-
      mapM (twoQubitAmplitude state g numQubits controlQubit targetQubit)
        (indices numStates) ;;
    new numQubits (Some newAmplitudes).

Definition applyGate (state : t) (g : QuantumGate) (targetQubits : list Z)
  : Result t :=
  if negb (Z.of_nat (length targetQubits) =? qubits g)
  then Err TargetCountMismatch
  else if qubits g =? 1
  then applySingleQubitGate state g (nth 0 targetQubits 0)
  else if qubits g =? 2
  then applyTwoQubitGate state g (nth 0 targetQubits 0) (nth 1 targetQubits 0)
  else Err UnsupportedGateArity.

(** [random < prob0 ? 0 : 1]. *)
Definition outcome (u prob0 : R) : Z := if Rlt_dec u prob0 then 0 else 1.

(** [measureQubit], with the sample [u] of [Math.random()].  The source
    divides by [normalizationFactor] unguarded.  When the factor is 0 the
    quotient is infinite, the amplitudes it multiplies are zero, the
    products are NaN, and the constructor (whose test [norm === 0] is false
    for NaN) returns a state of NaN amplitudes next to [result]: the code
    does not throw.  The model reports that outcome as [NonFinite]. *)
Definition measureQubit (state : t) (qubitIndex : Z) (u : R)
  : Result (Z * t) :=
  '(prob0, prob1) <- getQubitMeasurementProbabilities state qubitIndex ;;
  let result := outcome u prob0 in
  let numQubits := getNumQubits state in
  let numStates := 2 ^ numQubits in
  let normalizationFactor := if result =? 0 then sqrt prob0 else sqrt prob1 in
  if Req_dec_T normalizationFactor 0 then Err NonFinite
  else
    newAmplitudes <-
      mapM (fun i =>
              if qubitValue numQubits qubitIndex i =? result
              then a <- getAmplitude state i ;;
                   Ok (multiply a (complex (1 / normalizationFactor)))
              else Ok (complex 0))
        (indices numStates) ;;
    newState <- new numQubits (Some newAmplitudes) ;;
    Ok (result, newState).

(** The sampling loop of [measureAll]: [measuredState] keeps its initial 0
    when no cumulative sum reaches the sample. *)
Fixpoint pick (u : R) (probabilities : list R) (i : Z) (cumulativeProb : R)
  : Z :=
  match probabilities with
  | [] => 0
  | p :: rest =>
      let cumulativeProb' := (cumulativeProb + p)%R in
      if Rle_dec u cumulativeProb' then i
      else pick u rest (i + 1) cumulativeProb'
  end.

Definition measureAll (state : t) (u : R) : list Z * list R :=
  let probabilities := getMeasurementProbabilities state in
  let measuredState := pick u probabilities 0 0%R in
  let numQubits := getNumQubits state in
  let results := map (fun i => qubitValue numQubits i measuredState)
                   (indices numQubits) in
  (results, probabilities).

(** The complex inner product accumulated by [calculateFidelity]. *)
Definition innerProduct (amplitudes1 amplitudes2 : list Complex)
  : Result Complex :=
  foldM (fun acc i =>
           match nth_error amplitudes1 i, nth_error amplitudes2 i with
           | Some a1, Some a2 =>
               let conj1 := complex2 (re a1) (- im a1)%R in
               Ok (add acc (multiply conj1 a2))
           | _, _ => Err TypeError
           end)
    (seq 0 (length amplitudes1)) (complex 0).

(** [Math.pow(Math.abs(innerProduct as any), 2)]: the builtin [Math.abs],
    not the [abs] of mathjs (which this file does not import). *)
Definition calculateFidelity (state1 state2 : t) : Result JSNumber :=
  if negb (getNumQubits state1 =? getNumQubits state2)
  then Err QubitCountMismatch
  else
    ip <- innerProduct (getAmplitudes state1) (getAmplitudes state2) ;;
    Ok (Math_pow2 (Math_abs_object ip)).

End QuantumOperations.

(* ------------------------------------------------------------------ *)
(** ** simulator.ts: class QuantumSimulator *)

Module QuantumSimulator.

(** The lines of the execution log, one constructor per template string. *)
Inductive LogEntry : Type :=
| LogInitialized (numQubits : Z)
    (* `Initialized ${n}-qubit system in |0..0> state` *)
| LogApplied (gateName : string) (targetQubits : list Z)
    (* `Applied ${gate.name} gate to qubit(s): q.., q..` *)
| LogError (gateName : string) (e : Error)
    (* `Error applying ${gate.name} gate: ${errorMessage}` *)
| LogMeasured (qubitIndex result : Z) (probability : R)
    (* `Measured qubit ${q}: ${result} (probability: ..)` *)
| LogMeasuredAll (results : list Z).
    (* `Measured all qubits: |..>` *)

Record t : Type := mk {
  numQubits : Z;
  currentState : QuantumState.t;
  stateHistory : list QuantumState.t;
  executionLog : list LogEntry
}.

Record SimulationResult : Type := mkResult {
  finalState : QuantumState.t;
  measurementProbabilities : list R;
  resultHistory : list QuantumState.t;
  resultLog : list LogEntry
}.

Record MeasurementResult : Type := mkMeasurement {
  qubitIndex : Z;
  result : Z;
  probability : R
}.

(** [reset()]: the three fields are assigned in turn, so a [throw] in the
    middle leaves the earlier assignments in place. *)
Definition reset (sim : t) : t * Result unit :=
  match QuantumState.new (numQubits sim) None with
  | Err e => (sim, Err e)
  | Ok cur =>
      let sim1 := mk (numQubits sim) cur (stateHistory sim) (executionLog sim) in
      match QuantumState.clone cur with
      | Err e => (sim1, Err e)
      | Ok c =>
          (mk (numQubits sim) cur [c] [LogInitialized (numQubits sim)], Ok tt)
      end
  end.

(** [new QuantumSimulator(numQubits)]: the range check, then [reset()] on an
    object whose other fields are not assigned yet. *)
Definition new (n : Z) : Result t :=
  if (n <? 1) || (5 <? n) then Err InvalidQubitCount
  else
    cur <- QuantumState.new n None ;;
    c <- QuantumState.clone cur ;;
    Ok (mk n cur [c] [LogInitialized n]).

Definition getCurrentState (sim : t) : Result QuantumState.t :=
  QuantumState.clone (currentState sim).

(** [applyGate]: the [try] block assigns the new state, pushes its clone and
    the log line; the [catch] block pushes the error line and rethrows. *)
Definition applyGate (sim : t) (g : QuantumGate) (targetQubits : list Z)
  : t * Result unit :=
  match QuantumOperations.applyGate (currentState sim) g targetQubits with
  | Err e =>
      (mk (numQubits sim) (currentState sim) (stateHistory sim)
         (executionLog sim ++ [LogError (name g) e]), Err e)
  | Ok s' =>
      match QuantumState.clone s' with
      | Err e =>
          (mk (numQubits sim) s' (stateHistory sim)
             (executionLog sim ++ [LogError (name g) e]), Err e)
      | Ok c =>
          (mk (numQubits sim) s' (stateHistory sim ++ [c])
             (executionLog sim ++ [LogApplied (name g) targetQubits]), Ok tt)
      end
  end.

(** [[...circuit].sort((a, b) => a.position - b.position)].  The sort of
    ECMAScript is stable; it is written here as the insertion sort that puts
    an element in front of the first one whose position is not smaller. *)
Fixpoint insertByPosition (e : CircuitElement) (l : list CircuitElement)
  : list CircuitElement :=
  match l with
  | [] => [e]
  | x :: rest =>
      if position e <=? position x then e :: x :: rest
      else x :: insertByPosition e rest
  end.

Definition sortByPosition (circuit : list CircuitElement)
  : list CircuitElement :=
  fold_right insertByPosition [] circuit.

(** The [for (const element of sortedCircuit)] loop: a [throw] of
    [applyGate] leaves the loop and the method. *)
Fixpoint applyAll (sim : t) (elements : list CircuitElement) : t * Result unit :=
  match elements with
  | [] => (sim, Ok tt)
  | element :: rest =>
      match applyGate sim (gate element) (targetQubits element) with
      | (sim', Ok _) => applyAll sim' rest
      | (sim', Err e) => (sim', Err e)
      end
  end.

Definition executeCircuit (sim : t) (circuit : list CircuitElement)
  : t * Result SimulationResult :=
  let sortedCircuit := sortByPosition circuit in
  match applyAll sim sortedCircuit with
  | (sim', Err e) => (sim', Err e)
  | (sim', Ok _) =>
      (sim',
       fs <- QuantumState.clone (currentState sim') ;;
       h <- mapM QuantumState.clone (stateHistory sim') ;;
       Ok (mkResult fs
             (QuantumState.getMeasurementProbabilities (currentState sim'))
             h (executionLog sim')))
  end.

(** [measureQubit] of the simulator.  When the engine returns a state of
    NaN amplitudes the code stores it like any other; the model, which has
    no such state, reports [NonFinite] and keeps the session as it was. *)
Definition measureQubit (sim : t) (q : Z) (u : R)
  : t * Result MeasurementResult :=
  match QuantumState.getQubitMeasurementProbabilities (currentState sim) q with
  | Err e => (sim, Err e)
  | Ok (prob0, prob1) =>
      match QuantumOperations.measureQubit (currentState sim) q u with
      | Err e => (sim, Err e)
      | Ok (r, newState) =>
          match QuantumState.clone newState with
          | Err e =>
              (mk (numQubits sim) newState (stateHistory sim)
                 (executionLog sim), Err e)
          | Ok c =>
              let p := if r =? 0 then prob0 else prob1 in
              (mk (numQubits sim) newState (stateHistory sim ++ [c])
                 (executionLog sim ++ [LogMeasured q r p]),
               Ok (mkMeasurement q r p))
          end
      end
  end.

(** [results.reduce((acc, bit, idx) => acc + bit * 2^(n - 1 - idx), 0)]. *)
Definition finalStateIndex (n : Z) (results : list Z) : Z :=
  fold_left (fun acc '(idx, bit) => acc + bit * 2 ^ (n - 1 - idx))
    (QuantumState.indexed results) 0.

Definition measureAll (sim : t) (u : R) : t * Result (list Z * list R) :=
  let '(results, probabilities) :=
    QuantumOperations.measureAll (currentState sim) u in
  let idx := finalStateIndex (numQubits sim) results in
  let collapsedAmplitudes :=
    update (Z.to_nat idx) (complex 1)
      (repeat (complex 0) (Z.to_nat (2 ^ numQubits sim))) in
  match QuantumState.new (numQubits sim) (Some collapsedAmplitudes) with
  | Err e => (sim, Err e)
  | Ok s' =>
      match QuantumState.clone s' with
      | Err e =>
          (mk (numQubits sim) s' (stateHistory sim) (executionLog sim), Err e)
      | Ok c =>
          (mk (numQubits sim) s' (stateHistory sim ++ [c])
             (executionLog sim ++ [LogMeasuredAll results]),
           Ok (results, probabilities))
      end
  end.

(** [getMeasurementProbabilities()] of the simulator: the basis states
    whose probability exceeds 1e-10, with their labels. *)
Definition negligible (p : R) : bool :=
  if Rgt_dec p (/ 10 ^ 10)%R then false else true.

Definition getMeasurementProbabilities (sim : t) : list (string * R) :=
  filter (fun item => negb (negligible (snd item)))
    (map (fun '(index, p) =>
            (QuantumState.basisStateToString (currentState sim) index, p))
       (QuantumState.indexed
          (QuantumState.getMeasurementProbabilities (currentState sim)))).

(** [getQubitProbabilities()]: one entry per qubit, in order. *)
Definition getQubitProbabilities (sim : t) : Result (list (Z * R * R)) :=
  mapM (fun i =>
          '(prob0, prob1) <-
            QuantumState.getQubitMeasurementProbabilities (currentState sim) i ;;
          Ok (i, prob0, prob1))
    (indices (numQubits sim)).

Definition getExpectationValueZ (sim : t) (q : Z) : Result R :=
  '(prob0, prob1) <-
    QuantumState.getQubitMeasurementProbabilities (currentState sim) q ;;
  Ok (prob0 - prob1)%R.

Definition getExecutionLog (sim : t) : list LogEntry := executionLog sim.

Definition getStateHistory (sim : t) : Result (list QuantumState.t) :=
  mapM QuantumState.clone (stateHistory sim).

Definition calculateFidelity (sim : t) (otherState : QuantumState.t)
  : Result JSNumber :=
  QuantumOperations.calculateFidelity (currentState sim) otherState.

(** A caller's view of a session: the calls it makes, each of which may
    throw and leave the session as the throwing method left it. *)
Inductive Call : Type :=
| CallApplyGate (g : QuantumGate) (targetQubits : list Z)
| CallMeasureQubit (q : Z) (u : R)
| CallMeasureAll (u : R)
| CallReset.

Definition thrown {A : Type} (r : Result A) : option Error :=
  match r with
  | Ok _ => None
  | Err e => Some e
  end.

Definition step (sim : t) (c : Call) : t * option Error :=
  match c with
  | CallApplyGate g ts => let '(s, r) := applyGate sim g ts in (s, thrown r)
  | CallMeasureQubit q u => let '(s, r) := measureQubit sim q u in (s, thrown r)
  | CallMeasureAll u => let '(s, r) := measureAll sim u in (s, thrown r)
  | CallReset => let '(s, r) := reset sim in (s, thrown r)
  end.

Definition run (sim : t) (calls : list Call) : t :=
  fold_left (fun s c => fst (step s c)) calls sim.

(** The number of error lines in a log. *)
Definition isErrorLine (l : LogEntry) : bool :=
  match l with
  | LogError _ _ => true
  | _ => false
  end.

Definition errorLines (log : list LogEntry) : nat :=
  length (filter isErrorLine log).

(** The gate a log line speaks of, for the lines that gate calls write. *)
Definition lineGate (l : LogEntry) : option string :=
  match l with
  | LogApplied g _ => Some g
  | LogError g _ => Some g
  | _ => None
  end.

End QuantumSimulator.

(* ------------------------------------------------------------------ *)
(** ** utils/blochSphere.ts: class BlochSphereUtils *)

Module BlochSphereUtils.

Local Open Scope R_scope.

Record BlochVector : Type := mkVector { x : R; y : R; z : R }.

Record SphericalCoordinates : Type :=
  mkSpherical { theta : R; phi : R; r : R }.

(** What [stateToBlochVector] throws: its own message for a state that is
    not a single qubit, or an error of [getAmplitude]. *)
Inductive BlochError : Type :=
| NotSingleQubit   (* 'Bloch sphere visualization only supports
                       single-qubit states' *)
| StateError (e : Error).

Definition stateToBlochVector (state : QuantumState.t)
  : BlochVector + BlochError :=
  if negb (QuantumState.getNumQubits state =? 1)%Z then inr NotSingleQubit
  else
    match QuantumState.getAmplitude state 0 with
    | Err e => inr (StateError e)
    | Ok alpha =>
        match QuantumState.getAmplitude state 1 with
        | Err e => inr (StateError e)
        | Ok beta =>
            let alphaBetaConj :=
              complex2 (re alpha * re beta + im alpha * im beta)
                       (im alpha * re beta - re alpha * im beta) in
            inl (mkVector (2 * re alphaBetaConj) (2 * im alphaBetaConj)
                   (abs alpha ^ 2 - abs beta ^ 2))
        end
    end.

Definition sphericalToBlochVector (coords : SphericalCoordinates) : BlochVector :=
  mkVector (r coords * sin (theta coords) * cos (phi coords))
           (r coords * sin (theta coords) * sin (phi coords))
           (r coords * cos (theta coords)).

Definition vectorLength (v : BlochVector) : R :=
  sqrt (x v * x v + y v * y v + z v * z v).

(** [getRotationBetweenVectors]: the axis is divided by its length only when
    that is positive.  The quotient under [Math.acos] is 0/0 when one of the
    vectors is zero, which the real-number model reports as [NonFinite]. *)
Definition getRotationBetweenVectors (from to : BlochVector)
  : Result (BlochVector * R) :=
  let axis0 := mkVector (y from * z to - z from * y to)
                        (z from * x to - x from * z to)
                        (x from * y to - y from * x to) in
  let axisLength := vectorLength axis0 in
  let axis := if Rlt_dec 0 axisLength
              then mkVector (x axis0 / axisLength) (y axis0 / axisLength)
                            (z axis0 / axisLength)
              else axis0 in
  let dot := x from * x to + y from * y to + z from * z to in
  let fromLength := vectorLength from in
  let toLength := vectorLength to in
  if Req_dec_T (fromLength * toLength) 0 then Err NonFinite
  else Ok (axis, acos (Rmax (-1) (Rmin 1 (dot / (fromLength * toLength))))).

(** [slerp]: linear interpolation when the angle is below 0.001, the
    rotation formula of Rodrigues otherwise. *)
Definition slerp (from to : BlochVector) (t : R) : Result BlochVector :=
  '(axis, rotationAngle) <- getRotationBetweenVectors from to ;;
  let angle := rotationAngle * t in
  if Rlt_dec rotationAngle (1 / 1000)
  then Ok (mkVector (x from + (x to - x from) * t)
                    (y from + (y to - y from) * t)
                    (z from + (z to - z from) * t))
  else
    let c := cos angle in
    let s := sin angle in
    let oneMinusCos := 1 - c in
    let along := x axis * x from + y axis * y from + z axis * z from in
    Ok (mkVector
          (x from * c + (y axis * z from - z axis * y from) * s
           + x axis * along * oneMinusCos)
          (y from * c + (z axis * x from - x axis * z from) * s
           + y axis * along * oneMinusCos)
          (z from * c + (x axis * y from - y axis * x from) * s
           + z axis * along * oneMinusCos)).

(** [getMeasurementProbability(vector, axis)]: the axis is divided by its
    length unguarded; a zero axis gives 0/0, reported as [NonFinite]. *)
Definition getMeasurementProbability (vector axis : BlochVector)
  : Result (R * R) :=
  let axisLength := vectorLength axis in
  if Req_dec_T axisLength 0 then Err NonFinite
  else
    let normalizedAxis := mkVector (x axis / axisLength) (y axis / axisLength)
                                   (z axis / axisLength) in
    let projection := x vector * x normalizedAxis
                      + y vector * y normalizedAxis
                      + z vector * z normalizedAxis in
    Ok ((1 + projection) / 2, (1 - projection) / 2).

End BlochSphereUtils.

(* ------------------------------------------------------------------ *)
(** ** Predicates used by the statements *)

(** The sum of a list of probabilities, accumulated from the left. *)
Definition total (l : list R) : R := fold_left Rplus l 0%R.

(** A state vector whose measurement probabilities sum to one. *)
Definition normalized (s : QuantumState.t) : Prop :=
  total (QuantumState.getMeasurementProbabilities s) = 1%R.

(** The class invariant of [QuantumState]: what every object that left the
    constructor satisfies. *)
Definition wellFormed (s : QuantumState.t) : Prop :=
  0 <= QuantumState.numQubits s <= 5 /\
  Z.of_nat (length (QuantumState.amplitudes s)) = 2 ^ QuantumState.numQubits s /\
  normalized s.

(** A sequence of gate applications from [s]: the states after each step,
    when every application succeeds. *)
Fixpoint applyGates (s : QuantumState.t) (gs : list (QuantumGate * list Z))
  : Result (list QuantumState.t) :=
  match gs with
  | [] => Ok []
  | (g, ts) :: rest =>
      s' <- QuantumOperations.applyGate s g ts ;;
      tr <- applyGates s' rest ;;
      Ok (s' :: tr)
  end.

(** The basis state [|k>] of an [n]-qubit register, as an amplitude array. *)
Definition basisAmplitudes (n k : Z) : list Complex :=
  update (Z.to_nat k) (complex 1) (repeat (complex 0) (Z.to_nat (2 ^ n))).

(** The session invariant on the states a simulator holds. *)
Definition wellFormedSession (sim : QuantumSimulator.t) : Prop :=
  1 <= QuantumSimulator.numQubits sim <= 5
  /\ wellFormed (QuantumSimulator.currentState sim)
  /\ Forall wellFormed (QuantumSimulator.stateHistory sim).

(** The audit trail: the log is as long as the history plus one line per
    failed gate application. *)
Definition auditTrail (sim : QuantumSimulator.t) : Prop :=
  length (QuantumSimulator.executionLog sim)
  = (length (QuantumSimulator.stateHistory sim)
     + QuantumSimulator.errorLines (QuantumSimulator.executionLog sim))%nat.

(** The log line of a successful application of a circuit element, and the
    element as a gate step. *)
Definition appliedLine (el : CircuitElement) : QuantumSimulator.LogEntry :=
  QuantumSimulator.LogApplied (name (gate el)) (targetQubits el).

Definition gateStep (el : CircuitElement) : QuantumGate * list Z :=
  (gate el, targetQubits el).

Definition isApplyGate (c : QuantumSimulator.Call) : bool :=
  match c with
  | QuantumSimulator.CallApplyGate _ _ => true
  | _ => false
  end.

Definition isReset (c : QuantumSimulator.Call) : bool :=
  match c with
  | QuantumSimulator.CallReset => true
  | _ => false
  end.

(** A fresh one-qubit session, a fresh two-qubit session, the circuit that
    flips qubit 0, and the circuit of the ordering test (Pauli-X at position
    1 listed before Hadamard at position 0). *)
Definition session1 : QuantumSimulator.t :=
  QuantumSimulator.mk 1
    (QuantumState.mk [complex 1; complex 0] 1)
    [QuantumState.mk [complex 1; complex 0] 1]
    [QuantumSimulator.LogInitialized 1].

Definition session2 : QuantumSimulator.t :=
  QuantumSimulator.mk 2
    (QuantumState.mk [complex 1; complex 0; complex 0; complex 0] 2)
    [QuantumState.mk [complex 1; complex 0; complex 0; complex 0] 2]
    [QuantumSimulator.LogInitialized 2].

Definition flipCircuit : list CircuitElement :=
  [mkElement Gates.PauliXGate [0] 0].

Definition unorderedCircuit : list CircuitElement :=
  [mkElement Gates.PauliXGate [1] 1; mkElement Gates.HadamardGate [0] 0].

(** The fidelity as the specification words it: the squared modulus of the
    inner product of the conjugated amplitudes of the first state with the
    amplitudes of the second. *)
Definition fidelitySpec (state1 state2 : QuantumState.t) : Result R :=
  if negb (QuantumState.getNumQubits state1 =? QuantumState.getNumQubits state2)
  then Err QubitCountMismatch
  else
    ip <- QuantumOperations.innerProduct
            (QuantumState.getAmplitudes state1)
            (QuantumState.getAmplitudes state2) ;;
    Ok (abs ip ^ 2)%R.

(** Real and imaginary part of the sum of [conj(a) * b] over two arrays. *)
Fixpoint dotRe (l1 l2 : list Complex) : R :=
  match l1, l2 with
  | a :: t1, b :: t2 => (re a * re b + im a * im b + dotRe t1 t2)%R
  | _, _ => 0%R
  end.

Fixpoint dotIm (l1 l2 : list Complex) : R :=
  match l1, l2 with
  | a :: t1, b :: t2 => (re a * im b - im a * re b + dotIm t1 t2)%R
  | _, _ => 0%R
  end.

(** The probability mass of the amplitudes whose index has qubit [q] equal
    to 0 ([marginal0]) and different from 0 ([marginal1]). *)
Fixpoint marginal0 (n q : Z) (l : list (Z * Complex)) : R :=
  match l with
  | [] => 0%R
  | (i, a) :: t =>
      if QuantumState.qubitValue n q i =? 0
      then (QuantumState.prob a + marginal0 n q t)%R
      else marginal0 n q t
  end.

Fixpoint marginal1 (n q : Z) (l : list (Z * Complex)) : R :=
  match l with
  | [] => 0%R
  | (i, a) :: t =>
      if QuantumState.qubitValue n q i =? 0
      then marginal1 n q t
      else (QuantumState.prob a + marginal1 n q t)%R
  end.

(** The amplitude a measurement with outcome [r] leaves at index [i]: the
    old one scaled by [c] where qubit [q] of [i] is [r], zero elsewhere. *)
Definition collapse (n q r : Z) (c : R) (ia : Z * Complex) : Complex :=
  if QuantumState.qubitValue n q (fst ia) =? r
  then multiply (snd ia) (complex c)
  else complex 0.

Definition ket (n k : Z) : QuantumState.t :=
  QuantumState.mk (basisAmplitudes n k) n.

(** The state after Hadamard on qubit 0 of [|00>]: (|00> + |10>)/sqrt 2. *)
Definition plus0 : QuantumState.t :=
  QuantumState.mk
    [complex (1 / Gates.SQRT2); complex 0; complex (1 / Gates.SQRT2); complex 0]
    2.

(** The single-qubit states (|0> + |1>)/sqrt 2 and i|0>. *)
Definition plusState : QuantumState.t :=
  QuantumState.mk [complex (1 / Gates.SQRT2); complex (1 / Gates.SQRT2)] 1.

Definition iket0 : QuantumState.t :=
  QuantumState.mk [complex2 0 1; complex 0] 1.

(** The sum of [F] over a list of indices. *)
Definition sumOver (F : Z -> R) (l : list Z) : R :=
  fold_right (fun i acc => (F i + acc)%R) 0%R l.

(** The amplitude of a state at an index, for an index known to be in
    range. *)
Definition amplitudeAt (s : QuantumState.t) (i : Z) : Complex :=
  nth (Z.to_nat i) (QuantumState.amplitudes s) (complex 0).

(** The index that differs from [i] in the bit of qubit [q] only. *)
Definition flipBit (n q i : Z) : Z := Z.lxor i (2 ^ (n - 1 - q)).

(** A 2x2 complex matrix with orthonormal columns. *)
Definition isUnitary2 (m00 m01 m10 m11 : Complex) : Prop :=
  (QuantumState.prob m00 + QuantumState.prob m10 = 1
   /\ QuantumState.prob m01 + QuantumState.prob m11 = 1
   /\ re m00 * re m01 + im m00 * im m01 + re m10 * re m11 + im m10 * im m11 = 0
   /\ re m00 * im m01 - im m00 * re m01 + re m10 * im m11 - im m10 * re m11
      = 0)%R.

(** The action of a single-qubit matrix on qubit [q] at index [i]: row 0 on
    the pair (this amplitude, partner amplitude) where the qubit is 0,
    row 1 on the pair (partner amplitude, this amplitude) where it is 1. *)
Definition actSingle (m00 m01 m10 m11 : Complex) (s : QuantumState.t)
  (q i : Z) : Complex :=
  if QuantumState.qubitValue (QuantumState.numQubits s) q i =? 0
  then add (multiply m00 (amplitudeAt s i))
           (multiply m01 (amplitudeAt s (flipBit (QuantumState.numQubits s) q i)))
  else add (multiply m10 (amplitudeAt s (flipBit (QuantumState.numQubits s) q i)))
           (multiply m11 (amplitudeAt s i)).

(** A 2x2 complex matrix whose square is the identity. *)
Definition isInvolution2 (m00 m01 m10 m11 : Complex) : Prop :=
  add (multiply m00 m00) (multiply m01 m10) = complex 1
  /\ add (multiply m00 m01) (multiply m01 m11) = complex 0
  /\ add (multiply m10 m00) (multiply m11 m10) = complex 0
  /\ add (multiply m10 m01) (multiply m11 m11) = complex 1.

(** The entries of the matrix of a single-qubit gate of the library. *)
Definition entry (g : QuantumGate) (r c : nat) : Complex :=
  nth c (nth r (matrix g) []) (complex 0).

Definition singleQubitLibrary : list QuantumGate :=
  [Gates.HadamardGate; Gates.PauliXGate; Gates.PauliYGate; Gates.PauliZGate].

(** What a session reached from the constructor keeps: the states it holds
    are well formed and have the qubit count of the session, and the last
    history entry is the current state. *)
Definition consistentSession (sim : QuantumSimulator.t) : Prop :=
  wellFormedSession sim
  /\ QuantumState.numQubits (QuantumSimulator.currentState sim)
     = QuantumSimulator.numQubits sim
  /\ Forall (fun h => QuantumState.numQubits h = QuantumSimulator.numQubits sim)
       (QuantumSimulator.stateHistory sim)
  /\ last (QuantumSimulator.stateHistory sim) (QuantumSimulator.currentState sim)
     = QuantumSimulator.currentState sim
  /\ QuantumSimulator.stateHistory sim <> [].

(** The per-qubit bits of a basis index, qubit 0 first, as [measureAll]
    lists them. *)
Definition qubitBits (n m : Z) : list Z :=
  map (fun i => QuantumState.qubitValue n i m) (indices n).

(** The check that recombining the bits of every index of every register
    size up to 5 gives the index back. *)
Definition bitsRoundTrip : bool :=
  forallb (fun n =>
             forallb (fun m =>
                        QuantumSimulator.finalStateIndex n (qubitBits n m) =? m)
               (indices (2 ^ n)))
    (indices 6).

(** The four indices [applyTwoQubitGate] reads for the output index [i],
    by the control and target bits of [i]: the index itself, and the indices
    with the control bit, the target bit or both flipped.  Where the target
    bit of [i] is set, the third index (meant for control 1, target 0)
    equals the fourth. *)
Definition statesByBits (n c t i : Z) : list Z :=
  let fc := flipBit n c in
  let ft := flipBit n t in
  if QuantumState.qubitValue n c i =? 0
  then (if QuantumState.qubitValue n t i =? 0
        then [i; ft i; fc i; fc (ft i)]
        else [ft i; i; fc i; fc i])
  else (if QuantumState.qubitValue n t i =? 0
        then [fc i; fc (ft i); i; ft i]
        else [fc (ft i); fc i; i; i]).

Definition sameIndices (l1 l2 : list Z) : bool :=
  (Z.of_nat (length l1) =? 4) && (Z.of_nat (length l2) =? 4)
  && forallb (fun j => nth j l1 0 =? nth j l2 0) [0; 1; 2; 3]%nat.

(** The check, over every register size up to 5, every pair of distinct
    qubits and every basis index, that the [states] array is the one above
    and stays inside the register. *)
Definition statesCheck : bool :=
  forallb (fun n =>
    forallb (fun c =>
      forallb (fun t =>
        (c =? t)
        || forallb (fun i =>
             sameIndices (QuantumOperations.twoQubitStates n c t i)
               (statesByBits n c t i)
             && forallb (fun x => (0 <=? x) && (x <? 2 ^ n))
                  (QuantumOperations.twoQubitStates n c t i))
             (indices (2 ^ n)))
        (indices n))
      (indices n))
    (indices 6).

(** The amplitude the loop of [applyTwoQubitGate] computes for the CNOT
    matrix at index [i], before the constructor normalizes. *)
Definition cnotRaw (s : QuantumState.t) (c t i : Z) : Complex :=
  if QuantumState.qubitValue (QuantumState.numQubits s) c i =? 0
  then amplitudeAt s i
  else if QuantumState.qubitValue (QuantumState.numQubits s) t i =? 0
       then amplitudeAt s (flipBit (QuantumState.numQubits s) t i)
       else amplitudeAt s i.

(** The check, over every register size from 1 to 5 and every basis index,
    that the label of the index has one character per qubit and that the
    character of each qubit is its bit. *)
Definition labelCheck : bool :=
  forallb (fun n =>
    forallb (fun k =>
      let label := QuantumState.padStart n (QuantumState.toString2 k) in
      (Z.of_nat (String.length label) =? n)
      && forallb (fun q =>
           String.eqb (String.substring (Z.to_nat q) 1 label)
             (if (QuantumState.qubitValue n q k =? 0)%Z
              then "0"%string else "1"%string))
           (indices n))
      (indices (2 ^ n)))
    (map Z.succ (indices 5)).

(** The tolerance of the specification, 1e-9. *)
Definition tolerance : R := (/ 10 ^ 9)%R.

(** An amplitude array on which the arithmetic of [normalize] stays inside
    the range of a double: no component larger than 1e100 in size, and a
    squared norm of at least 1e-200. *)
Definition moderate (amps : list Complex) : Prop :=
  Forall (fun a => (Rabs (re a) <= 10 ^ 100 /\ Rabs (im a) <= 10 ^ 100)%R) amps
  /\ (/ 10 ^ 200 <= QuantumState.sumSquares amps)%R.

(** A single-qubit gate whose matrix has orthonormal columns. *)
Definition unitaryGate (g : QuantumGate) : Prop :=
  qubits g = 1
  /\ exists m00 m01 m10 m11,
       matrix g = [[m00; m01]; [m10; m11]] /\ isUnitary2 m00 m01 m10 m11.

(** A sample that no rounding of [prob0] moves to the other side of the
    comparison [random < prob0]. *)
Definition awayFrom (u prob0 : R) : Prop :=
  (u + tolerance <= prob0 \/ prob0 + tolerance <= u)%R.

(** The object [new QuantumState(3, [1, 0, 3, 0, 3, 0, 0, 0])] holds.  The
    constructor computes the norm 4.358898943540674 (the square root of 19)
    and multiplies by its inverse 0.22941573387056174: the amplitudes stored
    are the doubles 0.22941573387056174 = 4132786454289563 / 2^54 and
    0.6882472016116852 = 774897460179293 / 2^50, and the probabilities sum
    to a little less than 1. *)
Definition heldAmplitude1 : R := (IZR 4132786454289563 / 2 ^ 54)%R.
Definition heldAmplitude3 : R := (IZR 774897460179293 / 2 ^ 50)%R.

Definition heldState : QuantumState.t :=
  QuantumState.mk
    [complex heldAmplitude1; complex 0; complex heldAmplitude3; complex 0;
     complex heldAmplitude3; complex 0; complex 0; complex 0] 3.

(** A sample in [0,1): the double 1 - 2^-52 (0.9999999999999998). *)
Definition lastSample : R := (1 - / 2 ^ 52)%R.

(** The values [cumulativeProb] takes in the loop of [measureAll]. *)
Fixpoint partialSums (cumulativeProb : R) (probabilities : list R) : list R :=
  match probabilities with
  | [] => []
  | p :: rest =>
      (cumulativeProb + p)%R :: partialSums (cumulativeProb + p)%R rest
  end.

(** A call that the roundings of the code cannot send down another path than
    the exact arithmetic: a gate of the single-qubit library, a measurement
    of one qubit whose sample is away from [prob0] of the current state, a
    measurement of all qubits whose sample is below 1 by the tolerance and
    away from every cumulative sum, a reset. *)
Definition settledCall (sim : QuantumSimulator.t) (c : QuantumSimulator.Call)
  : Prop :=
  match c with
  | QuantumSimulator.CallApplyGate g _ => In g singleQubitLibrary
  | QuantumSimulator.CallMeasureQubit q u =>
      (0 <= u < 1)%R
      /\ forall prob0 prob1,
           QuantumState.getQubitMeasurementProbabilities
             (QuantumSimulator.currentState sim) q = Ok (prob0, prob1) ->
           awayFrom u prob0
  | QuantumSimulator.CallMeasureAll u =>
      (0 <= u)%R /\ (u + tolerance <= 1)%R
      /\ Forall (awayFrom u)
           (partialSums 0
              (QuantumState.getMeasurementProbabilities
                 (QuantumSimulator.currentState sim)))
  | QuantumSimulator.CallReset => True
  end.

Fixpoint settledRun (sim : QuantumSimulator.t)
  (calls : list QuantumSimulator.Call) : Prop :=
  match calls with
  | [] => True
  | c :: rest =>
      settledCall sim c /\ settledRun (fst (QuantumSimulator.step sim c)) rest
  end.

(* ------------------------------------------------------------------ *)
(** ** Complex numbers and sums *)

Section ComplexFacts.

Local Open Scope R_scope.

Lemma complex_eq (a b : Complex) : re a = re b -> im a = im b -> a = b.
Proof. destruct a, b; simpl; intros -> ->; reflexivity. Qed.

Lemma multiply_one (a : Complex) : multiply a (complex (1 / 1)) = a.
Proof. apply complex_eq; simpl; field. Qed.

Lemma prob_eq (a : Complex) : QuantumState.prob a = re a * re a + im a * im a.
Proof.
  unfold QuantumState.prob, abs. rewrite pow2_sqrt; [reflexivity | nra].
Qed.

Lemma prob_nonneg (a : Complex) : 0 <= QuantumState.prob a.
Proof. rewrite prob_eq; nra. Qed.

Lemma prob_scale (a : Complex) (c : R) :
  QuantumState.prob (multiply a (complex c)) = c * c * QuantumState.prob a.
Proof. rewrite !prob_eq; simpl; ring. Qed.

Lemma prob_zero : QuantumState.prob (complex 0) = 0.
Proof. rewrite prob_eq; simpl; ring. Qed.

Lemma prob_one : QuantumState.prob (complex 1) = 1.
Proof. rewrite prob_eq; simpl; ring. Qed.

Lemma tolerance_bounds : 0 < tolerance <= / 4.
Proof.
  unfold tolerance.
  assert (0 < / 10 ^ 9) by (apply Rinv_0_lt_compat, pow_lt; lra).
  lra.
Qed.

Lemma fold_prob_shift (l : list Complex) (x : R) :
  fold_left (fun sum amp => sum + QuantumState.prob amp) l x
  = x + QuantumState.sumSquares l.
Proof.
  unfold QuantumState.sumSquares. revert x.
  induction l as [|a l IH]; intros x; simpl.
  - ring.
  - rewrite IH, (IH (0 + _)). ring.
Qed.

Lemma sumSquares_cons (a : Complex) (l : list Complex) :
  QuantumState.sumSquares (a :: l)
  = QuantumState.prob a + QuantumState.sumSquares l.
Proof.
  unfold QuantumState.sumSquares at 1. simpl.
  rewrite fold_prob_shift. ring.
Qed.

Lemma sumSquares_nil : QuantumState.sumSquares [] = 0.
Proof. reflexivity. Qed.

Lemma sumSquares_nonneg (l : list Complex) : 0 <= QuantumState.sumSquares l.
Proof.
  induction l as [|a l IH].
  - rewrite sumSquares_nil; lra.
  - rewrite sumSquares_cons. pose proof (prob_nonneg a). lra.
Qed.

Lemma sumSquares_scale (l : list Complex) (c : R) :
  QuantumState.sumSquares (map (fun amp => multiply amp (complex c)) l)
  = c * c * QuantumState.sumSquares l.
Proof.
  induction l as [|a l IH]; simpl.
  - rewrite sumSquares_nil; ring.
  - rewrite !sumSquares_cons, IH, prob_scale. ring.
Qed.

Lemma sumSquares_repeat_zero (k : nat) :
  QuantumState.sumSquares (repeat (complex 0) k) = 0.
Proof.
  induction k as [|k IH]; simpl.
  - reflexivity.
  - rewrite sumSquares_cons, IH, prob_zero. ring.
Qed.

Lemma total_shift (l : list R) (x : R) : fold_left Rplus l x = x + total l.
Proof.
  unfold total. revert x.
  induction l as [|a l IH]; intros x; simpl.
  - ring.
  - rewrite IH, (IH (0 + a)). ring.
Qed.

Lemma total_probs (l : list Complex) :
  total (map QuantumState.prob l) = QuantumState.sumSquares l.
Proof.
  induction l as [|a l IH]; simpl.
  - reflexivity.
  - unfold total in *. simpl. rewrite total_shift.
    unfold total. rewrite IH, sumSquares_cons. ring.
Qed.

Lemma normalized_iff (s : QuantumState.t) :
  normalized s <-> QuantumState.sumSquares (QuantumState.amplitudes s) = 1.
Proof.
  unfold normalized, QuantumState.getMeasurementProbabilities.
  rewrite total_probs. tauto.
Qed.

End ComplexFacts.

(* ------------------------------------------------------------------ *)
(** ** normalize and the constructor *)

Section Normalize.

Local Open Scope R_scope.

Lemma length_update (A : Type) (v : A) (l : list A) (i : nat) :
  length (update i v l) = length l.
Proof.
  revert i. induction l as [|x l IH]; intros [|i]; simpl; auto.
Qed.

Lemma normalize_ok (amps amps' : list Complex) :
  QuantumState.normalize amps = Ok amps' ->
  QuantumState.sumSquares amps' = 1 /\ length amps' = length amps.
Proof.
  unfold QuantumState.normalize.
  destruct (Req_dec_T _ 0) as [|Hn]; [discriminate|].
  intros H; injection H as <-. split.
  - rewrite sumSquares_scale.
    pose proof (sumSquares_nonneg amps) as Hs.
    set (S := QuantumState.sumSquares amps) in *.
    pose proof (sqrt_sqrt S Hs) as Hq.
    replace (1 / sqrt S * (1 / sqrt S) * S)
      with (S / (sqrt S * sqrt S)) by (field; exact Hn).
    rewrite Hq. field. intros HS. apply Hn. rewrite HS. apply sqrt_0.
  - apply length_map.
Qed.

Lemma normalize_unit (amps : list Complex) :
  QuantumState.sumSquares amps = 1 -> QuantumState.normalize amps = Ok amps.
Proof.
  intros H. unfold QuantumState.normalize. rewrite H, sqrt_1.
  destruct (Req_dec_T 1 0) as [E|_]; [lra|].
  f_equal. rewrite <- (map_id amps) at 2.
  apply map_ext. intros a. apply multiply_one.
Qed.

Lemma normalize_zero (amps : list Complex) :
  QuantumState.sumSquares amps = 0 ->
  QuantumState.normalize amps = Err ZeroStateError.
Proof.
  intros H. unfold QuantumState.normalize. rewrite H, sqrt_0.
  destruct (Req_dec_T 0 0) as [_|E]; [reflexivity | contradiction].
Qed.

Lemma numStates_nonneg (n : Z) :
  (0 <= n)%Z -> QuantumState.numStates n = Some (2 ^ n)%Z.
Proof.
  intros H. unfold QuantumState.numStates.
  destruct (Z.leb_spec 0 n); [reflexivity|lia].
Qed.

Lemma numStates_fraction (n : Z) :
  (-1075 < n < 0)%Z -> QuantumState.numStates n = None.
Proof.
  intros H. unfold QuantumState.numStates.
  destruct (Z.leb_spec 0 n); [lia|].
  destruct (Z.leb_spec n (-1075)); [lia|reflexivity].
Qed.

Lemma numStates_underflow (n : Z) :
  (n <= -1075)%Z -> QuantumState.numStates n = Some 0%Z.
Proof.
  intros H. unfold QuantumState.numStates.
  destruct (Z.leb_spec 0 n); [lia|].
  destruct (Z.leb_spec n (-1075)); [reflexivity|lia].
Qed.

Lemma pow2_positive (n : Z) : (0 <= n)%Z -> (0 < 2 ^ n)%Z.
Proof. intros H. apply Z.pow_pos_nonneg; lia. Qed.

(** The constructor with an initial array, for a count of 0 or more. *)
Lemma new_some (n : Z) (init : list Complex) :
  (0 <= n)%Z ->
  QuantumState.new n (Some init)
  = (if (5 <? n)%Z then Err InvalidQubitCount
     else if (Z.of_nat (length init) =? 2 ^ n)%Z
          then amps' <- QuantumState.normalize init ;;
               Ok (QuantumState.mk amps' n)
          else Err DimensionMismatch).
Proof.
  intros H. unfold QuantumState.new. rewrite numStates_nonneg by exact H.
  destruct (5 <? n)%Z; [reflexivity|].
  destruct (_ =? _)%Z; reflexivity.
Qed.

(** The constructor without an initial array, for a count of 0 or more. *)
Lemma new_none (n : Z) :
  (0 <= n)%Z ->
  QuantumState.new n None
  = (if (5 <? n)%Z then Err InvalidQubitCount
     else amps' <- QuantumState.normalize
                     (update 0 (complex 1)
                        (repeat (complex 0) (Z.to_nat (2 ^ n)))) ;;
          Ok (QuantumState.mk amps' n)).
Proof.
  intros H. unfold QuantumState.new. rewrite numStates_nonneg by exact H.
  destruct (5 <? n)%Z; [reflexivity|].
  pose proof (pow2_positive n H).
  destruct (Z.eqb_spec (2 ^ n) 0); [lia|reflexivity].
Qed.

(** No array passes the constructor for a negative count: a fraction is no
    length, and the empty array that the underflow admits has norm zero. *)
Lemma new_some_negative (n : Z) (init : list Complex) (s : QuantumState.t) :
  (n < 0)%Z -> QuantumState.new n (Some init) <> Ok s.
Proof.
  intros Hn. unfold QuantumState.new.
  destruct (5 <? n)%Z; [discriminate|].
  destruct (Z_le_gt_dec n (-1075)) as [Hu|Hu].
  - rewrite numStates_underflow by exact Hu.
    destruct (Z.eqb_spec (Z.of_nat (length init)) 0) as [E|E];
      cbn [bind]; [|discriminate].
    destruct init as [|a init]; [|simpl in E; lia].
    rewrite normalize_zero by apply sumSquares_nil. discriminate.
  - rewrite numStates_fraction by lia. discriminate.
Qed.

Lemma new_wellFormed (n : Z) (init : list Complex) (s : QuantumState.t) :
  QuantumState.new n (Some init) = Ok s ->
  wellFormed s /\ QuantumState.numQubits s = n.
Proof.
  intros H.
  destruct (Z_lt_le_dec n 0) as [Hneg|H0].
  { exfalso. exact (new_some_negative n init s Hneg H). }
  rewrite new_some in H by exact H0.
  destruct (5 <? n)%Z eqn:H5; [discriminate|].
  apply Z.ltb_ge in H5.
  destruct (Z.of_nat (length init) =? 2 ^ n)%Z eqn:Hl; [|discriminate].
  apply Z.eqb_eq in Hl.
  destruct (QuantumState.normalize init) as [amps'|] eqn:Hn;
    cbn [bind] in H; [|discriminate].
  injection H as <-.
  apply normalize_ok in Hn as [Hs Hlen].
  split; [|reflexivity].
  unfold wellFormed; simpl. split; [lia|]. split.
  - rewrite Hlen; exact Hl.
  - apply normalized_iff; exact Hs.
Qed.

Lemma clone_wellFormed (s : QuantumState.t) :
  wellFormed s -> QuantumState.clone s = Ok s.
Proof.
  intros (Hn & Hl & Hs). unfold QuantumState.clone.
  rewrite new_some by lia.
  destruct (5 <? QuantumState.numQubits s)%Z eqn:H5;
    [apply Z.ltb_lt in H5; lia|].
  rewrite Hl, Z.eqb_refl.
  apply normalized_iff in Hs. rewrite (normalize_unit _ Hs). simpl.
  destruct s; reflexivity.
Qed.

End Normalize.

(* ------------------------------------------------------------------ *)
(** ** Every path of the gate engine ends in the constructor *)

Ltac bind_ok H :=
  match type of H with
  | bind ?m _ = Ok _ =>
      let x := fresh "x" in
      let E := fresh "E" in
      destruct m as [x|] eqn:E; cbn [bind] in H; [|discriminate H]
  end.

Section GateEngine.

Lemma applySingleQubitGate_wellFormed (s s' : QuantumState.t) (g : QuantumGate)
  (q : Z) :
  QuantumOperations.applySingleQubitGate s g q = Ok s' ->
  wellFormed s' /\ QuantumState.numQubits s' = QuantumState.numQubits s.
Proof.
  unfold QuantumOperations.applySingleQubitGate.
  destruct (negb (qubits g =? 1)); [discriminate|].
  destruct (_ || _); [discriminate|].
  intros H. bind_ok H. apply new_wellFormed in H. exact H.
Qed.

Lemma applyTwoQubitGate_wellFormed (s s' : QuantumState.t) (g : QuantumGate)
  (c q : Z) :
  QuantumOperations.applyTwoQubitGate s g c q = Ok s' ->
  wellFormed s' /\ QuantumState.numQubits s' = QuantumState.numQubits s.
Proof.
  unfold QuantumOperations.applyTwoQubitGate.
  destruct (negb (qubits g =? 2)); [discriminate|].
  destruct (_ || _); [discriminate|].
  destruct (c =? q); [discriminate|].
  intros H. bind_ok H. apply new_wellFormed in H. exact H.
Qed.

Lemma applyGate_wellFormed (s s' : QuantumState.t) (g : QuantumGate)
  (ts : list Z) :
  QuantumOperations.applyGate s g ts = Ok s' ->
  wellFormed s' /\ QuantumState.numQubits s' = QuantumState.numQubits s.
Proof.
  unfold QuantumOperations.applyGate.
  destruct (negb _); [discriminate|].
  destruct (qubits g =? 1).
  - apply applySingleQubitGate_wellFormed.
  - destruct (qubits g =? 2); [|discriminate].
    apply applyTwoQubitGate_wellFormed.
Qed.

Lemma applyGates_wellFormed (gs : list (QuantumGate * list Z)) :
  forall s tr, applyGates s gs = Ok tr -> Forall wellFormed tr.
Proof.
  induction gs as [|[g ts] gs IH]; intros s tr H; simpl in H.
  - injection H as <-. constructor.
  - bind_ok H. bind_ok H. injection H as <-.
    constructor.
    + apply applyGate_wellFormed in E as [Hw _]. exact Hw.
    + eapply IH; eassumption.
Qed.

Lemma setAmplitude_normalized (s s' : QuantumState.t) (i : Z) (a : Complex) :
  QuantumState.setAmplitude s i a = (s', None) -> normalized s'.
Proof.
  unfold QuantumState.setAmplitude.
  destruct (negb _); [discriminate|].
  destruct (QuantumState.normalize _) as [amps'|] eqn:E; [|discriminate].
  intros H; injection H as <-.
  apply normalized_iff. simpl. apply normalize_ok in E. tauto.
Qed.

Lemma sumSquares_basis (k i : nat) :
  (i < k)%nat ->
  QuantumState.sumSquares (update i (complex 1) (repeat (complex 0) k)) = 1%R.
Proof.
  revert i. induction k as [|k IH]; intros i Hi; [lia|].
  destruct i as [|i]; simpl.
  - rewrite sumSquares_cons, sumSquares_repeat_zero, prob_one. ring.
  - rewrite sumSquares_cons, IH, prob_zero by lia. ring.
Qed.

Lemma new_basis (n k : Z) :
  0 <= n <= 5 -> 0 <= k < 2 ^ n ->
  QuantumState.new n (Some (basisAmplitudes n k))
  = Ok (QuantumState.mk (basisAmplitudes n k) n).
Proof.
  intros Hn Hk. rewrite new_some by lia. unfold basisAmplitudes.
  destruct (5 <? n) eqn:H5; [apply Z.ltb_lt in H5; lia|].
  rewrite length_update, repeat_length, Z2Nat.id, Z.eqb_refl by lia.
  rewrite normalize_unit; [reflexivity|].
  apply sumSquares_basis. lia.
Qed.

Lemma new_default (n : Z) :
  0 <= n <= 5 ->
  QuantumState.new n None = Ok (QuantumState.mk (basisAmplitudes n 0) n).
Proof.
  intros Hn. rewrite new_none by lia. unfold basisAmplitudes.
  destruct (5 <? n) eqn:H5; [apply Z.ltb_lt in H5; lia|].
  change (Z.to_nat 0) with 0%nat.
  rewrite normalize_unit; [reflexivity|].
  apply sumSquares_basis.
  assert (0 < 2 ^ n) by (apply Z.pow_pos_nonneg; lia). lia.
Qed.

Lemma new_zero_vector (m : Z) :
  0 <= m <= 5 ->
  QuantumState.new m (Some (repeat (complex 0) (Z.to_nat (2 ^ m))))
  = Err ZeroStateError.
Proof.
  intros Hm. rewrite new_some by lia.
  destruct (5 <? m) eqn:H5; [apply Z.ltb_lt in H5; lia|].
  rewrite repeat_length, Z2Nat.id, Z.eqb_refl by lia.
  rewrite normalize_zero; [reflexivity | apply sumSquares_repeat_zero].
Qed.

End GateEngine.

(* ------------------------------------------------------------------ *)
(** ** Concrete runs of the gate engine *)

(** Evaluate the integer and list parts of a run, leaving the real-number
    arithmetic and the constructor in place. *)
Ltac jsred :=
  cbv -[Rplus Rmult Rminus Ropp Rinv Rdiv IZR sqrt pow Req_dec_T Rlt_dec
        Rle_dec QuantumState.new QuantumState.normalize].

Ltac jsred_in H :=
  cbv -[Rplus Rmult Rminus Ropp Rinv Rdiv IZR sqrt pow Req_dec_T Rlt_dec
        Rle_dec QuantumState.new QuantumState.normalize] in H.

Ltac amp_eq := apply complex_eq; cbn [re im]; unfold Rdiv; ring.

Ltac amps_eq :=
  apply f_equal;
  repeat (apply f_equal2; [amp_eq|]);
  reflexivity.

Section Scenarios.

Import QuantumOperations Gates.

Local Open Scope R_scope.

Lemma guards_two_qubit (s : QuantumState.t) (g : QuantumGate) (c q : Z)
  (amps : list Complex) :
  qubits g = 2%Z -> QuantumState.numQubits s = 2%Z -> c = 0%Z -> q = 1%Z ->
  mapM (twoQubitAmplitude s g 2 c q) (indices 4) = Ok amps ->
  applyTwoQubitGate s g c q = QuantumState.new 2 (Some amps).
Proof.
  intros Hg Hs -> -> Hm. unfold applyTwoQubitGate, QuantumState.getNumQubits.
  rewrite Hg, Hs. change (2 ^ 2)%Z with 4%Z. cbn -[mapM indices QuantumState.new].
  rewrite Hm. reflexivity.
Qed.

(** The amplitude arrays the loop of [applyTwoQubitGate] builds for CNOT with
    control 0 and target 1 on [|00>] and on [|10>]. *)
Lemma cnot_loop_00 :
  mapM (twoQubitAmplitude (ket 2 0) CNOTGate 2 0 1) (indices 4)
  = Ok (basisAmplitudes 2 0).
Proof. jsred. amps_eq. Qed.

Lemma cnot_loop_10 :
  mapM (twoQubitAmplitude (ket 2 2) CNOTGate 2 0 1) (indices 4)
  = Ok (repeat (complex 0) 4).
Proof. jsred. amps_eq. Qed.

(** C2.  On [|00>] the CNOT gate with control 0 and target 1 returns [|00>].
    On [|10>] it does not return [|11>]: the [states] entry for [|10>] is
    [i | ((1 << c) & ~(1 << t))], which keeps a target bit that is set, so
    the output index 3 reads the amplitude of index 3 instead of index 2;
    every new amplitude is zero and the constructor throws. *)
Theorem cnot_on_basis_states :
  QuantumState.new 2 None = Ok (ket 2 0)
  /\ QuantumState.new 2 (Some [complex 0; complex 0; complex 1; complex 0])
     = Ok (ket 2 2)
  /\ applyTwoQubitGate (ket 2 0) CNOTGate 0 1 = Ok (ket 2 0)
  /\ applyTwoQubitGate (ket 2 2) CNOTGate 0 1 = Err ZeroStateError
  /\ twoQubitStates 2 0 1 3 = [0; 1; 3; 3]%Z.
Proof.
  split; [apply new_default; lia|].
  split; [apply (new_basis 2 2); lia|].
  split.
  { rewrite (guards_two_qubit (ket 2 0) CNOTGate 0 1 _
               eq_refl eq_refl eq_refl eq_refl cnot_loop_00).
    apply (new_basis 2 0); lia. }
  split; [|reflexivity].
  rewrite (guards_two_qubit (ket 2 2) CNOTGate 0 1 _
             eq_refl eq_refl eq_refl eq_refl cnot_loop_10).
  apply (new_zero_vector 2); lia.
Qed.

Lemma guards_single_qubit (s : QuantumState.t) (g : QuantumGate) (q n : Z)
  (amps : list Complex) :
  qubits g = 1%Z -> QuantumState.numQubits s = n -> (0 <= q < n)%Z ->
  mapM (singleQubitAmplitude s g n q) (indices (2 ^ n)) = Ok amps ->
  applySingleQubitGate s g q = QuantumState.new n (Some amps).
Proof.
  intros Hg Hs Hq Hm. unfold applySingleQubitGate, QuantumState.getNumQubits.
  rewrite Hg, Hs. cbn [Z.eqb Pos.eqb negb].
  destruct (q <? 0)%Z eqn:E1; [apply Z.ltb_lt in E1; lia|].
  destruct (q >=? n)%Z eqn:E2; [apply Z.geb_le in E2; lia|].
  cbn [orb]. rewrite Hm. reflexivity.
Qed.

Lemma inv_sqrt2_sq : 1 / sqrt 2 * (1 / sqrt 2) = 1 / 2.
Proof.
  assert (H : sqrt 2 * sqrt 2 = 2) by (apply sqrt_sqrt; lra).
  assert (Hp : 0 < sqrt 2) by (apply sqrt_lt_R0; lra).
  field_simplify; [|lra]. replace (sqrt 2 ^ 2) with (sqrt 2 * sqrt 2) by ring.
  rewrite H. reflexivity.
Qed.

Lemma hadamard_loop_00 :
  mapM (singleQubitAmplitude (ket 2 0) HadamardGate 2 0) (indices (2 ^ 2))
  = Ok (QuantumState.amplitudes plus0).
Proof. jsred. amps_eq. Qed.

Lemma hadamard_on_00 :
  applySingleQubitGate (ket 2 0) HadamardGate 0 = Ok plus0.
Proof.
  rewrite (guards_single_qubit (ket 2 0) HadamardGate 0 2 _
             eq_refl eq_refl ltac:(lia) hadamard_loop_00).
  apply (clone_wellFormed plus0). unfold wellFormed, plus0; cbn [QuantumState.numQubits
    QuantumState.amplitudes length]. split; [lia|]. split; [reflexivity|].
  apply normalized_iff. cbn [QuantumState.amplitudes].
  rewrite !sumSquares_cons, sumSquares_nil, !prob_eq. unfold SQRT2. cbn [re im complex].
  pose proof inv_sqrt2_sq. lra.
Qed.

Lemma cnot_loop_plus0 :
  mapM (twoQubitAmplitude plus0 CNOTGate 2 0 1) (indices 4)
  = Ok [complex (1 / SQRT2); complex 0; complex 0; complex 0].
Proof. jsred. amps_eq. Qed.

(** C1.  The Bell-state run on the code: Hadamard on qubit 0 of [|00>] gives
    (|00> + |10>)/sqrt 2, and CNOT with control 0 and target 1 then loses the
    [|10>] amplitude instead of moving it to [|11>]; after the constructor
    renormalizes, the probabilities are 1 for [|00>] and 0 for the other
    three basis states, not 1/2, 0, 0, 1/2. *)
Theorem bell_state_run :
  exists s2 : QuantumState.t,
    QuantumState.new 2 None = Ok (ket 2 0)
    /\ applySingleQubitGate (ket 2 0) HadamardGate 0 = Ok plus0
    /\ applyTwoQubitGate plus0 CNOTGate 0 1 = Ok s2
    /\ QuantumState.getMeasurementProbabilities s2 = [1; 0; 0; 0].
Proof.
  assert (Hnew : exists s2,
             QuantumState.new 2
               (Some [complex (1 / SQRT2); complex 0; complex 0; complex 0])
             = Ok s2
             /\ QuantumState.getMeasurementProbabilities s2 = [1; 0; 0; 0]).
  { rewrite new_some by lia. cbn [Z.ltb Z.leb Z.compare Pos.compare
      Pos.compare_cont andb length Z.of_nat Pos.of_succ_nat Pos.succ Z.pow
      Z.pow_pos Pos.iter Z.mul Pos.mul Z.eqb Pos.eqb bind].
    destruct (QuantumState.normalize _) as [amps'|e] eqn:E.
    - exists (QuantumState.mk amps' 2). split; [reflexivity|].
      pose proof (normalize_ok _ _ E) as [Hs _].
      unfold QuantumState.normalize in E.
      destruct (Req_dec_T _ 0); [discriminate|]. injection E as <-.
      unfold QuantumState.getMeasurementProbabilities.
      cbn [QuantumState.amplitudes map] in *.
      set (c := 1 / sqrt _) in *.
      rewrite !sumSquares_cons, sumSquares_nil in Hs.
      assert (Hz : QuantumState.prob (multiply (complex 0) (complex c)) = 0).
      { rewrite prob_scale, prob_zero. ring. }
      rewrite Hz in *.
      assert (Hx : QuantumState.prob
                     (multiply (complex (1 / SQRT2)) (complex c)) = 1) by lra.
      rewrite Hx. reflexivity.
    - exfalso. unfold QuantumState.normalize in E.
      destruct (Req_dec_T _ 0) as [Hz|]; [|discriminate].
      apply sqrt_eq_0 in Hz; [|apply sumSquares_nonneg].
      rewrite !sumSquares_cons, sumSquares_nil, !prob_eq in Hz.
      unfold SQRT2 in Hz. cbn [re im complex] in Hz.
      pose proof inv_sqrt2_sq. lra. }
  destruct Hnew as (s2 & Hs2 & Hp). exists s2.
  split; [apply new_default; lia|].
  split; [exact hadamard_on_00|].
  split; [|exact Hp].
  rewrite (guards_two_qubit plus0 CNOTGate 0 1 _
             eq_refl eq_refl eq_refl eq_refl cnot_loop_plus0).
  exact Hs2.
Qed.

End Scenarios.

(** A [setAmplitude] that throws has stored the amplitude already: zeroing
    the only non-zero amplitude of [|0>] throws the zero-state error and
    leaves the object with the zero vector. *)
Lemma setAmplitude_throw_keeps_store :
  QuantumState.setAmplitude (ket 1 0) 0 (complex 0)
  = (QuantumState.mk [complex 0; complex 0] 1, Some ZeroStateError).
Proof.
  unfold QuantumState.setAmplitude.
  change (negb (QuantumState.inRange (ket 1 0) 0)) with false.
  change (update (Z.to_nat 0) (complex 0) (QuantumState.amplitudes (ket 1 0)))
    with (repeat (complex 0) 2).
  rewrite normalize_zero by apply sumSquares_repeat_zero. reflexivity.
Qed.

(* ------------------------------------------------------------------ *)
(** ** C5: the bounds on the qubit count *)

Lemma state_new_rejects_above_five (n : Z) (init : option (list Complex)) :
  5 < n -> QuantumState.new n init = Err InvalidQubitCount.
Proof.
  intros H. unfold QuantumState.new.
  replace (5 <? n) with true by (symmetry; apply Z.ltb_lt; exact H).
  reflexivity.
Qed.

Lemma simulator_new_rejects (n : Z) :
  n < 1 \/ 5 < n -> QuantumSimulator.new n = Err InvalidQubitCount.
Proof.
  intros H. unfold QuantumSimulator.new.
  replace ((n <? 1) || (5 <? n)) with true; [reflexivity|].
  symmetry. apply orb_true_iff. rewrite !Z.ltb_lt. exact H.
Qed.

Lemma state_new_accepts_zero_to_five (n : Z) :
  0 <= n <= 5 -> exists s, QuantumState.new n None = Ok s.
Proof. intros H. eexists. apply new_default; exact H. Qed.

(** C5.  The constructor of [QuantumState] rejects a count of 6, and the
    constructor of the simulator rejects 0 and 6, but the constructor of
    [QuantumState] accepts a count of 0: its only guard is [numQubits > 5],
    and it returns the one-amplitude state. *)
Theorem state_constructor_qubit_count :
  QuantumState.new 0 None = Ok (QuantumState.mk [complex 1] 0)
  /\ QuantumState.new 0 (Some [complex 1]) = Ok (QuantumState.mk [complex 1] 0)
  /\ QuantumState.new 6 None = Err InvalidQubitCount
  /\ QuantumState.new (-1) None = Err RangeError
  /\ QuantumSimulator.new 0 = Err InvalidQubitCount
  /\ QuantumSimulator.new 6 = Err InvalidQubitCount.
Proof.
  split; [apply (new_default 0); lia|].
  split; [apply (new_basis 0 0); lia|].
  repeat split; reflexivity.
Qed.

(* ------------------------------------------------------------------ *)
(** ** C9: Pauli-X and Hadamard are their own inverses *)

Section Involutions.

Import QuantumOperations Gates.

Local Open Scope R_scope.

Lemma single_qubit_shape (s : QuantumState.t) :
  wellFormed s -> QuantumState.numQubits s = 1%Z ->
  exists a0 a1, s = QuantumState.mk [a0; a1] 1
                /\ QuantumState.prob a0 + QuantumState.prob a1 = 1.
Proof.
  intros (_ & Hl & Hn) H1. destruct s as [amps n]. simpl in *. subst n.
  destruct amps as [|a0 [|a1 [|a2 amps]]]; simpl in Hl; try lia.
  exists a0, a1. split; [reflexivity|].
  apply normalized_iff in Hn. simpl in Hn.
  rewrite !sumSquares_cons, sumSquares_nil in Hn. lra.
Qed.

Lemma single_qubit_wellFormed (a0 a1 : Complex) :
  QuantumState.prob a0 + QuantumState.prob a1 = 1 ->
  wellFormed (QuantumState.mk [a0; a1] 1).
Proof.
  intros H. unfold wellFormed. simpl. split; [lia|]. split; [reflexivity|].
  apply normalized_iff. simpl.
  rewrite !sumSquares_cons, sumSquares_nil. lra.
Qed.

Lemma pauliX_loop (a0 a1 : Complex) :
  mapM (singleQubitAmplitude (QuantumState.mk [a0; a1] 1) PauliXGate 1 0)
    (indices (2 ^ 1))
  = Ok [a1; a0].
Proof. destruct a0, a1. jsred. amps_eq. Qed.

Lemma pauliX_step (a0 a1 : Complex) :
  QuantumState.prob a0 + QuantumState.prob a1 = 1 ->
  applySingleQubitGate (QuantumState.mk [a0; a1] 1) PauliXGate 0
  = Ok (QuantumState.mk [a1; a0] 1).
Proof.
  intros H.
  rewrite (guards_single_qubit (QuantumState.mk [a0; a1] 1) PauliXGate 0 1 _
             eq_refl eq_refl ltac:(lia) (pauliX_loop a0 a1)).
  apply (clone_wellFormed (QuantumState.mk [a1; a0] 1)).
  apply single_qubit_wellFormed. lra.
Qed.

Lemma hadamard_loop (a0 a1 : Complex) :
  mapM (singleQubitAmplitude (QuantumState.mk [a0; a1] 1) HadamardGate 1 0)
    (indices (2 ^ 1))
  = Ok [mkComplex (1 / sqrt 2 * (re a0 + re a1)) (1 / sqrt 2 * (im a0 + im a1));
        mkComplex (1 / sqrt 2 * (re a0 - re a1)) (1 / sqrt 2 * (im a0 - im a1))].
Proof. destruct a0, a1. jsred. amps_eq. Qed.

Lemma hadamard_step (a0 a1 : Complex) :
  QuantumState.prob a0 + QuantumState.prob a1 = 1 ->
  applySingleQubitGate (QuantumState.mk [a0; a1] 1) HadamardGate 0
  = Ok (QuantumState.mk
          [mkComplex (1 / sqrt 2 * (re a0 + re a1))
             (1 / sqrt 2 * (im a0 + im a1));
           mkComplex (1 / sqrt 2 * (re a0 - re a1))
             (1 / sqrt 2 * (im a0 - im a1))] 1)
    /\ QuantumState.prob
         (mkComplex (1 / sqrt 2 * (re a0 + re a1))
            (1 / sqrt 2 * (im a0 + im a1)))
       + QuantumState.prob
           (mkComplex (1 / sqrt 2 * (re a0 - re a1))
              (1 / sqrt 2 * (im a0 - im a1))) = 1.
Proof.
  intros H.
  assert (Hp : QuantumState.prob
         (mkComplex (1 / sqrt 2 * (re a0 + re a1))
            (1 / sqrt 2 * (im a0 + im a1)))
       + QuantumState.prob
           (mkComplex (1 / sqrt 2 * (re a0 - re a1))
              (1 / sqrt 2 * (im a0 - im a1))) = 1).
  { rewrite !prob_eq in *. cbn [re im].
    pose proof inv_sqrt2_sq as Hw. set (w := 1 / sqrt 2) in *.
    transitivity (w * w * (2 * (re a0 * re a0 + im a0 * im a0
                                + (re a1 * re a1 + im a1 * im a1))));
      [ring|]. rewrite Hw, H. field. }
  split; [|exact Hp].
  rewrite (guards_single_qubit (QuantumState.mk [a0; a1] 1) HadamardGate 0 1 _
             eq_refl eq_refl ltac:(lia) (hadamard_loop a0 a1)).
  apply (clone_wellFormed (QuantumState.mk [_; _] 1)).
  apply single_qubit_wellFormed. exact Hp.
Qed.

(** C9.  On a single-qubit state, applying Pauli-X twice returns the state
    with its original amplitudes, and so does applying Hadamard twice. *)
Theorem single_qubit_gates_involutive (s : QuantumState.t) :
  wellFormed s -> QuantumState.numQubits s = 1%Z ->
  (exists s1, applySingleQubitGate s PauliXGate 0 = Ok s1
              /\ applySingleQubitGate s1 PauliXGate 0 = Ok s)
  /\ (exists s1, applySingleQubitGate s HadamardGate 0 = Ok s1
                 /\ applySingleQubitGate s1 HadamardGate 0 = Ok s).
Proof.
  intros Hw H1.
  destruct (single_qubit_shape s Hw H1) as (a0 & a1 & -> & Hp).
  split.
  - exists (QuantumState.mk [a1; a0] 1). split.
    + apply pauliX_step. exact Hp.
    + apply pauliX_step. lra.
  - destruct (hadamard_step a0 a1 Hp) as [Hs Hp'].
    eexists. split; [exact Hs|].
    destruct (hadamard_step _ _ Hp') as [Hs' _].
    rewrite Hs'. cbn [re im]. f_equal. f_equal.
    pose proof inv_sqrt2_sq as Hq. set (w := 1 / sqrt 2) in *.
    destruct a0 as [x0 y0], a1 as [x1 y1]. cbn [re im].
    f_equal; [|f_equal]; apply complex_eq; cbn [re im].
    + transitivity (w * w * (2 * x0)); [ring | rewrite Hq; field].
    + transitivity (w * w * (2 * y0)); [ring | rewrite Hq; field].
    + transitivity (w * w * (2 * x1)); [ring | rewrite Hq; field].
    + transitivity (w * w * (2 * y1)); [ring | rewrite Hq; field].
Qed.

Lemma ket_wellFormed (n k : Z) :
  (0 <= n <= 5)%Z -> (0 <= k < 2 ^ n)%Z -> wellFormed (ket n k).
Proof.
  intros Hn Hk. apply (new_wellFormed n (basisAmplitudes n k)).
  apply new_basis; assumption.
Qed.

Lemma single_qubit_gates_involutive_witness :
  (exists s1, applySingleQubitGate (ket 1 0) PauliXGate 0 = Ok s1
              /\ applySingleQubitGate s1 PauliXGate 0 = Ok (ket 1 0))
  /\ (exists s1, applySingleQubitGate (ket 1 0) HadamardGate 0 = Ok s1
                 /\ applySingleQubitGate s1 HadamardGate 0 = Ok (ket 1 0)).
Proof.
  apply (single_qubit_gates_involutive (ket 1 0)).
  - apply ket_wellFormed; lia.
  - reflexivity.
Defined.

End Involutions.

(* ------------------------------------------------------------------ *)
(** ** C6: fidelity *)

Section Fidelity.

Import QuantumOperations.

Local Open Scope R_scope.

(** The loop of [innerProduct], started at index [length p1] with the
    accumulator [acc]. *)
Lemma innerProduct_from (l1 l2 p1 p2 : list Complex) (acc : Complex) :
  length l1 = length l2 -> length p1 = length p2 ->
  foldM (fun acc i =>
           match nth_error (p1 ++ l1) i, nth_error (p2 ++ l2) i with
           | Some a1, Some a2 =>
               Ok (add acc (multiply (complex2 (re a1) (- im a1)) a2))
           | _, _ => Err TypeError
           end)
    (seq (length p1) (length l1)) acc
  = Ok (mkComplex (re acc + dotRe l1 l2) (im acc + dotIm l1 l2)).
Proof.
  revert l2 p1 p2 acc.
  induction l1 as [|a l1 IH]; intros [|b l2] p1 p2 acc Hl Hp;
    try discriminate Hl.
  - simpl. f_equal. apply complex_eq; simpl; ring.
  - cbn [length seq foldM].
    rewrite !nth_error_app2 by lia.
    rewrite <- Hp, Nat.sub_diag.
    cbn [nth_error bind].
    specialize (IH l2 (p1 ++ [a]) (p2 ++ [b])
                  (add acc (multiply (complex2 (re a) (- im a)) b))).
    rewrite <- !app_assoc in IH. cbn [app] in IH.
    rewrite length_app in IH. cbn [length] in IH.
    replace (length p1 + 1)%nat with (S (length p1)) in IH by lia.
    rewrite IH.
    + f_equal. apply complex_eq; cbn [re im add multiply complex2 dotRe dotIm];
        ring.
    + simpl in Hl. lia.
    + rewrite !length_app. simpl. lia.
Qed.

Lemma innerProduct_dot (l1 l2 : list Complex) :
  length l1 = length l2 ->
  innerProduct l1 l2 = Ok (mkComplex (dotRe l1 l2) (dotIm l1 l2)).
Proof.
  intros Hl. unfold innerProduct.
  pose proof (innerProduct_from l1 l2 [] [] (complex 0) Hl eq_refl) as H.
  cbn [app length] in H. rewrite H.
  f_equal. apply complex_eq; simpl; ring.
Qed.

Lemma dot_self (l : list Complex) :
  dotRe l l = QuantumState.sumSquares l /\ dotIm l l = 0.
Proof.
  induction l as [|a l [IHr IHi]]; simpl.
  - split; reflexivity.
  - rewrite sumSquares_cons, prob_eq, IHr, IHi. split; ring.
Qed.

(** One step of the Cauchy-Schwarz induction. *)
Lemma cauchy_schwarz_step (sr si A B x1 y1 x2 y2 : R) :
  0 <= A -> 0 <= B -> sr * sr + si * si <= A * B ->
  (x1 * x2 + y1 * y2 + sr) * (x1 * x2 + y1 * y2 + sr)
  + (x1 * y2 - y1 * x2 + si) * (x1 * y2 - y1 * x2 + si)
  <= (x1 * x1 + y1 * y1 + A) * (x2 * x2 + y2 * y2 + B).
Proof.
  intros HA HB HS.
  set (P := x1 * x1 + y1 * y1). set (Q := x2 * x2 + y2 * y2).
  set (pr := x1 * x2 + y1 * y2). set (pi := x1 * y2 - y1 * x2).
  assert (HP : 0 <= P) by (unfold P; nra).
  assert (HQ : 0 <= Q) by (unfold Q; nra).
  assert (Hpq : pr * pr + pi * pi = P * Q) by (unfold pr, pi, P, Q; ring).
  set (L := sr * pr + si * pi).
  set (M := A * Q + B * P).
  assert (HM : 0 <= M) by (unfold M; nra).
  assert (H1 : L * L <= (sr * sr + si * si) * (P * Q)).
  { rewrite <- Hpq. unfold L.
    pose proof (Rle_0_sqr (sr * pi - si * pr)) as Hsq. unfold Rsqr in Hsq.
    assert (E : (sr * sr + si * si) * (pr * pr + pi * pi)
                - (sr * pr + si * pi) * (sr * pr + si * pi)
                = (sr * pi - si * pr) * (sr * pi - si * pr)) by ring.
    lra. }
  assert (H2 : (sr * sr + si * si) * (P * Q) <= A * B * (P * Q)).
  { apply Rmult_le_compat_r; [nra | exact HS]. }
  assert (H3 : 4 * (A * B * (P * Q)) <= M * M).
  { unfold M.
    pose proof (Rle_0_sqr (A * Q - B * P)) as Hsq. unfold Rsqr in Hsq.
    assert (E : (A * Q + B * P) * (A * Q + B * P) - 4 * (A * B * (P * Q))
                = (A * Q - B * P) * (A * Q - B * P)) by ring.
    lra. }
  assert (H4 : 2 * L <= M).
  { destruct (Rle_lt_dec (2 * L) M) as [|Hgt]; [assumption|].
    exfalso. assert (M * M < 2 * L * (2 * L)) by nra. nra. }
  replace ((pr + sr) * (pr + sr) + (pi + si) * (pi + si))
    with (sr * sr + si * si + 2 * L + (pr * pr + pi * pi))
    by (unfold L; ring).
  rewrite Hpq.
  replace ((P + A) * (Q + B)) with (A * B + M + P * Q) by (unfold M; ring).
  lra.
Qed.

Lemma cauchy_schwarz (l1 l2 : list Complex) :
  dotRe l1 l2 * dotRe l1 l2 + dotIm l1 l2 * dotIm l1 l2
  <= QuantumState.sumSquares l1 * QuantumState.sumSquares l2.
Proof.
  revert l2. induction l1 as [|a l1 IH]; intros l2.
  - simpl. rewrite sumSquares_nil. lra.
  - destruct l2 as [|b l2].
    + simpl. rewrite sumSquares_nil. lra.
    + cbn [dotRe dotIm]. rewrite !sumSquares_cons, !prob_eq.
      apply cauchy_schwarz_step; try apply sumSquares_nonneg. apply IH.
Qed.

Lemma wellFormed_lengths (s1 s2 : QuantumState.t) :
  wellFormed s1 -> wellFormed s2 ->
  QuantumState.numQubits s1 = QuantumState.numQubits s2 ->
  length (QuantumState.amplitudes s1) = length (QuantumState.amplitudes s2).
Proof.
  intros (_ & H1 & _) (_ & H2 & _) E. rewrite E in H1. lia.
Qed.

(** What [calculateFidelity] returns on two states of equal qubit count:
    the square of the real part of the inner product when its imaginary
    part is zero, and NaN otherwise. *)
Lemma calculateFidelity_value (s1 s2 : QuantumState.t) :
  wellFormed s1 -> wellFormed s2 ->
  QuantumState.numQubits s1 = QuantumState.numQubits s2 ->
  calculateFidelity s1 s2
  = Ok (if Req_dec_T (dotIm (QuantumState.amplitudes s1)
                        (QuantumState.amplitudes s2)) 0
        then Num (dotRe (QuantumState.amplitudes s1)
                    (QuantumState.amplitudes s2) ^ 2)
        else NaN).
Proof.
  intros H1 H2 E. unfold calculateFidelity, QuantumState.getNumQubits,
    QuantumState.getAmplitudes.
  rewrite E, Z.eqb_refl. cbn [negb].
  rewrite innerProduct_dot by (apply wellFormed_lengths; assumption).
  cbn [bind]. f_equal. unfold Math_abs_object, valueOf. cbn [re im].
  destruct (Req_dec_T _ 0); cbn [Math_pow2]; [|reflexivity].
  f_equal. apply pow2_abs.
Qed.

Lemma fidelitySpec_value (s1 s2 : QuantumState.t) :
  wellFormed s1 -> wellFormed s2 ->
  QuantumState.numQubits s1 = QuantumState.numQubits s2 ->
  fidelitySpec s1 s2
  = Ok (dotRe (QuantumState.amplitudes s1) (QuantumState.amplitudes s2) ^ 2
        + dotIm (QuantumState.amplitudes s1) (QuantumState.amplitudes s2) ^ 2).
Proof.
  intros H1 H2 E. unfold fidelitySpec, QuantumState.getNumQubits,
    QuantumState.getAmplitudes.
  rewrite E, Z.eqb_refl. cbn [negb].
  rewrite innerProduct_dot by (apply wellFormed_lengths; assumption).
  cbn [bind]. f_equal. unfold abs. cbn [re im].
  rewrite pow2_sqrt by nra. ring.
Qed.

Lemma calculateFidelity_mismatch (s1 s2 : QuantumState.t) :
  QuantumState.numQubits s1 <> QuantumState.numQubits s2 ->
  calculateFidelity s1 s2 = Err QubitCountMismatch.
Proof.
  intros E. unfold calculateFidelity, QuantumState.getNumQubits.
  apply Z.eqb_neq in E. rewrite E. reflexivity.
Qed.

(** Where the inner product is real the code returns the value of the
    specification, a number between 0 and 1. *)
Lemma calculateFidelity_range (s1 s2 : QuantumState.t) :
  wellFormed s1 -> wellFormed s2 ->
  QuantumState.numQubits s1 = QuantumState.numQubits s2 ->
  dotIm (QuantumState.amplitudes s1) (QuantumState.amplitudes s2) = 0 ->
  exists f, calculateFidelity s1 s2 = Ok (Num f)
            /\ fidelitySpec s1 s2 = Ok f /\ 0 <= f <= 1.
Proof.
  intros H1 H2 E Him. rewrite calculateFidelity_value by assumption.
  rewrite fidelitySpec_value by assumption.
  destruct (Req_dec_T _ 0) as [_|C]; [|contradiction].
  eexists. split; [reflexivity|]. rewrite Him. split; [f_equal; ring|].
  pose proof (cauchy_schwarz (QuantumState.amplitudes s1)
                (QuantumState.amplitudes s2)) as Hcs.
  destruct H1 as (_ & _ & N1), H2 as (_ & _ & N2).
  apply normalized_iff in N1, N2. rewrite N1, N2, Him in Hcs.
  nra.
Qed.

(** Where the inner product is not real the code returns NaN. *)
Lemma calculateFidelity_nan (s1 s2 : QuantumState.t) :
  wellFormed s1 -> wellFormed s2 ->
  QuantumState.numQubits s1 = QuantumState.numQubits s2 ->
  dotIm (QuantumState.amplitudes s1) (QuantumState.amplitudes s2) <> 0 ->
  calculateFidelity s1 s2 = Ok NaN.
Proof.
  intros H1 H2 E Him. rewrite calculateFidelity_value by assumption.
  destruct (Req_dec_T _ 0) as [C|_]; [contradiction|reflexivity].
Qed.

Lemma calculateFidelity_self (s : QuantumState.t) :
  wellFormed s -> calculateFidelity s s = Ok (Num 1).
Proof.
  intros H. rewrite calculateFidelity_value by auto.
  destruct (dot_self (QuantumState.amplitudes s)) as [Hr Hi].
  destruct H as (_ & _ & N). apply normalized_iff in N.
  rewrite Hr, Hi, N. destruct (Req_dec_T 0 0) as [_|C]; [|contradiction].
  do 2 f_equal. ring.
Qed.

Lemma plusState_wellFormed : wellFormed plusState.
Proof.
  apply single_qubit_wellFormed. rewrite !prob_eq. cbn [re im complex].
  unfold Gates.SQRT2. pose proof inv_sqrt2_sq. lra.
Qed.

Lemma iket0_wellFormed : wellFormed iket0.
Proof.
  apply single_qubit_wellFormed. rewrite !prob_eq. cbn [re im complex complex2].
  ring.
Qed.

(** C6.  [calculateFidelity] on the code.  The three bounds of the
    specification hold where the inner product is real: a state against
    itself gives 1, [|0>] against [|1>] gives 0, [|0>] against
    (|0> + |1>)/sqrt 2 gives 1/2, and unequal qubit counts are refused.
    Where the inner product has a non-zero imaginary part the builtin
    [Math.abs] reads the Complex object as NaN and the result is NaN:
    [|0>] against [i|0>], the same state up to a global phase, gives NaN
    where the squared modulus of the inner product is 1. *)
Theorem fidelity_on_code :
  QuantumState.new 1 (Some [complex2 0 1; complex 0]) = Ok iket0
  /\ innerProduct (QuantumState.amplitudes (ket 1 0))
       (QuantumState.amplitudes iket0) = Ok (mkComplex 0 1)
  /\ calculateFidelity (ket 1 0) iket0 = Ok NaN
  /\ fidelitySpec (ket 1 0) iket0 = Ok 1
  /\ calculateFidelity (ket 1 0) (ket 1 0) = Ok (Num 1)
  /\ calculateFidelity (ket 1 0) (ket 1 1) = Ok (Num 0)
  /\ calculateFidelity (ket 1 0) plusState = Ok (Num (1 / 2))
  /\ calculateFidelity (ket 1 0) (ket 2 0) = Err QubitCountMismatch.
Proof.
  assert (W0 : wellFormed (ket 1 0)) by (apply ket_wellFormed; lia).
  assert (W1 : wellFormed (ket 1 1)) by (apply ket_wellFormed; lia).
  split; [apply (clone_wellFormed iket0), iket0_wellFormed|].
  split.
  { rewrite innerProduct_dot by reflexivity. f_equal.
    apply complex_eq; jsred; ring. }
  split.
  { apply calculateFidelity_nan; auto using iket0_wellFormed.
    intros E. jsred_in E. lra. }
  split.
  { rewrite fidelitySpec_value by (auto using iket0_wellFormed).
    f_equal. jsred. ring. }
  split; [apply calculateFidelity_self; exact W0|].
  split.
  { rewrite calculateFidelity_value by auto.
    destruct (Req_dec_T _ 0) as [_|E].
    - do 2 f_equal. jsred. ring.
    - exfalso. apply E. jsred. ring. }
  split.
  { rewrite calculateFidelity_value by (auto using plusState_wellFormed).
    destruct (Req_dec_T _ 0) as [_|E].
    - do 2 f_equal. jsred. pose proof inv_sqrt2_sq. lra.
    - exfalso. apply E. jsred. ring. }
  apply calculateFidelity_mismatch. discriminate.
Qed.

End Fidelity.

(* ------------------------------------------------------------------ *)
(** ** C7: measurement of one qubit *)

Section Measurement.

Import QuantumOperations.

Local Open Scope R_scope.

Lemma qubitValue_bit (n q i : Z) :
  QuantumState.qubitValue n q i = 0%Z \/ QuantumState.qubitValue n q i = 1%Z.
Proof.
  unfold QuantumState.qubitValue.
  pose proof (Z.land_ones (Z.shiftr i (n - 1 - q)) 1 ltac:(lia)) as H.
  change (Z.ones 1) with 1%Z in H. change (2 ^ 1)%Z with 2%Z in H.
  rewrite H.
  pose proof (Z.mod_pos_bound (Z.shiftr i (n - 1 - q)) 2). lia.
Qed.

Lemma probStep_fold (n q : Z) (l : list (Z * Complex)) (x0 x1 : R) :
  fold_left (QuantumState.probStep n q) l (x0, x1)
  = (x0 + marginal0 n q l, x1 + marginal1 n q l).
Proof.
  revert x0 x1. induction l as [|[i a] l IH]; intros x0 x1; simpl.
  - f_equal; ring.
  - destruct (QuantumState.qubitValue n q i =? 0)%Z; rewrite IH; f_equal; ring.
Qed.

(** The pair of marginal probabilities of qubit [q], as
    [getQubitMeasurementProbabilities] accumulates them. *)
Lemma qubit_probabilities (s : QuantumState.t) (q : Z) :
  (0 <= q < QuantumState.numQubits s)%Z ->
  QuantumState.getQubitMeasurementProbabilities s q
  = Ok (0 + marginal0 (QuantumState.numQubits s) q
              (QuantumState.indexed (QuantumState.amplitudes s)),
        0 + marginal1 (QuantumState.numQubits s) q
              (QuantumState.indexed (QuantumState.amplitudes s))).
Proof.
  intros Hq. unfold QuantumState.getQubitMeasurementProbabilities.
  destruct (q <? 0)%Z eqn:E0; [apply Z.ltb_lt in E0; lia|].
  destruct (q >=? QuantumState.numQubits s)%Z eqn:E1;
    [apply Z.geb_le in E1; lia|].
  cbn [orb]. rewrite probStep_fold. reflexivity.
Qed.

Lemma marginal_nonneg (n q : Z) (l : list (Z * Complex)) :
  0 <= marginal0 n q l /\ 0 <= marginal1 n q l.
Proof.
  induction l as [|[i a] l [IH0 IH1]]; simpl.
  - split; lra.
  - pose proof (prob_nonneg a).
    destruct (QuantumState.qubitValue n q i =? 0)%Z; split; lra.
Qed.

Lemma marginal_sum (n q : Z) (l : list (Z * Complex)) :
  marginal0 n q l + marginal1 n q l = QuantumState.sumSquares (map snd l).
Proof.
  induction l as [|[i a] l IH]; simpl.
  - rewrite sumSquares_nil. ring.
  - rewrite sumSquares_cons, <- IH.
    destruct (QuantumState.qubitValue n q i =? 0)%Z; ring.
Qed.

Lemma collapse_sum (n q r : Z) (c : R) (l : list (Z * Complex)) :
  r = 0%Z \/ r = 1%Z ->
  QuantumState.sumSquares (map (collapse n q r c) l)
  = c * c * (if (r =? 0)%Z then marginal0 n q l else marginal1 n q l).
Proof.
  intros Hr. induction l as [|[i a] l IH]; simpl.
  - rewrite sumSquares_nil. destruct (r =? 0)%Z; ring.
  - rewrite sumSquares_cons, IH. unfold collapse. cbn [fst snd].
    destruct (qubitValue_bit n q i) as [E|E], Hr as [-> | ->]; rewrite E;
      cbn [Z.eqb Pos.eqb]; rewrite ?prob_scale, ?prob_zero; ring.
Qed.

Lemma indexed_offset_nth (l : list Complex) (k i : nat) :
  nth_error (combine (map Z.of_nat (seq k (length l))) l) i
  = option_map (fun a => (Z.of_nat (k + i), a)) (nth_error l i).
Proof.
  revert k i. induction l as [|a l IH]; intros k i.
  - destruct i; reflexivity.
  - destruct i as [|i]; cbn [length seq map combine nth_error option_map].
    + rewrite Nat.add_0_r. reflexivity.
    + rewrite IH. replace (S k + i)%nat with (k + S i)%nat by lia. reflexivity.
Qed.

Lemma indexed_nth (l : list Complex) (i : nat) :
  nth_error (QuantumState.indexed l) i
  = option_map (fun a => (Z.of_nat i, a)) (nth_error l i).
Proof.
  unfold QuantumState.indexed, indices. rewrite Nat2Z.id.
  apply (indexed_offset_nth l 0 i).
Qed.

Lemma indexed_length (l : list Complex) :
  length (QuantumState.indexed l) = length l.
Proof.
  unfold QuantumState.indexed, indices.
  rewrite length_combine, length_map, length_seq, Nat2Z.id. lia.
Qed.

Lemma indexed_snd (l : list Complex) : map snd (QuantumState.indexed l) = l.
Proof.
  apply nth_error_ext. intros i.
  rewrite nth_error_map, indexed_nth.
  destruct (nth_error l i); reflexivity.
Qed.

Lemma indexed_fst (l : list Complex) :
  map fst (QuantumState.indexed l) = indices (Z.of_nat (length l)).
Proof.
  apply nth_error_ext. intros i.
  rewrite nth_error_map, indexed_nth.
  unfold indices. rewrite Nat2Z.id, nth_error_map.
  destruct (nth_error l i) eqn:E; cbn [option_map].
  - assert (i < length l)%nat by (apply nth_error_Some; congruence).
    rewrite nth_error_seq. destruct (Nat.ltb_spec i (length l)); [|lia].
    reflexivity.
  - apply nth_error_None in E.
    rewrite nth_error_seq. destruct (Nat.ltb_spec i (length l)); [lia|].
    reflexivity.
Qed.

Lemma mapM_pointwise {A B C : Type} (f : A -> Result B) (g : C -> B)
  (h : C -> A) (l : list C) :
  (forall x, In x l -> f (h x) = Ok (g x)) ->
  mapM f (map h l) = Ok (map g l).
Proof.
  induction l as [|x l IH]; intros H; simpl.
  - reflexivity.
  - rewrite H by (left; reflexivity). cbn [bind].
    rewrite IH by (intros y Hy; apply H; right; exact Hy). reflexivity.
Qed.

Lemma getAmplitude_nth (s : QuantumState.t) (i : nat) (a : Complex) :
  nth_error (QuantumState.amplitudes s) i = Some a ->
  QuantumState.getAmplitude s (Z.of_nat i) = Ok a.
Proof.
  intros H. unfold QuantumState.getAmplitude, QuantumState.inRange.
  assert (i < length (QuantumState.amplitudes s))%nat
    by (apply nth_error_Some; congruence).
  replace (0 <=? Z.of_nat i)%Z with true by (symmetry; apply Z.leb_le; lia).
  replace (Z.of_nat i <? Z.of_nat (length (QuantumState.amplitudes s)))%Z
    with true by (symmetry; apply Z.ltb_lt; lia).
  cbn [andb negb]. rewrite Nat2Z.id, H. reflexivity.
Qed.

Lemma measure_loop (s : QuantumState.t) (q r : Z) (c : R) :
  Z.of_nat (length (QuantumState.amplitudes s)) = (2 ^ QuantumState.numQubits s)%Z ->
  mapM (fun i =>
          if (QuantumState.qubitValue (QuantumState.numQubits s) q i =? r)%Z
          then a <- QuantumState.getAmplitude s i ;;
               Ok (multiply a (complex c))
          else Ok (complex 0))
    (indices (2 ^ QuantumState.numQubits s))
  = Ok (map (collapse (QuantumState.numQubits s) q r c)
          (QuantumState.indexed (QuantumState.amplitudes s))).
Proof.
  intros Hl. rewrite <- Hl, <- indexed_fst.
  apply mapM_pointwise. intros [i a] Hin. cbn [fst].
  unfold collapse. cbn [fst snd].
  destruct (_ =? r)%Z; [|reflexivity].
  apply In_nth_error in Hin as [k Hk]. rewrite indexed_nth in Hk.
  destruct (nth_error (QuantumState.amplitudes s) k) as [a'|] eqn:E;
    [|discriminate].
  cbn [option_map] in Hk. injection Hk as <- <-.
  rewrite (getAmplitude_nth s k a' E). reflexivity.
Qed.

Lemma collapsed_wellFormed (s : QuantumState.t) (q r : Z) (c : R) :
  wellFormed s -> r = 0%Z \/ r = 1%Z ->
  c * c * (if (r =? 0)%Z
           then marginal0 (QuantumState.numQubits s) q
                  (QuantumState.indexed (QuantumState.amplitudes s))
           else marginal1 (QuantumState.numQubits s) q
                  (QuantumState.indexed (QuantumState.amplitudes s))) = 1 ->
  wellFormed
    (QuantumState.mk
       (map (collapse (QuantumState.numQubits s) q r c)
          (QuantumState.indexed (QuantumState.amplitudes s)))
       (QuantumState.numQubits s)).
Proof.
  intros (Hn & Hl & _) Hr Hc. unfold wellFormed.
  cbn [QuantumState.numQubits QuantumState.amplitudes].
  split; [exact Hn|]. split.
  - rewrite length_map, indexed_length. exact Hl.
  - apply normalized_iff. cbn [QuantumState.amplitudes].
    rewrite collapse_sum by exact Hr. exact Hc.
Qed.

Lemma getAmplitude_inv (s : QuantumState.t) (i : Z) (a : Complex) :
  QuantumState.getAmplitude s i = Ok a ->
  (0 <= i < Z.of_nat (length (QuantumState.amplitudes s)))%Z
  /\ nth_error (QuantumState.amplitudes s) (Z.to_nat i) = Some a.
Proof.
  unfold QuantumState.getAmplitude, QuantumState.inRange.
  destruct (0 <=? i)%Z eqn:E0; cbn [andb negb]; [|discriminate].
  destruct (i <? _)%Z eqn:E1; cbn [negb]; [|discriminate].
  apply Z.leb_le in E0. apply Z.ltb_lt in E1.
  destruct (nth_error _ _) eqn:E; [|discriminate].
  intros H; injection H as <-. split; [lia | reflexivity].
Qed.

Lemma collapsed_amplitude (s : QuantumState.t) (q r : Z) (c : R) (i : Z)
  (a : Complex) :
  QuantumState.getAmplitude s i = Ok a ->
  QuantumState.getAmplitude
    (QuantumState.mk
       (map (collapse (QuantumState.numQubits s) q r c)
          (QuantumState.indexed (QuantumState.amplitudes s)))
       (QuantumState.numQubits s)) i
  = Ok (if (QuantumState.qubitValue (QuantumState.numQubits s) q i =? r)%Z
        then multiply a (complex c) else complex 0).
Proof.
  intros H. apply getAmplitude_inv in H as [Hi Hn].
  replace i with (Z.of_nat (Z.to_nat i)) at 1 by lia.
  erewrite getAmplitude_nth.
  - reflexivity.
  - cbn [QuantumState.amplitudes].
    rewrite nth_error_map, indexed_nth, Hn. cbn [option_map].
    unfold collapse. cbn [fst snd]. rewrite Z2Nat.id by lia. reflexivity.
Qed.

(** The collapsed array of a state of the right length is a state of the
    class whenever the scale restores the norm. *)
Lemma collapsed_state (s : QuantumState.t) (q r : Z) (c : R) :
  (0 <= QuantumState.numQubits s <= 5)%Z ->
  Z.of_nat (length (QuantumState.amplitudes s))
  = (2 ^ QuantumState.numQubits s)%Z ->
  r = 0%Z \/ r = 1%Z ->
  c * c * (if (r =? 0)%Z
           then marginal0 (QuantumState.numQubits s) q
                  (QuantumState.indexed (QuantumState.amplitudes s))
           else marginal1 (QuantumState.numQubits s) q
                  (QuantumState.indexed (QuantumState.amplitudes s))) = 1 ->
  wellFormed
    (QuantumState.mk
       (map (collapse (QuantumState.numQubits s) q r c)
          (QuantumState.indexed (QuantumState.amplitudes s)))
       (QuantumState.numQubits s)).
Proof.
  intros Hn Hl Hr Hc. unfold wellFormed.
  cbn [QuantumState.numQubits QuantumState.amplitudes].
  split; [exact Hn|]. split.
  - rewrite length_map, indexed_length. exact Hl.
  - apply normalized_iff. cbn [QuantumState.amplitudes].
    rewrite collapse_sum by exact Hr. exact Hc.
Qed.

(** The two ways [measureQubit] ends on a state of 2^n amplitudes, whether
    its probabilities sum to one or not: by the probability [p] the state
    gives to the outcome the sample selects. *)
Lemma measureQubit_any (s : QuantumState.t) (q : Z) (u : R) :
  (0 <= QuantumState.numQubits s <= 5)%Z ->
  Z.of_nat (length (QuantumState.amplitudes s))
  = (2 ^ QuantumState.numQubits s)%Z ->
  (0 <= q < QuantumState.numQubits s)%Z ->
  let n := QuantumState.numQubits s in
  let ia := QuantumState.indexed (QuantumState.amplitudes s) in
  let prob0 := 0 + marginal0 n q ia in
  let prob1 := 0 + marginal1 n q ia in
  let r := outcome u prob0 in
  let p := if (r =? 0)%Z then prob0 else prob1 in
  (p = 0 -> measureQubit s q u = Err NonFinite)
  /\ (p <> 0 ->
      measureQubit s q u
      = Ok (r, QuantumState.mk (map (collapse n q r (1 / sqrt p)) ia) n)
      /\ wellFormed (QuantumState.mk (map (collapse n q r (1 / sqrt p)) ia) n)).
Proof.
  intros Hn Hl Hq n ia prob0 prob1 r p.
  pose proof (marginal_nonneg n q ia) as [Hm0 Hm1].
  assert (Hr : r = 0%Z \/ r = 1%Z)
    by (unfold r, outcome; destruct (Rlt_dec u prob0); auto).
  assert (Hp0 : 0 <= p)
    by (unfold p, prob0, prob1; destruct (r =? 0)%Z; lra).
  assert (Hfactor : (if (r =? 0)%Z then sqrt prob0 else sqrt prob1) = sqrt p)
    by (unfold p; destruct (r =? 0)%Z; reflexivity).
  split.
  - intros Hz. unfold measureQubit.
    rewrite (qubit_probabilities s q Hq). cbn [bind].
    unfold QuantumState.getNumQubits. fold n ia prob0 prob1 r.
    rewrite Hfactor, Hz, sqrt_0.
    destruct (Req_dec_T 0 0) as [_|C]; [reflexivity|contradiction].
  - intros Hnz.
    assert (Hp : 0 < p) by lra.
    assert (Hsq : 0 < sqrt p) by (apply sqrt_lt_R0; exact Hp).
    assert (Hc : 1 / sqrt p * (1 / sqrt p)
                 * (if (r =? 0)%Z then marginal0 n q ia else marginal1 n q ia)
                 = 1).
    { replace (if (r =? 0)%Z then marginal0 n q ia else marginal1 n q ia)
        with p by (unfold p, prob0, prob1; destruct (r =? 0)%Z; ring).
      rewrite <- (sqrt_sqrt p) at 3 by lra. field. lra. }
    pose proof (collapsed_state s q r (1 / sqrt p) Hn Hl Hr Hc) as Hnew.
    fold n ia in Hnew. split; [|exact Hnew].
    unfold measureQubit. rewrite (qubit_probabilities s q Hq). cbn [bind].
    unfold QuantumState.getNumQubits. fold n ia prob0 prob1 r.
    rewrite Hfactor.
    destruct (Req_dec_T (sqrt p) 0) as [E|_]; [lra|].
    pose proof (measure_loop s q r (1 / sqrt p) Hl) as Hloop.
    fold n ia in Hloop. rewrite Hloop. cbn [bind].
    pose proof (clone_wellFormed _ Hnew) as Hclone.
    unfold QuantumState.clone in Hclone.
    cbn [QuantumState.numQubits QuantumState.amplitudes] in Hclone.
    rewrite Hclone. reflexivity.
Qed.

(** The held state: its probabilities sum to 1 within the tolerance, qubit 2
    is 1 with probability 0, and [prob0] is below the sample. *)
Lemma heldState_facts :
  0 <= lastSample < 1
  /\ Rabs (total (QuantumState.getMeasurementProbabilities heldState) - 1)
     <= tolerance
  /\ 0 + marginal0 3 2 (QuantumState.indexed (QuantumState.amplitudes heldState))
     <= lastSample
  /\ 0 + marginal1 3 2 (QuantumState.indexed (QuantumState.amplitudes heldState))
     = 0.
Proof.
  assert (H1 : QuantumState.prob (complex heldAmplitude1)
               = heldAmplitude1 * heldAmplitude1)
    by (rewrite prob_eq; cbn [re im complex]; ring).
  assert (H3 : QuantumState.prob (complex heldAmplitude3)
               = heldAmplitude3 * heldAmplitude3)
    by (rewrite prob_eq; cbn [re im complex]; ring).
  assert (Hlo : 1 - / 10 ^ 15
                <= heldAmplitude1 * heldAmplitude1
                   + 2 * (heldAmplitude3 * heldAmplitude3)
                <= 1 - / 2 ^ 52).
  { unfold heldAmplitude1, heldAmplitude3. lra. }
  assert (Ht : / 10 ^ 15 <= tolerance) by (unfold tolerance; lra).
  assert (H52 : 0 < / 2 ^ 52 <= 1) by lra.
  split; [unfold lastSample; lra|]. split.
  - unfold QuantumState.getMeasurementProbabilities, heldState.
    cbn [QuantumState.amplitudes]. rewrite total_probs.
    rewrite !sumSquares_cons, sumSquares_nil, H1, H3, prob_zero.
    apply Rabs_le. lra.
  - unfold heldState. cbn [QuantumState.amplitudes].
    cbv -[Rplus QuantumState.prob complex IZR heldAmplitude1 heldAmplitude3
          lastSample].
    rewrite H1, H3, ?prob_zero. unfold lastSample. split; lra.
Qed.

(** C7.  [measureQubit] on a state of 2^n amplitudes whose probabilities
    sum to 1 within the tolerance, for any sample [u]: the outcome is 0 when
    [u < prob0] and 1 otherwise (so a sample equal to [prob0] gives 1).
    When the outcome has a probability of at least 1e-200 the new state has
    the qubit count of the old one, is normalized, and holds at every index
    the old amplitude times 1/sqrt(probability of the outcome) where the
    qubit has the measured value and zero elsewhere; [measureQubit] is a
    function of the old state, which it leaves as it was.  When the outcome
    has probability zero the division is unguarded and the state returned
    has NaN amplitudes.  That happens on a state the code holds: for the
    state the constructor stores for [1, 0, 3, 0, 3, 0, 0, 0], qubit 2 and
    the sample 1 - 2^-52 in [0,1), [prob0] is below the sample, the outcome
    is 1 with probability 0, and the result is not a normalized state. *)
Theorem measureQubit_collapse :
  (forall (s : QuantumState.t) (q : Z) (u : R),
      (0 <= QuantumState.numQubits s <= 5)%Z ->
      Z.of_nat (length (QuantumState.amplitudes s))
      = (2 ^ QuantumState.numQubits s)%Z ->
      Rabs (total (QuantumState.getMeasurementProbabilities s) - 1)
      <= tolerance ->
      (0 <= q < QuantumState.numQubits s)%Z ->
      exists (prob0 prob1 : R) (r : Z),
        QuantumState.getQubitMeasurementProbabilities s q = Ok (prob0, prob1)
        /\ (u < prob0 -> r = 0%Z)
        /\ (prob0 <= u -> r = 1%Z)
        /\ ((if (r =? 0)%Z then prob0 else prob1) = 0 ->
            measureQubit s q u = Err NonFinite)
        /\ (/ 10 ^ 200 <= (if (r =? 0)%Z then prob0 else prob1) ->
            exists newState : QuantumState.t,
              measureQubit s q u = Ok (r, newState)
              /\ QuantumState.numQubits newState = QuantumState.numQubits s
              /\ normalized newState
              /\ forall i a,
                   QuantumState.getAmplitude s i = Ok a ->
                   QuantumState.getAmplitude newState i
                   = Ok (if (QuantumState.qubitValue
                               (QuantumState.numQubits s) q i =? r)%Z
                         then multiply a
                                (complex
                                   (1 / sqrt (if (r =? 0)%Z
                                              then prob0 else prob1)))
                         else complex 0)))
  /\ (0 <= lastSample < 1
      /\ Rabs (total (QuantumState.getMeasurementProbabilities heldState) - 1)
         <= tolerance
      /\ (exists prob0,
             QuantumState.getQubitMeasurementProbabilities heldState 2
             = Ok (prob0, 0)
             /\ prob0 <= lastSample)
      /\ measureQubit heldState 2 lastSample = Err NonFinite).
Proof.
  split.
  - intros s q u Hn Hl _ Hq.
    pose proof (measureQubit_any s q u Hn Hl Hq) as H. cbv zeta in H.
    set (n := QuantumState.numQubits s) in *.
    set (ia := QuantumState.indexed (QuantumState.amplitudes s)) in *.
    set (prob0 := 0 + marginal0 n q ia) in *.
    set (prob1 := 0 + marginal1 n q ia) in *.
    set (r := outcome u prob0) in *.
    destruct H as [Hzero Hpos].
    exists prob0, prob1, r.
    split; [apply qubit_probabilities; exact Hq|].
    split; [unfold r, outcome; destruct (Rlt_dec u prob0); [reflexivity|tauto]|].
    split; [unfold r, outcome; destruct (Rlt_dec u prob0); [lra|reflexivity]|].
    split; [exact Hzero|].
    intros Hnz.
    assert (Hne : (if (r =? 0)%Z then prob0 else prob1) <> 0).
    { assert (0 < / 10 ^ 200) by (apply Rinv_0_lt_compat, pow_lt; lra).
      lra. }
    destruct (Hpos Hne) as [Hm Hw].
    eexists. split; [exact Hm|]. split; [reflexivity|].
    split; [destruct Hw as (_ & _ & N); exact N|].
    intros i a Ha. apply (collapsed_amplitude s q r _ i a Ha).
  - destruct heldState_facts as (Hu & Ht & H0 & H1).
    split; [exact Hu|]. split; [exact Ht|]. split.
    + eexists. split; [|exact H0].
      rewrite (qubit_probabilities heldState 2) by (cbn; lia).
      change (QuantumState.numQubits heldState) with 3%Z.
      rewrite H1. reflexivity.
    + pose proof (measureQubit_any heldState 2 lastSample) as H.
      cbv zeta in H. change (QuantumState.numQubits heldState) with 3%Z in H.
      apply H; [lia|reflexivity|lia|].
      unfold outcome.
      destruct (Rlt_dec lastSample _) as [C|_]; [lra|].
      cbn [Z.eqb]. exact H1.
Qed.

Lemma measureQubit_collapse_witness :
  exists (prob0 prob1 : R) (r : Z),
    QuantumState.getQubitMeasurementProbabilities plusState 0
    = Ok (prob0, prob1)
    /\ (1 / 4 < prob0 -> r = 0%Z)
    /\ (prob0 <= 1 / 4 -> r = 1%Z)
    /\ ((if (r =? 0)%Z then prob0 else prob1) = 0 ->
        measureQubit plusState 0 (1 / 4) = Err NonFinite)
    /\ (/ 10 ^ 200 <= (if (r =? 0)%Z then prob0 else prob1) ->
        exists newState : QuantumState.t,
          measureQubit plusState 0 (1 / 4) = Ok (r, newState)
          /\ QuantumState.numQubits newState = QuantumState.numQubits plusState
          /\ normalized newState
          /\ forall i a,
               QuantumState.getAmplitude plusState i = Ok a ->
               QuantumState.getAmplitude newState i
               = Ok (if (QuantumState.qubitValue
                           (QuantumState.numQubits plusState) 0 i =? r)%Z
                     then multiply a
                            (complex
                               (1 / sqrt (if (r =? 0)%Z then prob0 else prob1)))
                     else complex 0)).
Proof.
  destruct measureQubit_collapse as [H _].
  apply (H plusState 0%Z (1 / 4)).
  - cbn. lia.
  - reflexivity.
  - destruct plusState_wellFormed as (_ & _ & N). unfold normalized in N.
    rewrite N. replace (1 - 1) with 0 by ring. rewrite Rabs_R0.
    pose proof tolerance_bounds. lra.
  - cbn. lia.
Defined.

End Measurement.

(* ------------------------------------------------------------------ *)
(** ** The simulator session *)

Section Session.

Import QuantumSimulator.

Lemma errorLines_app (l1 l2 : list LogEntry) :
  errorLines (l1 ++ l2) = (errorLines l1 + errorLines l2)%nat.
Proof. unfold errorLines. rewrite filter_app, length_app. reflexivity. Qed.

(** The two ways [applyGate] ends. *)
Lemma applyGate_cases (sim : t) (g : QuantumGate) (ts : list Z) :
  (exists s' c,
      QuantumOperations.applyGate (currentState sim) g ts = Ok s'
      /\ QuantumState.clone s' = Ok c
      /\ applyGate sim g ts
         = (mk (numQubits sim) s' (stateHistory sim ++ [c])
              (executionLog sim ++ [LogApplied (name g) ts]), Ok tt))
  \/ (exists e cur,
         applyGate sim g ts
         = (mk (numQubits sim) cur (stateHistory sim)
              (executionLog sim ++ [LogError (name g) e]), Err e)
         /\ (cur = currentState sim
             \/ QuantumOperations.applyGate (currentState sim) g ts = Ok cur)).
Proof.
  unfold applyGate.
  destruct (QuantumOperations.applyGate (currentState sim) g ts) as [s'|e] eqn:E.
  - destruct (QuantumState.clone s') as [c|e] eqn:Ec.
    + left. exists s', c. auto.
    + right. exists e, s'. auto.
  - right. exists e, (currentState sim). auto.
Qed.

(** A failed validation in [applyGate] leaves the state and the history and
    adds the error line. *)
Lemma applyGate_error (sim : t) (g : QuantumGate) (ts : list Z) (e : Error) :
  QuantumOperations.applyGate (currentState sim) g ts = Err e ->
  applyGate sim g ts
  = (mk (numQubits sim) (currentState sim) (stateHistory sim)
       (executionLog sim ++ [LogError (name g) e]), Err e).
Proof. intros H. unfold applyGate. rewrite H. reflexivity. Qed.

Lemma measureQubit_cases (sim : t) (q : Z) (u : R) :
  (exists s' c r p,
      measureQubit sim q u
      = (mk (numQubits sim) s' (stateHistory sim ++ [c])
           (executionLog sim ++ [LogMeasured q r p]),
         Ok (mkMeasurement q r p))
      /\ QuantumOperations.measureQubit (currentState sim) q u = Ok (r, s')
      /\ QuantumState.clone s' = Ok c)
  \/ (exists e cur,
         measureQubit sim q u
         = (mk (numQubits sim) cur (stateHistory sim) (executionLog sim), Err e)).
Proof.
  unfold measureQubit.
  destruct (QuantumState.getQubitMeasurementProbabilities _ _)
    as [[prob0 prob1]|e]; [|right; exists e, (currentState sim);
                              destruct sim; reflexivity].
  destruct (QuantumOperations.measureQubit _ _ _) as [[r s']|e];
    [|right; exists e, (currentState sim); destruct sim; reflexivity].
  destruct (QuantumState.clone s') as [c|e] eqn:Ec.
  - left. exists s', c, r, (if r =? 0 then prob0 else prob1). auto.
  - right. exists e, s'. reflexivity.
Qed.

Lemma measureAll_cases (sim : t) (u : R) :
  (exists s' c results probabilities,
      measureAll sim u
      = (mk (numQubits sim) s' (stateHistory sim ++ [c])
           (executionLog sim ++ [LogMeasuredAll results]),
         Ok (results, probabilities))
      /\ QuantumState.clone s' = Ok c)
  \/ (exists e cur,
         measureAll sim u
         = (mk (numQubits sim) cur (stateHistory sim) (executionLog sim), Err e)).
Proof.
  unfold measureAll.
  destruct (QuantumOperations.measureAll (currentState sim) u)
    as [results probabilities].
  destruct (QuantumState.new _ _) as [s'|e];
    [|right; exists e, (currentState sim); destruct sim; reflexivity].
  destruct (QuantumState.clone s') as [c|e] eqn:Ec.
  - left. exists s', c, results, probabilities. auto.
  - right. exists e, s'. reflexivity.
Qed.

Lemma reset_cases (sim : t) :
  (exists s' c,
      reset sim = (mk (numQubits sim) s' [c] [LogInitialized (numQubits sim)],
                   Ok tt))
  \/ (exists e cur,
         reset sim
         = (mk (numQubits sim) cur (stateHistory sim) (executionLog sim), Err e)).
Proof.
  unfold reset.
  destruct (QuantumState.new _ _) as [s'|e];
    [|right; exists e, (currentState sim); destruct sim; reflexivity].
  destruct (QuantumState.clone s') as [c|e].
  - left. exists s', c. reflexivity.
  - right. exists e, s'. reflexivity.
Qed.

Lemma reset_succeeds (sim : t) :
  1 <= numQubits sim <= 5 ->
  reset sim
  = (mk (numQubits sim) (ket (numQubits sim) 0) [ket (numQubits sim) 0]
       [LogInitialized (numQubits sim)], Ok tt).
Proof.
  intros H. unfold reset. rewrite new_default by lia. fold (ket (numQubits sim) 0).
  rewrite clone_wellFormed; [reflexivity|].
  apply ket_wellFormed; [lia|].
  assert (0 < 2 ^ numQubits sim) by (apply Z.pow_pos_nonneg; lia). lia.
Qed.

Lemma new_succeeds (n : Z) :
  1 <= n <= 5 ->
  QuantumSimulator.new n = Ok (mk n (ket n 0) [ket n 0] [LogInitialized n]).
Proof.
  intros H. unfold QuantumSimulator.new.
  destruct (n <? 1) eqn:E1; [apply Z.ltb_lt in E1; lia|].
  destruct (5 <? n) eqn:E2; [apply Z.ltb_lt in E2; lia|].
  cbn [orb]. rewrite new_default by lia. cbn [bind]. fold (ket n 0).
  rewrite clone_wellFormed; [reflexivity|].
  apply ket_wellFormed; [lia|].
  assert (0 < 2 ^ n) by (apply Z.pow_pos_nonneg; lia). lia.
Qed.

Lemma new_inv (n : Z) (sim : t) :
  QuantumSimulator.new n = Ok sim ->
  1 <= n <= 5 /\ sim = mk n (ket n 0) [ket n 0] [LogInitialized n].
Proof.
  intros H.
  assert (Hn : 1 <= n <= 5).
  { unfold QuantumSimulator.new in H.
    destruct (n <? 1) eqn:E1; [discriminate|].
    destruct (5 <? n) eqn:E2; [discriminate|].
    apply Z.ltb_ge in E1, E2. lia. }
  split; [exact Hn|]. rewrite new_succeeds in H by exact Hn.
  injection H as <-. reflexivity.
Qed.

Lemma step_numQubits (sim : t) (c : Call) :
  numQubits (fst (step sim c)) = numQubits sim.
Proof.
  destruct c as [g ts|q u|u|]; cbn [step].
  - destruct (applyGate_cases sim g ts) as [(s' & c & _ & _ & E)|(e & cur & E & _)];
      rewrite E; reflexivity.
  - destruct (measureQubit_cases sim q u) as [(s' & c & r & p & E & _)|(e & cur & E)];
      rewrite E; reflexivity.
  - destruct (measureAll_cases sim u) as [(s' & c & r & p & E & _)|(e & cur & E)];
      rewrite E; reflexivity.
  - destruct (reset_cases sim) as [(s' & c & E)|(e & cur & E)];
      rewrite E; reflexivity.
Qed.

Lemma run_numQubits (calls : list Call) (sim : t) :
  numQubits (run sim calls) = numQubits sim.
Proof.
  revert sim. induction calls as [|c calls IH]; intros sim; cbn [run fold_left].
  - reflexivity.
  - change (numQubits (run (fst (step sim c)) calls) = numQubits sim).
    rewrite IH. apply step_numQubits.
Qed.

Lemma step_auditTrail (sim : t) (c : Call) :
  auditTrail sim -> auditTrail (fst (step sim c)).
Proof.
  unfold auditTrail. intros H.
  destruct c as [g ts|q u|u|]; cbn [step].
  - destruct (applyGate_cases sim g ts) as [(s' & c & _ & _ & E)|(e & cur & E & _)];
      rewrite E; cbn [fst executionLog stateHistory];
      rewrite errorLines_app, !length_app; cbn; lia.
  - destruct (measureQubit_cases sim q u) as [(s' & c & r & p & E & _)|(e & cur & E)];
      rewrite E; cbn [fst executionLog stateHistory];
      rewrite ?errorLines_app, ?length_app; cbn; lia.
  - destruct (measureAll_cases sim u) as [(s' & c & r & p & E & _)|(e & cur & E)];
      rewrite E; cbn [fst executionLog stateHistory];
      rewrite ?errorLines_app, ?length_app; cbn; lia.
  - destruct (reset_cases sim) as [(s' & c & E)|(e & cur & E)];
      rewrite E; cbn [fst executionLog stateHistory]; cbn; lia.
Qed.

Lemma run_auditTrail (calls : list Call) (sim : t) :
  auditTrail sim -> auditTrail (run sim calls).
Proof.
  revert sim. induction calls as [|c calls IH]; intros sim H; cbn [run fold_left].
  - exact H.
  - apply (IH (fst (step sim c))). apply step_auditTrail. exact H.
Qed.

(** C3, as stated, fails: a gate application that fails validation adds a
    log line and no history entry.  On a fresh one-qubit session, Pauli-X on
    qubit 5 leaves a history of length 1 and a log of length 2. *)
Lemma audit_trail_counterexample :
  exists sim0,
    QuantumSimulator.new 1 = Ok sim0
    /\ length (stateHistory (run sim0 [CallApplyGate Gates.PauliXGate [5]])) = 1%nat
    /\ length (executionLog (run sim0 [CallApplyGate Gates.PauliXGate [5]])) = 2%nat.
Proof.
  eexists. split; [apply new_succeeds; lia|].
  cbn [run fold_left step].
  rewrite (applyGate_error _ Gates.PauliXGate [5] IndexOutOfRange) by reflexivity.
  split; reflexivity.
Qed.

(** C3, amended.  In every session reached from the constructor by
    [applyGate], [measureQubit], [measureAll] and [reset] calls, failed ones
    included, the log is as long as the history plus the number of error
    lines in the log; so the two have equal length while the log holds no
    error line.  A successful gate application or measurement adds exactly
    one entry to each and no error line; a failed gate application adds the
    error line to the log and nothing to the history; a failed measurement
    adds nothing; [reset] succeeds and leaves both at length 1 with the
    state [|0..0>]. *)
Theorem audit_trail (n : Z) (sim0 : t) (calls : list Call) :
  QuantumSimulator.new n = Ok sim0 ->
  auditTrail (run sim0 calls)
  /\ (errorLines (executionLog (run sim0 calls)) = 0%nat ->
      length (stateHistory (run sim0 calls))
      = length (executionLog (run sim0 calls)))
  /\ (forall c sim',
         step (run sim0 calls) c = (sim', None) -> isReset c = false ->
         length (stateHistory sim') = S (length (stateHistory (run sim0 calls)))
         /\ length (executionLog sim')
            = S (length (executionLog (run sim0 calls)))
         /\ errorLines (executionLog sim')
            = errorLines (executionLog (run sim0 calls)))
  /\ (forall g ts sim' e,
         step (run sim0 calls) (CallApplyGate g ts) = (sim', Some e) ->
         stateHistory sim' = stateHistory (run sim0 calls)
         /\ executionLog sim'
            = executionLog (run sim0 calls) ++ [LogError (name g) e])
  /\ (forall c sim' e,
         step (run sim0 calls) c = (sim', Some e) -> isApplyGate c = false ->
         stateHistory sim' = stateHistory (run sim0 calls)
         /\ executionLog sim' = executionLog (run sim0 calls))
  /\ (exists sim',
         step (run sim0 calls) CallReset = (sim', None)
         /\ currentState sim' = ket n 0
         /\ length (stateHistory sim') = 1%nat
         /\ length (executionLog sim') = 1%nat).
Proof.
  intros Hnew. apply new_inv in Hnew as [Hn ->].
  set (sim := run _ calls).
  assert (Hq : numQubits sim = n) by (unfold sim; rewrite run_numQubits; reflexivity).
  assert (Ha : auditTrail sim).
  { unfold sim. apply run_auditTrail. unfold auditTrail. reflexivity. }
  split; [exact Ha|].
  split; [unfold auditTrail in Ha; lia|].
  split.
  { intros c sim' Hs Hc. destruct c as [g ts|q u|u|]; [| | |discriminate Hc];
      cbn [step] in Hs.
    - destruct (applyGate_cases sim g ts)
        as [(s' & c & _ & _ & E)|(e & cur & E & _)];
        rewrite E in Hs; cbn [thrown] in Hs; [|discriminate].
      injection Hs as <-. cbn [stateHistory executionLog].
      rewrite errorLines_app, !length_app. cbn. lia.
    - destruct (measureQubit_cases sim q u)
        as [(s' & c & r & p & E & _)|(e & cur & E)];
        rewrite E in Hs; cbn [thrown] in Hs; [|discriminate].
      injection Hs as <-. cbn [stateHistory executionLog].
      rewrite errorLines_app, !length_app. cbn. lia.
    - destruct (measureAll_cases sim u)
        as [(s' & c & r & p & E & _)|(e & cur & E)];
        rewrite E in Hs; cbn [thrown] in Hs; [|discriminate].
      injection Hs as <-. cbn [stateHistory executionLog].
      rewrite errorLines_app, !length_app. cbn. lia. }
  split.
  { intros g ts sim' e Hs. cbn [step] in Hs.
    destruct (applyGate_cases sim g ts)
      as [(s' & c & _ & _ & E)|(e' & cur & E & _)];
      rewrite E in Hs; cbn [thrown] in Hs; [discriminate|].
    injection Hs as <- <-. split; reflexivity. }
  split.
  { intros c sim' e Hs Hc. destruct c as [g ts|q u|u|]; [discriminate Hc| | |];
      cbn [step] in Hs.
    - destruct (measureQubit_cases sim q u)
        as [(s' & c & r & p & E & _)|(e' & cur & E)];
        rewrite E in Hs; cbn [thrown] in Hs; [discriminate|].
      injection Hs as <- <-. split; reflexivity.
    - destruct (measureAll_cases sim u)
        as [(s' & c & r & p & E & _)|(e' & cur & E)];
        rewrite E in Hs; cbn [thrown] in Hs; [discriminate|].
      injection Hs as <- <-. split; reflexivity.
    - destruct (reset_cases sim) as [(s' & c & E)|(e' & cur & E)];
        rewrite E in Hs; cbn [thrown] in Hs; [discriminate|].
      injection Hs as <- <-. split; reflexivity. }
  eexists. cbn [step]. rewrite reset_succeeds by lia. cbn [thrown].
  split; [reflexivity|]. cbn [currentState stateHistory executionLog length].
  rewrite Hq. auto.
Qed.

Lemma audit_trail_witness :
  auditTrail
    (run (mk 1 (ket 1 0) [ket 1 0] [LogInitialized 1])
       [CallApplyGate Gates.PauliXGate [5]; CallReset]).
Proof.
  apply (audit_trail 1 (mk 1 (ket 1 0) [ket 1 0] [LogInitialized 1])
           [CallApplyGate Gates.PauliXGate [5]; CallReset]).
  apply new_succeeds. lia.
Defined.

End Session.

(* ------------------------------------------------------------------ *)
(** ** The stable sort by position *)

Section SortByPosition.

Import QuantumSimulator.

Lemma insertByPosition_perm (e : CircuitElement) (l : list CircuitElement) :
  Permutation (e :: l) (insertByPosition e l).
Proof.
  induction l as [|x l IH]; simpl.
  - apply Permutation_refl.
  - destruct (position e <=? position x).
    + apply Permutation_refl.
    + eapply perm_trans; [apply perm_swap|]. apply perm_skip. exact IH.
Qed.

Lemma sortByPosition_perm (c : list CircuitElement) :
  Permutation c (sortByPosition c).
Proof.
  induction c as [|e c IH]; simpl.
  - apply perm_nil.
  - eapply perm_trans; [apply perm_skip; exact IH|].
    apply insertByPosition_perm.
Qed.

Lemma insertByPosition_sorted (e : CircuitElement) (l : list CircuitElement) :
  StronglySorted (fun a b => position a <= position b) l ->
  StronglySorted (fun a b => position a <= position b) (insertByPosition e l).
Proof.
  induction l as [|x l IH]; intros Hs; simpl.
  - constructor; constructor.
  - inversion Hs as [|? ? Hl Hx]; subst.
    destruct (position e <=? position x) eqn:E.
    + apply Z.leb_le in E. constructor; [exact Hs|].
      constructor; [exact E|].
      eapply Forall_impl; [|exact Hx]. intros y Hy. simpl in Hy. lia.
    + apply Z.leb_gt in E. constructor; [apply IH; exact Hl|].
      eapply Permutation_Forall; [apply insertByPosition_perm|].
      constructor; [lia | exact Hx].
Qed.

Lemma sortByPosition_sorted (c : list CircuitElement) :
  StronglySorted (fun a b => position a <= position b) (sortByPosition c).
Proof.
  induction c as [|e c IH]; simpl.
  - constructor.
  - apply insertByPosition_sorted. exact IH.
Qed.

Lemma insertByPosition_filter (p : Z) (e : CircuitElement)
  (l : list CircuitElement) :
  filter (fun x => position x =? p) (insertByPosition e l)
  = filter (fun x => position x =? p) (e :: l).
Proof.
  induction l as [|x l IH]; simpl.
  - reflexivity.
  - destruct (position e <=? position x) eqn:E.
    + reflexivity.
    + apply Z.leb_gt in E. simpl. rewrite IH. simpl.
      destruct (position e =? p) eqn:Ee; [|reflexivity].
      apply Z.eqb_eq in Ee.
      destruct (position x =? p) eqn:Ex; [|reflexivity].
      apply Z.eqb_eq in Ex. lia.
Qed.

(** Stability: the elements of any one position keep their input order. *)
Lemma sortByPosition_stable (p : Z) (c : list CircuitElement) :
  filter (fun x => position x =? p) (sortByPosition c)
  = filter (fun x => position x =? p) c.
Proof.
  induction c as [|e c IH]; simpl.
  - reflexivity.
  - rewrite insertByPosition_filter. simpl. rewrite IH. reflexivity.
Qed.

Lemma sortByPosition_length (c : list CircuitElement) :
  length (sortByPosition c) = length c.
Proof. symmetry. apply Permutation_length, sortByPosition_perm. Qed.

End SortByPosition.

(* ------------------------------------------------------------------ *)
(** ** The loop of executeCircuit *)

Section ExecuteCircuit.

Import QuantumSimulator.

Lemma last_cons {A : Type} (a d : A) (l : list A) : last (a :: l) d = last l a.
Proof.
  revert a d. induction l as [|b l IH]; intros a d.
  - reflexivity.
  - change (last (a :: b :: l) d) with (last (b :: l) d).
    rewrite (IH b d), (IH b a). reflexivity.
Qed.

Lemma applyGate_ok (sim : t) (g : QuantumGate) (ts : list Z)
  (s' : QuantumState.t) :
  QuantumOperations.applyGate (currentState sim) g ts = Ok s' ->
  applyGate sim g ts
  = (mk (numQubits sim) s' (stateHistory sim ++ [s'])
       (executionLog sim ++ [LogApplied (name g) ts]), Ok tt)
  /\ wellFormed s'.
Proof.
  intros H. pose proof (applyGate_wellFormed _ _ _ _ H) as [Hw _].
  split; [|exact Hw].
  unfold applyGate. rewrite H, (clone_wellFormed s' Hw). reflexivity.
Qed.

Lemma session_after_gate (sim : t) (s' : QuantumState.t) (log : list LogEntry) :
  wellFormedSession sim -> wellFormed s' ->
  wellFormedSession (mk (numQubits sim) s' (stateHistory sim ++ [s']) log).
Proof.
  intros (Hn & _ & Hh) Hw. unfold wellFormedSession.
  cbn [numQubits currentState stateHistory].
  split; [exact Hn|]. split; [exact Hw|].
  apply Forall_app. split; [exact Hh|]. constructor; [exact Hw|constructor].
Qed.

(** The loop either applies every element, or stops at the first element
    whose application throws, with the error line as the last log line. *)
Lemma applyAll_spec (els : list CircuitElement) :
  forall sim, wellFormedSession sim ->
  (exists hs,
      applyGates (currentState sim) (map gateStep els) = Ok hs
      /\ applyAll sim els
         = (mk (numQubits sim) (last hs (currentState sim))
              (stateHistory sim ++ hs)
              (executionLog sim ++ map appliedLine els), Ok tt)
      /\ Forall wellFormed hs)
  \/ (exists e done el rest hs sim',
         els = done ++ el :: rest
         /\ applyGates (currentState sim) (map gateStep done) = Ok hs
         /\ QuantumOperations.applyGate (last hs (currentState sim))
              (gate el) (targetQubits el) = Err e
         /\ applyAll sim els = (sim', Err e)
         /\ stateHistory sim' = stateHistory sim ++ hs
         /\ executionLog sim'
            = executionLog sim ++ map appliedLine done
              ++ [LogError (name (gate el)) e]).
Proof.
  induction els as [|el els IH]; intros sim Hw.
  - left. exists []. cbn [map applyGates applyAll last].
    rewrite !app_nil_r. destruct sim. repeat split; constructor.
  - destruct (QuantumOperations.applyGate (currentState sim) (gate el)
                (targetQubits el)) as [s'|e] eqn:E.
    + destruct (applyGate_ok sim _ _ _ E) as [Hstep Hs'].
      pose proof (session_after_gate sim s'
                    (executionLog sim ++ [appliedLine el]) Hw Hs') as Hw'.
      destruct (IH _ Hw') as [(hs & Hg & Ha & Hf)
                             |(e & done & el' & rest & hs & sim' & -> & Hg & He
                               & Ha & Hh & Hl)];
        cbn [numQubits currentState stateHistory executionLog] in *.
      * left. exists (s' :: hs).
        cbn [map applyGates gateStep]. rewrite E. cbn [bind].
        rewrite Hg. cbn [bind applyAll]. rewrite Hstep.
        unfold appliedLine in Ha at 1. rewrite Ha.
        rewrite last_cons, <- !app_assoc. cbn [app].
        repeat split. constructor; assumption.
      * right. exists e, (el :: done), el', rest, (s' :: hs), sim'.
        cbn [map applyGates gateStep app]. rewrite E. cbn [bind].
        rewrite Hg. cbn [bind applyAll]. rewrite Hstep.
        unfold appliedLine in Ha at 1. rewrite Ha.
        rewrite last_cons, Hh, Hl, <- !app_assoc. cbn [app].
        repeat split. exact He.
    + right. exists e, [], el, els, [].
      eexists. cbn [map applyGates app last applyAll].
      rewrite (applyGate_error sim _ _ _ E).
      cbn [stateHistory executionLog]. rewrite app_nil_r.
      repeat split. exact E.
Qed.

Lemma mapM_clone (hs : list QuantumState.t) :
  Forall wellFormed hs -> mapM QuantumState.clone hs = Ok hs.
Proof.
  induction 1 as [|s hs Hs _ IH]; simpl.
  - reflexivity.
  - rewrite (clone_wellFormed s Hs). cbn [bind]. rewrite IH. reflexivity.
Qed.

Lemma last_wellFormed (hs : list QuantumState.t) (d : QuantumState.t) :
  Forall wellFormed hs -> wellFormed d -> wellFormed (last hs d).
Proof.
  intros H. revert d. induction H as [|s hs Hs _ IH]; intros d Hd.
  - exact Hd.
  - rewrite last_cons. apply IH. exact Hs.
Qed.

(** [executeCircuit] when every gate application succeeds: the session and
    the result it returns. *)
Lemma executeCircuit_ok (sim : t) (circuit : list CircuitElement)
  (hs : list QuantumState.t) :
  wellFormedSession sim ->
  applyGates (currentState sim) (map gateStep (sortByPosition circuit)) = Ok hs ->
  executeCircuit sim circuit
  = (mk (numQubits sim) (last hs (currentState sim)) (stateHistory sim ++ hs)
       (executionLog sim ++ map appliedLine (sortByPosition circuit)),
     Ok (mkResult (last hs (currentState sim))
           (QuantumState.getMeasurementProbabilities
              (last hs (currentState sim)))
           (stateHistory sim ++ hs)
           (executionLog sim ++ map appliedLine (sortByPosition circuit))))
  /\ wellFormedSession
       (mk (numQubits sim) (last hs (currentState sim)) (stateHistory sim ++ hs)
          (executionLog sim ++ map appliedLine (sortByPosition circuit))).
Proof.
  intros Hw Hg.
  destruct (applyAll_spec (sortByPosition circuit) sim Hw)
    as [(hs' & Hg' & Ha & Hf)
       |(e & done & el & rest & hs' & sim' & Hsplit & Hd & He & _)].
  - rewrite Hg in Hg'. injection Hg' as <-.
    destruct Hw as (Hn & Hc & Hh).
    assert (Hlast : wellFormed (last hs (currentState sim)))
      by (apply last_wellFormed; assumption).
    assert (Hall : Forall wellFormed (stateHistory sim ++ hs))
      by (apply Forall_app; split; assumption).
    split.
    + unfold executeCircuit. rewrite Ha.
      cbn [currentState stateHistory executionLog].
      rewrite (clone_wellFormed _ Hlast). cbn [bind].
      rewrite (mapM_clone _ Hall). reflexivity.
    + unfold wellFormedSession. cbn [numQubits currentState stateHistory].
      auto.
  - exfalso. rewrite Hsplit, map_app in Hg. cbn [map] in Hg.
    clear - Hg Hd He.
    assert (Hgen : forall done s hs0 e0 g rest0 hs1,
               applyGates s done = Ok hs0 ->
               QuantumOperations.applyGate (last hs0 s) (fst g) (snd g) = Err e0 ->
               applyGates s (done ++ g :: rest0) = Ok hs1 -> False).
    { clear. induction done as [|[g0 t0] done IH]; intros s hs0 e0 g rest0 hs1 H0 He H1.
      - cbn in H0. injection H0 as <-. cbn [last app applyGates] in *.
        destruct g as [g ts]. cbn [fst snd] in He. rewrite He in H1.
        discriminate.
      - cbn [app applyGates] in *.
        destruct (QuantumOperations.applyGate s g0 t0) as [s1|]; [|discriminate].
        cbn [bind] in *.
        destruct (applyGates s1 done) as [tr|] eqn:Et; [|discriminate].
        cbn [bind] in H0. injection H0 as <-.
        rewrite last_cons in He.
        destruct (applyGates s1 (done ++ g :: rest0)) as [tr1|] eqn:E1;
          [|discriminate].
        eapply IH; eassumption. }
    exact (Hgen (map gateStep done) (currentState sim) hs' e
             (gateStep el) (map gateStep rest) hs Hd He Hg).
Qed.

Lemma executeCircuit_inv (sim sim' : t) (circuit : list CircuitElement)
  (res : SimulationResult) :
  wellFormedSession sim ->
  executeCircuit sim circuit = (sim', Ok res) ->
  exists hs,
    applyGates (currentState sim) (map gateStep (sortByPosition circuit)) = Ok hs
    /\ sim' = mk (numQubits sim) (last hs (currentState sim))
                (stateHistory sim ++ hs)
                (executionLog sim ++ map appliedLine (sortByPosition circuit))
    /\ res = mkResult (last hs (currentState sim))
               (QuantumState.getMeasurementProbabilities
                  (last hs (currentState sim)))
               (stateHistory sim ++ hs)
               (executionLog sim ++ map appliedLine (sortByPosition circuit))
    /\ wellFormedSession sim'.
Proof.
  intros Hw He.
  destruct (applyAll_spec (sortByPosition circuit) sim Hw)
    as [(hs & Hg & _ & _)
       |(e & done & el & rest & hs & sim1 & _ & _ & _ & Ha & _)].
  - destruct (executeCircuit_ok sim circuit hs Hw Hg) as [Hx Hw'].
    rewrite Hx in He. injection He as <- <-.
    exists hs. auto.
  - unfold executeCircuit in He. rewrite Ha in He. discriminate.
Qed.

Lemma applyGates_length (gs : list (QuantumGate * list Z)) :
  forall s hs, applyGates s gs = Ok hs -> length hs = length gs.
Proof.
  induction gs as [|[g ts] gs IH]; intros s hs H; simpl in H.
  - injection H as <-. reflexivity.
  - bind_ok H. bind_ok H. injection H as <-. simpl. f_equal.
    eapply IH; eassumption.
Qed.

Lemma applyGates_app (g1 g2 : list (QuantumGate * list Z)) :
  forall s h1 h2,
    applyGates s g1 = Ok h1 -> applyGates (last h1 s) g2 = Ok h2 ->
    applyGates s (g1 ++ g2) = Ok (h1 ++ h2).
Proof.
  induction g1 as [|[g ts] g1 IH]; intros s h1 h2 H1 H2; simpl in H1.
  - injection H1 as <-. exact H2.
  - bind_ok H1. bind_ok H1. injection H1 as <-.
    rewrite last_cons in H2.
    cbn [app applyGates]. rewrite E. cbn [bind].
    rewrite (IH _ _ _ E0 H2). reflexivity.
Qed.

(** C8.  [executeCircuit] works on the circuit sorted by position: the
    sorted list is a permutation of the input, ascending in position, with
    the elements of each position in their input order.  The gates are
    applied in that order, each by [applyGate]: when all succeed the log
    grows by the lines of the sorted elements, in order; when one throws,
    the log grows by the lines of the elements before it and its error
    line, and the loop stops there. *)
Theorem executeCircuit_order (sim : t) (circuit : list CircuitElement) :
  wellFormedSession sim ->
  Permutation circuit (sortByPosition circuit)
  /\ StronglySorted (fun a b => position a <= position b)
       (sortByPosition circuit)
  /\ (forall p,
         filter (fun x => position x =? p) (sortByPosition circuit)
         = filter (fun x => position x =? p) circuit)
  /\ ((exists hs sim' res,
          executeCircuit sim circuit = (sim', Ok res)
          /\ applyGates (currentState sim)
               (map gateStep (sortByPosition circuit)) = Ok hs
          /\ stateHistory sim' = stateHistory sim ++ hs
          /\ executionLog sim'
             = executionLog sim ++ map appliedLine (sortByPosition circuit)
          /\ resultLog res = executionLog sim')
      \/ (exists e done el rest hs sim',
             sortByPosition circuit = done ++ el :: rest
             /\ executeCircuit sim circuit = (sim', Err e)
             /\ applyGates (currentState sim) (map gateStep done) = Ok hs
             /\ QuantumOperations.applyGate (last hs (currentState sim))
                  (gate el) (targetQubits el) = Err e
             /\ stateHistory sim' = stateHistory sim ++ hs
             /\ executionLog sim'
                = executionLog sim ++ map appliedLine done
                  ++ [LogError (name (gate el)) e])).
Proof.
  intros Hw.
  split; [apply sortByPosition_perm|].
  split; [apply sortByPosition_sorted|].
  split; [intros p; apply sortByPosition_stable|].
  destruct (applyAll_spec (sortByPosition circuit) sim Hw)
    as [(hs & Hg & _ & _)
       |(e & done & el & rest & hs & sim' & Hs & Hg & He & Ha & Hh & Hl)].
  - left. destruct (executeCircuit_ok sim circuit hs Hw Hg) as [Hx _].
    do 3 eexists. split; [exact Hx|].
    cbn [stateHistory executionLog resultLog].
    split; [exact Hg|]. repeat split.
  - right. exists e, done, el, rest, hs, sim'.
    split; [exact Hs|]. split; [|repeat split; assumption].
    unfold executeCircuit. rewrite Ha. reflexivity.
Qed.

Lemma session2_wellFormed : wellFormedSession session2.
Proof.
  unfold wellFormedSession, session2. cbn [numQubits currentState stateHistory].
  assert (H : wellFormed (ket 2 0)) by (apply ket_wellFormed; lia).
  split; [lia|]. split; [exact H|]. constructor; [exact H|constructor].
Qed.

Lemma session1_wellFormed : wellFormedSession session1.
Proof.
  unfold wellFormedSession, session1. cbn [numQubits currentState stateHistory].
  assert (H : wellFormed (ket 1 0)) by (apply ket_wellFormed; lia).
  split; [lia|]. split; [exact H|]. constructor; [exact H|constructor].
Qed.

Lemma executeCircuit_order_witness :
  Permutation unorderedCircuit (sortByPosition unorderedCircuit)
  /\ sortByPosition unorderedCircuit
     = [mkElement Gates.HadamardGate [0] 0; mkElement Gates.PauliXGate [1] 1].
Proof.
  split.
  - apply (executeCircuit_order session2 unorderedCircuit session2_wellFormed).
  - reflexivity.
Defined.

(** C10.  [executeCircuit] continues the session it is called on.  The gates
    of the sorted circuit are applied from the current state of the session;
    the history and the log it returns are those of the session before the
    call followed by one entry per element.  A second call continues from
    the final state of the first, and the two calls together apply the
    first sorted circuit followed by the second. *)
Theorem executeCircuit_continues (sim sim1 sim2 : t)
  (c1 c2 : list CircuitElement) (r1 r2 : SimulationResult) :
  wellFormedSession sim ->
  executeCircuit sim c1 = (sim1, Ok r1) ->
  executeCircuit sim1 c2 = (sim2, Ok r2) ->
  exists hs1 hs2,
    applyGates (currentState sim) (map gateStep (sortByPosition c1)) = Ok hs1
    /\ length hs1 = length c1
    /\ finalState r1 = last hs1 (currentState sim)
    /\ resultHistory r1 = stateHistory sim ++ hs1
    /\ resultLog r1 = executionLog sim ++ map appliedLine (sortByPosition c1)
    /\ applyGates (finalState r1) (map gateStep (sortByPosition c2)) = Ok hs2
    /\ finalState r2 = last hs2 (finalState r1)
    /\ resultHistory r2 = stateHistory sim ++ hs1 ++ hs2
    /\ resultLog r2
       = executionLog sim ++ map appliedLine (sortByPosition c1)
         ++ map appliedLine (sortByPosition c2)
    /\ applyGates (currentState sim)
         (map gateStep (sortByPosition c1 ++ sortByPosition c2))
       = Ok (hs1 ++ hs2).
Proof.
  intros Hw H1 H2.
  destruct (executeCircuit_inv _ _ _ _ Hw H1) as (hs1 & Hg1 & -> & -> & Hw1).
  destruct (executeCircuit_inv _ _ _ _ Hw1 H2) as (hs2 & Hg2 & -> & -> & _).
  cbn [numQubits currentState stateHistory executionLog] in *.
  exists hs1, hs2. cbn [finalState resultHistory resultLog].
  split; [exact Hg1|].
  split; [rewrite (applyGates_length _ _ _ Hg1), length_map;
          apply sortByPosition_length|].
  split; [reflexivity|]. split; [reflexivity|]. split; [reflexivity|].
  split; [exact Hg2|]. split; [reflexivity|].
  split; [rewrite app_assoc; reflexivity|].
  split; [rewrite app_assoc; reflexivity|].
  rewrite map_app. apply applyGates_app; assumption.
Qed.

Lemma flip_applyGates (a0 a1 : Complex) :
  (QuantumState.prob a0 + QuantumState.prob a1 = 1)%R ->
  applyGates (QuantumState.mk [a0; a1] 1)
    (map gateStep (sortByPosition flipCircuit))
  = Ok [QuantumState.mk [a1; a0] 1].
Proof.
  intros H. cbn [flipCircuit sortByPosition fold_right insertByPosition map
                 gateStep gate targetQubits applyGates].
  replace (QuantumOperations.applyGate (QuantumState.mk [a0; a1] 1)
             Gates.PauliXGate [0])
    with (QuantumOperations.applySingleQubitGate (QuantumState.mk [a0; a1] 1)
            Gates.PauliXGate 0) by reflexivity.
  rewrite (pauliX_step a0 a1 H). reflexivity.
Qed.

Lemma executeCircuit_continues_witness :
  exists sim1 sim2 r1 r2,
    executeCircuit session1 flipCircuit = (sim1, Ok r1)
    /\ executeCircuit sim1 flipCircuit = (sim2, Ok r2)
    /\ resultLog r2
       = [LogInitialized 1; LogApplied "Pauli-X" [0]; LogApplied "Pauli-X" [0]]
    /\ resultHistory r2
       = [QuantumState.mk [complex 1; complex 0] 1;
          QuantumState.mk [complex 0; complex 1] 1;
          QuantumState.mk [complex 1; complex 0] 1].
Proof.
  assert (P0 : (QuantumState.prob (complex 1) + QuantumState.prob (complex 0)
                = 1)%R) by (rewrite prob_one, prob_zero; ring).
  assert (P1 : (QuantumState.prob (complex 0) + QuantumState.prob (complex 1)
                = 1)%R) by (rewrite prob_one, prob_zero; ring).
  destruct (executeCircuit_ok session1 flipCircuit _ session1_wellFormed
              (flip_applyGates _ _ P0)) as [E1 W1].
  destruct (executeCircuit_ok _ flipCircuit _ W1 (flip_applyGates _ _ P1))
    as [E2 _].
  destruct (executeCircuit_continues _ _ _ _ _ _ _ session1_wellFormed E1 E2)
    as (hs1 & hs2 & _ & _ & _ & _ & _ & _ & _ & _ & Hl & _).
  do 4 eexists. split; [exact E1|]. split; [exact E2|].
  split; [rewrite Hl|]; reflexivity.
Defined.

End ExecuteCircuit.

(* ------------------------------------------------------------------ *)
(** ** Bits of basis indices *)

Section IndexBits.

Lemma in_indices (k x : Z) : In x (indices k) <-> 0 <= x < k.
Proof.
  unfold indices. rewrite in_map_iff. split.
  - intros (j & <- & Hj). apply in_seq in Hj. lia.
  - intros H. exists (Z.to_nat x). split; [lia|]. apply in_seq. lia.
Qed.

Lemma indices_NoDup (k : Z) : NoDup (indices k).
Proof.
  unfold indices. apply NoDup_map_NoDup_ForallPairs; [|apply seq_NoDup].
  intros a b _ _. apply Nat2Z.inj.
Qed.

Lemma indices_length (k : Z) : length (indices k) = Z.to_nat k.
Proof. unfold indices. rewrite length_map, length_seq. reflexivity. Qed.

Lemma indices_nth (k : Z) (j : nat) :
  nth_error (indices k) j
  = if (j <? Z.to_nat k)%nat then Some (Z.of_nat j) else None.
Proof.
  unfold indices. rewrite nth_error_map, nth_error_seq.
  destruct (j <? Z.to_nat k)%nat; reflexivity.
Qed.

Lemma qubitValue_testbit (n q i : Z) :
  0 <= n - 1 - q ->
  QuantumState.qubitValue n q i = Z.b2z (Z.testbit i (n - 1 - q)).
Proof.
  intros Hk. unfold QuantumState.qubitValue.
  pose proof (Z.land_ones (Z.shiftr i (n - 1 - q)) 1 ltac:(lia)) as H.
  change (Z.ones 1) with 1 in H. change (2 ^ 1) with 2 in H.
  rewrite H, <- Z.bit0_mod, Z.shiftr_spec by lia. reflexivity.
Qed.

Lemma testbit_pow2 (k j : Z) : 0 <= k -> Z.testbit (2 ^ k) j = (k =? j).
Proof. intros H. apply Z.pow2_bits_eqb. exact H. Qed.

Lemma clear_when_clear (i k : Z) :
  0 <= k -> Z.testbit i k = false ->
  Z.land i (Z.lnot (Z.shiftl 1 k)) = i /\ Z.lor i (Z.shiftl 1 k) = Z.lxor i (2 ^ k).
Proof.
  intros Hk Hb. rewrite Z.shiftl_1_l. split; apply Z.bits_inj'; intros j Hj.
  - rewrite Z.land_spec, Z.lnot_spec, testbit_pow2 by lia.
    destruct (Z.eqb_spec k j) as [->|]; [rewrite Hb; reflexivity|].
    apply andb_true_r.
  - rewrite Z.lor_spec, Z.lxor_spec, testbit_pow2 by lia.
    destruct (Z.eqb_spec k j) as [->|]; [rewrite Hb; reflexivity|].
    rewrite orb_false_r, xorb_false_r. reflexivity.
Qed.

Lemma set_when_set (i k : Z) :
  0 <= k -> Z.testbit i k = true ->
  Z.lor i (Z.shiftl 1 k) = i /\ Z.land i (Z.lnot (Z.shiftl 1 k)) = Z.lxor i (2 ^ k).
Proof.
  intros Hk Hb. rewrite Z.shiftl_1_l. split; apply Z.bits_inj'; intros j Hj.
  - rewrite Z.lor_spec, testbit_pow2 by lia.
    destruct (Z.eqb_spec k j) as [->|]; [rewrite Hb; reflexivity|].
    apply orb_false_r.
  - rewrite Z.land_spec, Z.lnot_spec, Z.lxor_spec, testbit_pow2 by lia.
    destruct (Z.eqb_spec k j) as [->|]; [rewrite Hb; reflexivity|].
    rewrite andb_true_r, xorb_false_r. reflexivity.
Qed.

Lemma flip_testbit (i k : Z) :
  0 <= k -> Z.testbit (Z.lxor i (2 ^ k)) k = negb (Z.testbit i k).
Proof.
  intros Hk. rewrite Z.lxor_spec, testbit_pow2, Z.eqb_refl by lia.
  apply xorb_true_r.
Qed.

Lemma flip_involutive (i m : Z) : Z.lxor (Z.lxor i m) m = i.
Proof. rewrite Z.lxor_assoc, Z.lxor_nilpotent, Z.lxor_0_r. reflexivity. Qed.

Lemma flip_range (n k i : Z) :
  0 <= k < n -> 0 <= i < 2 ^ n -> 0 <= Z.lxor i (2 ^ k) < 2 ^ n.
Proof.
  intros Hk Hi.
  assert (Hm : 0 < 2 ^ k) by (apply Z.pow_pos_nonneg; lia).
  assert (Hmn : 2 ^ k < 2 ^ n) by (apply Z.pow_lt_mono_r; lia).
  assert (Hnn : 0 <= Z.lxor i (2 ^ k)) by (apply Z.lxor_nonneg; lia).
  split; [exact Hnn|].
  destruct (Z.eq_dec (Z.lxor i (2 ^ k)) 0) as [E|E]; [lia|].
  apply Z.log2_lt_pow2; [lia|].
  pose proof (Z.log2_lxor i (2 ^ k) ltac:(lia) ltac:(lia)) as Hl.
  rewrite Z.log2_pow2 in Hl by lia.
  destruct (Z.eq_dec i 0) as [->|Hi0].
  - change (Z.log2 0) with 0 in Hl. lia.
  - assert (Z.log2 i < n) by (apply Z.log2_lt_pow2; lia). lia.
Qed.

Lemma flip_permutation (n k : Z) :
  0 <= k < n ->
  Permutation (map (fun i => Z.lxor i (2 ^ k)) (indices (2 ^ n)))
    (indices (2 ^ n)).
Proof.
  intros Hk. apply NoDup_Permutation.
  - apply NoDup_map_NoDup_ForallPairs; [|apply indices_NoDup].
    intros a b _ _ H. rewrite <- (flip_involutive a (2 ^ k)), H.
    apply flip_involutive.
  - apply indices_NoDup.
  - intros x. rewrite in_map_iff, in_indices. split.
    + intros (y & <- & Hy). apply in_indices in Hy.
      apply flip_range; assumption.
    + intros Hx. exists (Z.lxor x (2 ^ k)). split.
      * apply flip_involutive.
      * apply in_indices. apply flip_range; assumption.
Qed.

End IndexBits.

(* ------------------------------------------------------------------ *)
(** ** Sums over indices *)

Section IndexSums.

Local Open Scope R_scope.

Lemma sumOver_perm (F : Z -> R) (l l' : list Z) :
  Permutation l l' -> sumOver F l = sumOver F l'.
Proof.
  induction 1; simpl; try lra.
Qed.

Lemma sumOver_map (F : Z -> R) (g : Z -> Z) (l : list Z) :
  sumOver F (map g l) = sumOver (fun i => F (g i)) l.
Proof. induction l as [|a l IH]; simpl; [reflexivity | rewrite IH; reflexivity]. Qed.

Lemma sumOver_plus (F G : Z -> R) (l : list Z) :
  sumOver (fun i => F i + G i) l = sumOver F l + sumOver G l.
Proof. induction l as [|a l IH]; simpl; [ring | rewrite IH; ring]. Qed.

Lemma sumOver_ext (F G : Z -> R) (l : list Z) :
  (forall i, In i l -> F i = G i) -> sumOver F l = sumOver G l.
Proof.
  induction l as [|a l IH]; intros H; simpl; [reflexivity|].
  rewrite (H a) by (left; reflexivity).
  rewrite IH by (intros i Hi; apply H; right; exact Hi). reflexivity.
Qed.

Lemma sumSquares_map (g : Z -> Complex) (l : list Z) :
  QuantumState.sumSquares (map g l)
  = sumOver (fun i => QuantumState.prob (g i)) l.
Proof.
  induction l as [|a l IH]; simpl.
  - apply sumSquares_nil.
  - rewrite sumSquares_cons, IH. reflexivity.
Qed.

Lemma amplitudes_as_map (s : QuantumState.t) :
  QuantumState.amplitudes s
  = map (amplitudeAt s)
      (indices (Z.of_nat (length (QuantumState.amplitudes s)))).
Proof.
  apply nth_error_ext. intros j.
  rewrite nth_error_map, indices_nth, Nat2Z.id.
  destruct (Nat.ltb_spec j (length (QuantumState.amplitudes s))) as [H|H].
  - cbn [option_map]. unfold amplitudeAt. rewrite Nat2Z.id.
    apply nth_error_nth'. exact H.
  - apply nth_error_None. exact H.
Qed.

Lemma sumSquares_indices (s : QuantumState.t) :
  QuantumState.sumSquares (QuantumState.amplitudes s)
  = sumOver (fun i => QuantumState.prob (amplitudeAt s i))
      (indices (Z.of_nat (length (QuantumState.amplitudes s)))).
Proof. rewrite (amplitudes_as_map s) at 1. apply sumSquares_map. Qed.

Lemma getAmplitude_at (s : QuantumState.t) (i : Z) :
  (0 <= i < Z.of_nat (length (QuantumState.amplitudes s)))%Z ->
  QuantumState.getAmplitude s i = Ok (amplitudeAt s i).
Proof.
  intros H. replace i with (Z.of_nat (Z.to_nat i)) at 1 by lia.
  apply getAmplitude_nth. unfold amplitudeAt.
  apply nth_error_nth'. lia.
Qed.

Lemma mapM_ok {A B : Type} (f : A -> Result B) (g : A -> B) (l : list A) :
  (forall x, In x l -> f x = Ok (g x)) -> mapM f l = Ok (map g l).
Proof.
  intros H. rewrite <- (map_id l) at 1.
  apply (mapM_pointwise f g (fun x => x)). exact H.
Qed.

End IndexSums.

(* ------------------------------------------------------------------ *)
(** ** Single-qubit gates on a register of any size *)

Section SingleQubitAction.

Import QuantumOperations.

Local Open Scope R_scope.

Lemma pair_unitary (m00 m01 m10 m11 a b : Complex) :
  isUnitary2 m00 m01 m10 m11 ->
  QuantumState.prob (add (multiply m00 a) (multiply m01 b))
  + QuantumState.prob (add (multiply m10 a) (multiply m11 b))
  = QuantumState.prob a + QuantumState.prob b.
Proof.
  intros (H0 & H1 & HP & HQ). rewrite !prob_eq in *. cbn [re im add multiply].
  transitivity
    ((re m00 * re m00 + im m00 * im m00 + (re m10 * re m10 + im m10 * im m10))
     * (re a * re a + im a * im a)
     + (re m01 * re m01 + im m01 * im m01 + (re m11 * re m11 + im m11 * im m11))
       * (re b * re b + im b * im b)
     + 2 * ((re m00 * re m01 + im m00 * im m01 + re m10 * re m11
             + im m10 * im m11) * (re a * re b + im a * im b)
            - (re m00 * im m01 - im m00 * re m01 + re m10 * im m11
               - im m10 * re m11) * (re a * im b - im a * re b))).
  - ring.
  - rewrite H0, H1, HP, HQ. ring.
Qed.

Section OneGate.

Variables (s : QuantumState.t) (g : QuantumGate) (q : Z).
Variables (m00 m01 m10 m11 : Complex).
Hypothesis Hwf : wellFormed s.
Hypothesis Hmatrix : matrix g = [[m00; m01]; [m10; m11]].
Hypothesis Hq : (0 <= q < QuantumState.numQubits s)%Z.

Let n := QuantumState.numQubits s.
Let k := (n - 1 - q)%Z.

Lemma index_in_range (i : Z) :
  (0 <= i < 2 ^ n)%Z ->
  (0 <= i < Z.of_nat (length (QuantumState.amplitudes s)))%Z.
Proof. destruct Hwf as (_ & Hl & _). fold n in Hl. lia. Qed.

Lemma flipBit_in_range (i : Z) :
  (0 <= i < 2 ^ n)%Z -> (0 <= flipBit n q i < 2 ^ n)%Z.
Proof. intros Hi. unfold flipBit. apply flip_range; [unfold n in *; lia | exact Hi]. Qed.

Lemma single_loop :
  mapM (singleQubitAmplitude s g n q) (indices (2 ^ n))
  = Ok (map (actSingle m00 m01 m10 m11 s q) (indices (2 ^ n))).
Proof.
  apply mapM_ok. intros i Hi. apply in_indices in Hi.
  unfold singleQubitAmplitude, actSingle, matrixAt. rewrite Hmatrix.
  cbn [nth_error]. fold n.
  change (Z.land (Z.shiftr i (n - 1 - q)) 1)
    with (QuantumState.qubitValue n q i).
  assert (Hk : (0 <= n - 1 - q)%Z) by (unfold n in *; lia).
  rewrite (qubitValue_testbit n q i Hk).
  pose proof (flipBit_in_range i Hi) as Hf. unfold flipBit in *.
  destruct (Z.testbit i (n - 1 - q)) eqn:Hb; cbn [Z.b2z Z.eqb bind].
  - destruct (set_when_set i _ Hk Hb) as [E1 E0]. rewrite E1, E0.
    rewrite !getAmplitude_at by (apply index_in_range; assumption).
    reflexivity.
  - destruct (clear_when_clear i _ Hk Hb) as [E0 E1]. rewrite E1, E0.
    rewrite !getAmplitude_at by (apply index_in_range; assumption).
    reflexivity.
Qed.

Hypothesis Hunitary : isUnitary2 m00 m01 m10 m11.

Lemma single_pair (i : Z) :
  (0 <= i < 2 ^ n)%Z ->
  QuantumState.prob (actSingle m00 m01 m10 m11 s q i)
  + QuantumState.prob (actSingle m00 m01 m10 m11 s q (flipBit n q i))
  = QuantumState.prob (amplitudeAt s i)
    + QuantumState.prob (amplitudeAt s (flipBit n q i)).
Proof.
  intros Hi. unfold actSingle. fold n.
  assert (Hk : (0 <= n - 1 - q)%Z) by (unfold n in *; lia).
  assert (Hv : QuantumState.qubitValue n q (flipBit n q i)
               = Z.b2z (negb (Z.testbit i (n - 1 - q)))).
  { rewrite (qubitValue_testbit n q _ Hk). unfold flipBit.
    rewrite flip_testbit by exact Hk. reflexivity. }
  rewrite Hv, (qubitValue_testbit n q i Hk).
  replace (flipBit n q (flipBit n q i)) with i
    by (unfold flipBit; symmetry; apply flip_involutive).
  destruct (Z.testbit i (n - 1 - q)); cbn [negb Z.b2z Z.eqb].
  - rewrite Rplus_comm, (pair_unitary _ _ _ _ _ _ Hunitary). ring.
  - apply (pair_unitary _ _ _ _ _ _ Hunitary).
Qed.

Lemma single_norm :
  QuantumState.sumSquares
    (map (actSingle m00 m01 m10 m11 s q) (indices (2 ^ n))) = 1.
Proof.
  rewrite sumSquares_map.
  set (G := fun i => QuantumState.prob (actSingle m00 m01 m10 m11 s q i)).
  set (F := fun i => QuantumState.prob (amplitudeAt s i)).
  set (L := indices (2 ^ n)).
  assert (Hperm : Permutation (map (flipBit n q) L) L)
    by (apply flip_permutation; unfold n in *; lia).
  assert (HG : sumOver (fun i => G (flipBit n q i)) L = sumOver G L)
    by (rewrite <- sumOver_map; apply sumOver_perm; exact Hperm).
  assert (HF : sumOver (fun i => F (flipBit n q i)) L = sumOver F L)
    by (rewrite <- sumOver_map; apply sumOver_perm; exact Hperm).
  assert (Hpairs : sumOver (fun i => G i + G (flipBit n q i)) L
                   = sumOver (fun i => F i + F (flipBit n q i)) L).
  { apply sumOver_ext. intros i Hi. apply in_indices in Hi.
    apply single_pair. exact Hi. }
  rewrite !sumOver_plus, HG, HF in Hpairs.
  assert (H1 : sumOver F L = 1).
  { destruct Hwf as (_ & Hl & Hn). apply normalized_iff in Hn.
    rewrite sumSquares_indices, Hl in Hn. exact Hn. }
  change (sumOver G L = 1). lra.
Qed.

Lemma single_result :
  applySingleQubitGate s g q
  = (if negb (qubits g =? 1)%Z then Err GateArityMismatch
     else Ok (QuantumState.mk
                (map (actSingle m00 m01 m10 m11 s q) (indices (2 ^ n))) n)).
Proof.
  unfold applySingleQubitGate, QuantumState.getNumQubits. fold n.
  destruct (negb (qubits g =? 1)%Z); [reflexivity|].
  destruct (q <? 0)%Z eqn:E1; [apply Z.ltb_lt in E1; lia|].
  destruct (q >=? n)%Z eqn:E2; [apply Z.geb_le in E2; unfold n in *; lia|].
  cbn [orb]. rewrite single_loop. cbn [bind].
  apply (clone_wellFormed (QuantumState.mk _ n)).
  destruct Hwf as (Hn & _ & _). unfold wellFormed.
  split; [exact Hn|]. split.
  - change (Z.of_nat
              (length (map (actSingle m00 m01 m10 m11 s q) (indices (2 ^ n))))
            = (2 ^ n)%Z).
    rewrite length_map, indices_length, Z2Nat.id; [reflexivity|].
    apply Z.pow_nonneg. lia.
  - apply normalized_iff. exact single_norm.
Qed.

End OneGate.

Lemma amplitudeAt_map (F : Z -> Complex) (n j : Z) :
  (0 <= j < 2 ^ n)%Z ->
  amplitudeAt (QuantumState.mk (map F (indices (2 ^ n))) n) j = F j.
Proof.
  intros Hj. unfold amplitudeAt. cbn [QuantumState.amplitudes].
  apply nth_error_nth. rewrite nth_error_map, indices_nth.
  destruct (Nat.ltb_spec (Z.to_nat j) (Z.to_nat (2 ^ n))); [|lia].
  cbn [option_map]. rewrite Z2Nat.id by lia. reflexivity.
Qed.

Lemma single_qubit_action (s : QuantumState.t) (g : QuantumGate) (q : Z)
  (m00 m01 m10 m11 : Complex) :
  wellFormed s ->
  qubits g = 1%Z ->
  matrix g = [[m00; m01]; [m10; m11]] ->
  isUnitary2 m00 m01 m10 m11 ->
  (0 <= q < QuantumState.numQubits s)%Z ->
  exists s',
    applySingleQubitGate s g q = Ok s'
    /\ wellFormed s'
    /\ QuantumState.numQubits s' = QuantumState.numQubits s
    /\ forall i, (0 <= i < 2 ^ QuantumState.numQubits s)%Z ->
         QuantumState.getAmplitude s' i = Ok (actSingle m00 m01 m10 m11 s q i).
Proof.
  intros Hwf Hg Hm Hu Hq.
  pose proof (single_result s g q m00 m01 m10 m11 Hwf Hm Hq Hu) as Hr.
  rewrite Hg in Hr. cbn [Z.eqb Pos.eqb negb] in Hr.
  eexists. split; [exact Hr|].
  pose proof (applySingleQubitGate_wellFormed _ _ _ _ Hr) as [Hw' Hn'].
  split; [exact Hw'|]. split; [exact Hn'|].
  intros i Hi. rewrite getAmplitude_at.
  - rewrite amplitudeAt_map by exact Hi. reflexivity.
  - destruct Hw' as (_ & Hl & _). rewrite Hl. exact Hi.
Qed.

Lemma library_gate_unitary (g : QuantumGate) :
  In g singleQubitLibrary ->
  qubits g = 1%Z
  /\ matrix g = [[entry g 0 0; entry g 0 1]; [entry g 1 0; entry g 1 1]]
  /\ isUnitary2 (entry g 0 0) (entry g 0 1) (entry g 1 0) (entry g 1 1).
Proof.
  intros [<-|[<-|[<-|[<-|[]]]]]; (split; [reflexivity|]);
    (split; [reflexivity|]); unfold isUnitary2; rewrite !prob_eq;
    cbn [entry nth matrix Gates.HadamardGate Gates.PauliXGate Gates.PauliYGate
         Gates.PauliZGate re im complex complex2]; unfold Gates.SQRT2;
    pose proof inv_sqrt2_sq as Hw; unfold Rdiv in *;
    repeat split; try ring.
  - lra.
  - replace (-1 * / sqrt 2 * (-1 * / sqrt 2))
      with (1 * / sqrt 2 * (1 * / sqrt 2)) by ring.
    lra.
Qed.

Lemma complex_mul_one_l (a : Complex) : multiply (complex 1) a = a.
Proof. apply complex_eq; simpl; ring. Qed.

Lemma complex_mul_zero_l (a : Complex) : multiply (complex 0) a = complex 0.
Proof. apply complex_eq; simpl; ring. Qed.

Lemma complex_add_zero_r (a : Complex) : add a (complex 0) = a.
Proof. apply complex_eq; simpl; ring. Qed.

Lemma complex_add_zero_l (a : Complex) : add (complex 0) a = a.
Proof. apply complex_eq; simpl; ring. Qed.

Lemma matrix_square_row (p q0 r0 t a b : Complex) (u v : Complex) :
  add (multiply p u) (multiply q0 r0) = complex 1 ->
  add (multiply p v) (multiply q0 t) = complex 0 ->
  add (multiply p (add (multiply u a) (multiply v b)))
      (multiply q0 (add (multiply r0 a) (multiply t b))) = a.
Proof.
  intros H1 H0.
  transitivity (add (multiply (add (multiply p u) (multiply q0 r0)) a)
                    (multiply (add (multiply p v) (multiply q0 t)) b)).
  - apply complex_eq; simpl; ring.
  - rewrite H1, H0, complex_mul_one_l, complex_mul_zero_l.
    apply complex_add_zero_r.
Qed.

Lemma matrix_square_row' (p q0 r0 t a b : Complex) (u v : Complex) :
  add (multiply p u) (multiply q0 r0) = complex 0 ->
  add (multiply p v) (multiply q0 t) = complex 1 ->
  add (multiply p (add (multiply u a) (multiply v b)))
      (multiply q0 (add (multiply r0 a) (multiply t b))) = b.
Proof.
  intros H0 H1.
  transitivity (add (multiply (add (multiply p u) (multiply q0 r0)) a)
                    (multiply (add (multiply p v) (multiply q0 t)) b)).
  - apply complex_eq; simpl; ring.
  - rewrite H1, H0, complex_mul_one_l, complex_mul_zero_l.
    apply complex_add_zero_l.
Qed.

Lemma single_qubit_twice (s : QuantumState.t) (g : QuantumGate) (q : Z)
  (m00 m01 m10 m11 : Complex) :
  wellFormed s ->
  qubits g = 1%Z ->
  matrix g = [[m00; m01]; [m10; m11]] ->
  isUnitary2 m00 m01 m10 m11 ->
  isInvolution2 m00 m01 m10 m11 ->
  (0 <= q < QuantumState.numQubits s)%Z ->
  exists s1,
    applySingleQubitGate s g q = Ok s1
    /\ applySingleQubitGate s1 g q = Ok s.
Proof.
  intros Hwf Hg Hm Hu (I00 & I01 & I10 & I11) Hq.
  set (n := QuantumState.numQubits s) in *.
  pose proof (single_result s g q m00 m01 m10 m11 Hwf Hm Hq Hu) as Hr.
  rewrite Hg in Hr. cbn [Z.eqb Pos.eqb negb] in Hr. fold n in Hr.
  set (s1 := QuantumState.mk
               (map (actSingle m00 m01 m10 m11 s q) (indices (2 ^ n))) n) in *.
  exists s1. split; [exact Hr|].
  pose proof (applySingleQubitGate_wellFormed _ _ _ _ Hr) as [Hw1 _].
  assert (Hq1 : (0 <= q < QuantumState.numQubits s1)%Z) by exact Hq.
  pose proof (single_result s1 g q m00 m01 m10 m11 Hw1 Hm Hq1 Hu) as Hr1.
  rewrite Hg in Hr1. cbn [Z.eqb Pos.eqb negb] in Hr1.
  rewrite Hr1. f_equal.
  change (QuantumState.numQubits s1) with n.
  assert (Hk : (0 <= n - 1 - q)%Z) by lia.
  assert (Hs : s = QuantumState.mk (map (amplitudeAt s) (indices (2 ^ n))) n).
  { destruct Hwf as (_ & Hl & _). fold n in Hl.
    rewrite <- Hl, <- amplitudes_as_map. destruct s; reflexivity. }
  transitivity (QuantumState.mk (map (amplitudeAt s) (indices (2 ^ n))) n);
    [|symmetry; exact Hs].
  f_equal.
  apply map_ext_in. intros i Hi. apply in_indices in Hi.
  assert (Hf : (0 <= flipBit n q i < 2 ^ n)%Z)
    by (unfold flipBit; apply flip_range; lia).
  unfold actSingle at 1. change (QuantumState.numQubits s1) with n.
  unfold s1. rewrite !amplitudeAt_map by assumption.
  unfold actSingle. fold n.
  assert (Hv : QuantumState.qubitValue n q (flipBit n q i)
               = Z.b2z (negb (Z.testbit i (n - 1 - q)))).
  { rewrite (qubitValue_testbit n q _ Hk). unfold flipBit.
    rewrite flip_testbit by exact Hk. reflexivity. }
  rewrite Hv, (qubitValue_testbit n q i Hk).
  replace (flipBit n q (flipBit n q i)) with i
    by (unfold flipBit; symmetry; apply flip_involutive).
  destruct (Z.testbit i (n - 1 - q)); cbn [negb Z.b2z Z.eqb].
  - apply matrix_square_row'; assumption.
  - apply matrix_square_row; assumption.
Qed.

Lemma library_gate_involution (g : QuantumGate) :
  In g singleQubitLibrary ->
  isInvolution2 (entry g 0 0) (entry g 0 1) (entry g 1 0) (entry g 1 1).
Proof.
  pose proof inv_sqrt2_sq as Hw. unfold Rdiv in Hw.
  assert (Hw' : -1 * / sqrt 2 * (-1 * / sqrt 2) = 1 * / 2)
    by (rewrite <- Hw; ring).
  intros [<-|[<-|[<-|[<-|[]]]]]; unfold isInvolution2;
    cbn [entry nth matrix Gates.HadamardGate Gates.PauliXGate Gates.PauliYGate
         Gates.PauliZGate]; unfold Gates.SQRT2;
    repeat split; apply complex_eq;
    cbn [re im add multiply complex complex2]; unfold Rdiv;
    try ring; try (rewrite ?Rmult_0_l, ?Rmult_0_r; lra).
Qed.

(** X1.  A single-qubit gate whose matrix has orthonormal columns, applied
    to an in-range qubit of a well-formed register of any size, does not
    throw, and the amplitude it returns at each index is the row of the
    matrix selected by the qubit's bit, applied to the pair of old amplitudes
    at the two indices that differ in that bit only: the renormalization in
    the constructor changes nothing. *)
Theorem unitary_gate_action (s : QuantumState.t) (g : QuantumGate) (q : Z)
  (m00 m01 m10 m11 : Complex) :
  wellFormed s ->
  qubits g = 1%Z ->
  matrix g = [[m00; m01]; [m10; m11]] ->
  isUnitary2 m00 m01 m10 m11 ->
  (0 <= q < QuantumState.numQubits s)%Z ->
  exists s',
    applySingleQubitGate s g q = Ok s'
    /\ wellFormed s'
    /\ QuantumState.numQubits s' = QuantumState.numQubits s
    /\ forall i, (0 <= i < 2 ^ QuantumState.numQubits s)%Z ->
         QuantumState.getAmplitude s' i = Ok (actSingle m00 m01 m10 m11 s q i).
Proof. exact (single_qubit_action s g q m00 m01 m10 m11). Qed.

Lemma unitary_gate_action_witness :
  exists s',
    applySingleQubitGate (ket 2 0) Gates.PauliYGate 1 = Ok s'
    /\ wellFormed s'
    /\ QuantumState.numQubits s' = QuantumState.numQubits (ket 2 0)
    /\ forall i, (0 <= i < 2 ^ QuantumState.numQubits (ket 2 0))%Z ->
         QuantumState.getAmplitude s' i
         = Ok (actSingle (complex 0) (complex2 0 (-1)) (complex2 0 1)
                 (complex 0) (ket 2 0) 1 i).
Proof.
  apply (unitary_gate_action (ket 2 0) Gates.PauliYGate 1).
  - apply ket_wellFormed; lia.
  - reflexivity.
  - reflexivity.
  - apply (library_gate_unitary Gates.PauliYGate). simpl. auto.
  - simpl. lia.
Defined.

(** X2.  Each single-qubit gate of the library (Hadamard, Pauli-X, Pauli-Y,
    Pauli-Z) applied twice to the same in-range qubit of a well-formed
    register of any size returns the register it started from; neither
    application throws. *)
Theorem library_gates_self_inverse (s : QuantumState.t) (g : QuantumGate)
  (q : Z) :
  In g singleQubitLibrary ->
  wellFormed s ->
  (0 <= q < QuantumState.numQubits s)%Z ->
  exists s1,
    applySingleQubitGate s g q = Ok s1
    /\ wellFormed s1
    /\ applySingleQubitGate s1 g q = Ok s.
Proof.
  intros Hg Hw Hq.
  destruct (library_gate_unitary g Hg) as (Hq1 & Hm & Hu).
  destruct (single_qubit_twice s g q _ _ _ _ Hw Hq1 Hm Hu
              (library_gate_involution g Hg) Hq) as (s1 & H1 & H2).
  exists s1. split; [exact H1|]. split; [|exact H2].
  apply (applySingleQubitGate_wellFormed _ _ _ _ H1).
Qed.

Lemma library_gates_self_inverse_witness :
  exists s1,
    applySingleQubitGate plus0 Gates.HadamardGate 1 = Ok s1
    /\ wellFormed s1
    /\ applySingleQubitGate s1 Gates.HadamardGate 1 = Ok plus0.
Proof.
  apply (library_gates_self_inverse plus0 Gates.HadamardGate 1).
  - simpl. auto.
  - apply (applySingleQubitGate_wellFormed _ _ _ _ hadamard_on_00).
  - simpl. lia.
Defined.

Lemma nth_update {A : Type} (l : list A) (i j : nat) (v d : A) :
  (i < length l)%nat ->
  nth j (update i v l) d = if (j =? i)%nat then v else nth j l d.
Proof.
  revert i j. induction l as [|x l IH]; intros i j Hi; [simpl in Hi; lia|].
  destruct i as [|i], j as [|j]; simpl; try reflexivity.
  apply IH. simpl in Hi. lia.
Qed.

Lemma amplitudeAt_ket (n k j : Z) :
  (0 <= k < 2 ^ n)%Z -> (0 <= j < 2 ^ n)%Z ->
  amplitudeAt (ket n k) j = if (j =? k)%Z then complex 1 else complex 0.
Proof.
  intros Hk Hj. unfold amplitudeAt, ket, basisAmplitudes.
  cbn [QuantumState.amplitudes].
  rewrite nth_update by (rewrite repeat_length; lia).
  destruct (Nat.eqb_spec (Z.to_nat j) (Z.to_nat k)) as [E|E];
    destruct (Z.eqb_spec j k) as [E'|E']; try reflexivity; try lia.
  apply nth_repeat_lt. lia.
Qed.

Lemma state_as_map (s : QuantumState.t) :
  wellFormed s ->
  s = QuantumState.mk
        (map (amplitudeAt s) (indices (2 ^ QuantumState.numQubits s)))
        (QuantumState.numQubits s).
Proof.
  intros (_ & Hl & _). rewrite <- Hl, <- amplitudes_as_map.
  destruct s; reflexivity.
Qed.

Lemma pauliX_action (s : QuantumState.t) (q i : Z) :
  actSingle (complex 0) (complex 1) (complex 1) (complex 0) s q i
  = amplitudeAt s (flipBit (QuantumState.numQubits s) q i).
Proof.
  unfold actSingle. destruct (_ =? 0)%Z;
    rewrite complex_mul_one_l, complex_mul_zero_l;
    [apply complex_add_zero_l | apply complex_add_zero_r].
Qed.

(** X3.  Pauli-X on an in-range qubit of a well-formed register exchanges
    the amplitudes of every two basis states that differ in that qubit: the
    amplitude it returns at an index is the old amplitude at the index with
    the qubit's bit flipped. *)
Theorem pauliX_exchanges_amplitudes (s : QuantumState.t) (q : Z) :
  wellFormed s ->
  (0 <= q < QuantumState.numQubits s)%Z ->
  exists s',
    applySingleQubitGate s Gates.PauliXGate q = Ok s'
    /\ forall i, (0 <= i < 2 ^ QuantumState.numQubits s)%Z ->
         QuantumState.getAmplitude s' i
         = QuantumState.getAmplitude s
             (Z.lxor i (2 ^ (QuantumState.numQubits s - 1 - q))).
Proof.
  intros Hw Hq.
  destruct (library_gate_unitary Gates.PauliXGate) as (Hg & Hm & Hu);
    [simpl; auto|].
  destruct (single_qubit_action s Gates.PauliXGate q _ _ _ _ Hw Hg Hm Hu Hq)
    as (s' & Hs' & _ & _ & Ha).
  exists s'. split; [exact Hs'|]. intros i Hi.
  rewrite (Ha i Hi).
  change (entry Gates.PauliXGate 0 0) with (complex 0).
  change (entry Gates.PauliXGate 0 1) with (complex 1).
  change (entry Gates.PauliXGate 1 0) with (complex 1).
  change (entry Gates.PauliXGate 1 1) with (complex 0).
  rewrite pauliX_action. symmetry. apply getAmplitude_at.
  destruct Hw as (_ & Hl & _). rewrite Hl.
  apply flip_range; lia.
Qed.

Lemma pauliX_exchanges_amplitudes_witness :
  exists s',
    applySingleQubitGate plus0 Gates.PauliXGate 1 = Ok s'
    /\ forall i, (0 <= i < 2 ^ QuantumState.numQubits plus0)%Z ->
         QuantumState.getAmplitude s' i
         = QuantumState.getAmplitude plus0
             (Z.lxor i (2 ^ (QuantumState.numQubits plus0 - 1 - 1))).
Proof.
  apply (pauliX_exchanges_amplitudes plus0 1).
  - apply (applySingleQubitGate_wellFormed _ _ _ _ hadamard_on_00).
  - simpl. lia.
Defined.

(** X4.  Pauli-X on qubit [q] of the basis state [|k>] of an [n]-qubit
    register returns the basis state whose index is [k] with the bit of
    qubit [q] (bit [n-1-q]) flipped. *)
Theorem pauliX_flips_basis_state (n k q : Z) :
  (0 <= n <= 5)%Z -> (0 <= k < 2 ^ n)%Z -> (0 <= q < n)%Z ->
  applySingleQubitGate (ket n k) Gates.PauliXGate q
  = Ok (ket n (Z.lxor k (2 ^ (n - 1 - q)))).
Proof.
  intros Hn Hk Hq.
  assert (Hw : wellFormed (ket n k)) by (apply ket_wellFormed; assumption).
  assert (Hf : (0 <= Z.lxor k (2 ^ (n - 1 - q)) < 2 ^ n)%Z)
    by (apply flip_range; lia).
  assert (Hw' : wellFormed (ket n (Z.lxor k (2 ^ (n - 1 - q)))))
    by (apply ket_wellFormed; assumption).
  pose proof (single_result (ket n k) Gates.PauliXGate q
                (complex 0) (complex 1) (complex 1) (complex 0)
                Hw eq_refl Hq) as Hr.
  rewrite Hr by (apply (library_gate_unitary Gates.PauliXGate); simpl; auto).
  cbn [qubits Gates.PauliXGate Z.eqb Pos.eqb negb].
  f_equal. rewrite (state_as_map _ Hw').
  change (QuantumState.numQubits (ket n _)) with n.
  f_equal. apply map_ext_in. intros i Hi. apply in_indices in Hi.
  rewrite pauliX_action. change (QuantumState.numQubits (ket n k)) with n.
  unfold flipBit.
  rewrite !amplitudeAt_ket by (try assumption; apply flip_range; lia).
  destruct (Z.eqb_spec (Z.lxor i (2 ^ (n - 1 - q))) k) as [E|E];
    destruct (Z.eqb_spec i (Z.lxor k (2 ^ (n - 1 - q)))) as [E'|E'];
    try reflexivity; exfalso.
  - apply E'. rewrite <- E. symmetry. apply flip_involutive.
  - apply E. rewrite E'. apply flip_involutive.
Qed.

Lemma pauliX_flips_basis_state_witness :
  applySingleQubitGate (ket 3 5) Gates.PauliXGate 1 = Ok (ket 3 7).
Proof.
  apply (pauliX_flips_basis_state 3 5 1); simpl; lia.
Defined.

End SingleQubitAction.

(* ------------------------------------------------------------------ *)
(** ** Measurement of one qubit: certain outcomes and repetition *)

Section MeasureAgain.

Import QuantumOperations.

Local Open Scope R_scope.

Lemma qubit_probabilities_sum (s : QuantumState.t) (q : Z) :
  wellFormed s ->
  marginal0 (QuantumState.numQubits s) q
    (QuantumState.indexed (QuantumState.amplitudes s))
  + marginal1 (QuantumState.numQubits s) q
      (QuantumState.indexed (QuantumState.amplitudes s)) = 1.
Proof.
  intros (_ & _ & N). apply normalized_iff in N.
  rewrite marginal_sum, indexed_snd. exact N.
Qed.

(** The state [measureQubit] returns, written out. *)
Lemma measureQubit_explicit (s : QuantumState.t) (q : Z) (u : R)
  (prob0 prob1 : R) :
  wellFormed s -> (0 <= q < QuantumState.numQubits s)%Z -> 0 <= u < 1 ->
  QuantumState.getQubitMeasurementProbabilities s q = Ok (prob0, prob1) ->
  0 < (if (outcome u prob0 =? 0)%Z then prob0 else prob1)
  /\ measureQubit s q u
     = Ok (outcome u prob0,
           QuantumState.mk
             (map (collapse (QuantumState.numQubits s) q (outcome u prob0)
                     (1 / sqrt (if (outcome u prob0 =? 0)%Z
                                then prob0 else prob1)))
                (QuantumState.indexed (QuantumState.amplitudes s)))
             (QuantumState.numQubits s)).
Proof.
  intros Hw Hq Hu Hp.
  rewrite (qubit_probabilities s q Hq) in Hp. injection Hp as <- <-.
  set (n := QuantumState.numQubits s) in *.
  set (ia := QuantumState.indexed (QuantumState.amplitudes s)).
  pose proof (marginal_nonneg n q ia) as [Hm0 Hm1].
  pose proof (qubit_probabilities_sum s q Hw) as Hsum. fold n ia in Hsum.
  set (prob0 := 0 + marginal0 n q ia) in *.
  set (prob1 := 0 + marginal1 n q ia) in *.
  set (r := outcome u prob0).
  set (p := if (r =? 0)%Z then prob0 else prob1).
  assert (Hr : r = 0%Z \/ r = 1%Z)
    by (unfold r, outcome; destruct (Rlt_dec u prob0); auto).
  assert (Hpos : 0 < p).
  { unfold p, r, outcome, prob0, prob1 in *.
    destruct (Rlt_dec u _); cbn [Z.eqb]; lra. }
  split; [exact Hpos|].
  assert (Hsq : 0 < sqrt p) by (apply sqrt_lt_R0; exact Hpos).
  assert (Hc : 1 / sqrt p * (1 / sqrt p)
               * (if (r =? 0)%Z then marginal0 n q ia else marginal1 n q ia)
               = 1).
  { replace (if (r =? 0)%Z then marginal0 n q ia else marginal1 n q ia)
      with p by (unfold p, prob0, prob1; destruct (r =? 0)%Z; ring).
    rewrite <- (sqrt_sqrt p) at 3 by lra. field. lra. }
  pose proof (collapsed_wellFormed s q r (1 / sqrt p) Hw Hr Hc) as Hnew.
  fold n ia in Hnew.
  unfold measureQubit. rewrite (qubit_probabilities s q Hq). cbn [bind].
  unfold QuantumState.getNumQubits. fold n ia prob0 prob1 r.
  replace (if (r =? 0)%Z then sqrt prob0 else sqrt prob1) with (sqrt p)
    by (unfold p; destruct (r =? 0)%Z; reflexivity).
  destruct (Req_dec_T (sqrt p) 0) as [E|_]; [lra|].
  destruct Hw as (_ & Hl & _).
  pose proof (measure_loop s q r (1 / sqrt p) Hl) as Hloop.
  fold n ia in Hloop. rewrite Hloop. cbn [bind].
  pose proof (clone_wellFormed _ Hnew) as Hclone.
  unfold QuantumState.clone in Hclone.
  cbn [QuantumState.numQubits QuantumState.amplitudes] in Hclone.
  rewrite Hclone. reflexivity.
Qed.

Lemma prob_zero_inv (a : Complex) : QuantumState.prob a = 0 -> a = complex 0.
Proof.
  rewrite prob_eq. intros H. apply complex_eq; cbn [re im complex]; nra.
Qed.

Lemma marginal0_zero (n q : Z) (l : list (Z * Complex)) :
  marginal0 n q l = 0 ->
  forall i a, In (i, a) l -> QuantumState.qubitValue n q i = 0%Z ->
              a = complex 0.
Proof.
  induction l as [|[j b] l IH]; intros H i a Hin Hb; [destruct Hin|].
  pose proof (marginal_nonneg n q l) as [H0 _].
  pose proof (prob_nonneg b) as Hpb.
  simpl in H. destruct Hin as [E|Hin].
  - injection E as -> ->. rewrite Hb in H. cbn [Z.eqb] in H.
    apply prob_zero_inv. lra.
  - apply (IH ltac:(destruct (_ =? 0)%Z; lra) i a Hin Hb).
Qed.

Lemma marginal1_zero (n q : Z) (l : list (Z * Complex)) :
  marginal1 n q l = 0 ->
  forall i a, In (i, a) l -> QuantumState.qubitValue n q i = 1%Z ->
              a = complex 0.
Proof.
  induction l as [|[j b] l IH]; intros H i a Hin Hb; [destruct Hin|].
  pose proof (marginal_nonneg n q l) as [_ H1].
  pose proof (prob_nonneg b) as Hpb.
  simpl in H. destruct Hin as [E|Hin].
  - injection E as -> ->. rewrite Hb in H. cbn [Z.eqb] in H.
    apply prob_zero_inv. lra.
  - apply (IH ltac:(destruct (_ =? 0)%Z; lra) i a Hin Hb).
Qed.

(** Collapsing onto an outcome of probability one changes no amplitude. *)
Lemma collapse_certain (s : QuantumState.t) (q r : Z) :
  (r = 0%Z /\ marginal1 (QuantumState.numQubits s) q
                (QuantumState.indexed (QuantumState.amplitudes s)) = 0)
  \/ (r = 1%Z /\ marginal0 (QuantumState.numQubits s) q
                   (QuantumState.indexed (QuantumState.amplitudes s)) = 0) ->
  map (collapse (QuantumState.numQubits s) q r (1 / 1))
    (QuantumState.indexed (QuantumState.amplitudes s))
  = QuantumState.amplitudes s.
Proof.
  intros H. rewrite <- (indexed_snd (QuantumState.amplitudes s)) at 2.
  apply map_ext_in. intros [i a] Hin. unfold collapse. cbn [fst snd].
  destruct (qubitValue_bit (QuantumState.numQubits s) q i) as [E|E];
    destruct H as [[-> Hz]|[-> Hz]]; rewrite E; cbn [Z.eqb Pos.eqb].
  - apply multiply_one.
  - symmetry. apply (marginal0_zero _ _ _ Hz i a Hin E).
  - symmetry. apply (marginal1_zero _ _ _ Hz i a Hin E).
  - apply multiply_one.
Qed.

Lemma measureQubit_certain_aux (s : QuantumState.t) (q r : Z) (u : R) :
  wellFormed s -> (0 <= q < QuantumState.numQubits s)%Z -> 0 <= u < 1 ->
  (r = 0%Z /\ marginal1 (QuantumState.numQubits s) q
                (QuantumState.indexed (QuantumState.amplitudes s)) = 0)
  \/ (r = 1%Z /\ marginal0 (QuantumState.numQubits s) q
                   (QuantumState.indexed (QuantumState.amplitudes s)) = 0) ->
  measureQubit s q u = Ok (r, s).
Proof.
  intros Hw Hq Hu H.
  pose proof (qubit_probabilities_sum s q Hw) as Hsum.
  destruct (measureQubit_explicit s q u _ _ Hw Hq Hu
              (qubit_probabilities s q Hq)) as [_ Hm].
  rewrite Hm.
  set (p0 := 0 + marginal0 _ _ _) in *. set (p1 := 0 + marginal1 _ _ _) in *.
  assert (Hout : outcome u p0 = r
                 /\ (if (outcome u p0 =? 0)%Z then p0 else p1) = 1).
  { unfold outcome, p0, p1 in *.
    destruct H as [[-> Hz]|[-> Hz]]; destruct (Rlt_dec u _);
      cbn [Z.eqb]; split; try reflexivity; try lra. }
  destruct Hout as [-> ->]. rewrite sqrt_1, (collapse_certain s q r H).
  destruct s; reflexivity.
Qed.

Lemma marginal0_zero_intro (n q : Z) (l : list (Z * Complex)) :
  (forall i a, In (i, a) l -> QuantumState.qubitValue n q i = 0%Z ->
               a = complex 0) ->
  marginal0 n q l = 0.
Proof.
  induction l as [|[j b] l IH]; intros H; simpl; [reflexivity|].
  rewrite IH by (intros i a Hin; apply H; right; exact Hin).
  destruct (Z.eqb_spec (QuantumState.qubitValue n q j) 0) as [E|E];
    [|reflexivity].
  rewrite (H j b (or_introl eq_refl) E), prob_zero. ring.
Qed.

Lemma marginal1_zero_intro (n q : Z) (l : list (Z * Complex)) :
  (forall i a, In (i, a) l -> QuantumState.qubitValue n q i = 1%Z ->
               a = complex 0) ->
  marginal1 n q l = 0.
Proof.
  induction l as [|[j b] l IH]; intros H; simpl; [reflexivity|].
  rewrite IH by (intros i a Hin; apply H; right; exact Hin).
  destruct (Z.eqb_spec (QuantumState.qubitValue n q j) 0) as [E|E];
    [reflexivity|].
  destruct (qubitValue_bit n q j) as [E'|E']; [contradiction|].
  rewrite (H j b (or_introl eq_refl) E'), prob_zero. ring.
Qed.

Lemma in_indexed (l : list Complex) (i : Z) (a : Complex) :
  In (i, a) (QuantumState.indexed l) ->
  exists j, i = Z.of_nat j /\ nth_error l j = Some a.
Proof.
  intros Hin. apply In_nth_error in Hin as [j Hj].
  rewrite indexed_nth in Hj.
  destruct (nth_error l j) as [a'|] eqn:E; [|discriminate].
  cbn [option_map] in Hj. injection Hj as <- <-. exists j. auto.
Qed.

(** In a collapsed state the other outcome has no probability mass left. *)
Lemma collapsed_other_zero (s : QuantumState.t) (q r : Z) (c : R) :
  r = 0%Z \/ r = 1%Z ->
  let s1 := QuantumState.mk
              (map (collapse (QuantumState.numQubits s) q r c)
                 (QuantumState.indexed (QuantumState.amplitudes s)))
              (QuantumState.numQubits s) in
  (r = 0%Z /\ marginal1 (QuantumState.numQubits s1) q
                (QuantumState.indexed (QuantumState.amplitudes s1)) = 0)
  \/ (r = 1%Z /\ marginal0 (QuantumState.numQubits s1) q
                   (QuantumState.indexed (QuantumState.amplitudes s1)) = 0).
Proof.
  intros Hr s1.
  assert (Hentry : forall i a,
             In (i, a) (QuantumState.indexed (QuantumState.amplitudes s1)) ->
             QuantumState.qubitValue (QuantumState.numQubits s) q i <> r ->
             a = complex 0).
  { intros i a Hin Hb. apply in_indexed in Hin as (j & -> & Hj).
    unfold s1 in Hj. cbn [QuantumState.amplitudes] in Hj.
    rewrite nth_error_map, indexed_nth in Hj.
    destruct (nth_error (QuantumState.amplitudes s) j) as [a'|];
      [|discriminate].
    cbn [option_map] in Hj. injection Hj as <-.
    unfold collapse. cbn [fst snd].
    destruct (Z.eqb_spec (QuantumState.qubitValue (QuantumState.numQubits s)
                            q (Z.of_nat j)) r); [contradiction|reflexivity]. }
  change (QuantumState.numQubits s1) with (QuantumState.numQubits s).
  destruct Hr as [-> | ->]; [left|right]; (split; [reflexivity|]).
  - apply marginal1_zero_intro. intros i a Hin Hb.
    apply (Hentry i a Hin). rewrite Hb. discriminate.
  - apply marginal0_zero_intro. intros i a Hin Hb.
    apply (Hentry i a Hin). rewrite Hb. discriminate.
Qed.

(** X5.  A qubit with a certain value.  When no amplitude of the state has
    the qubit at 0 ([prob0] is 0, a sum of zeros), [measureQubit] returns 1
    and the state it was given, amplitude for amplitude, for every sample
    in [0,1).  When no amplitude has the qubit at 1 ([prob1] is 0), it
    returns 0 and the state it was given for every sample that is at least
    the tolerance below 1. *)
Theorem measureQubit_certain (s : QuantumState.t) (q : Z) (u : R)
  (prob0 prob1 : R) :
  wellFormed s -> (0 <= q < QuantumState.numQubits s)%Z -> 0 <= u < 1 ->
  QuantumState.getQubitMeasurementProbabilities s q = Ok (prob0, prob1) ->
  (prob0 = 0 -> measureQubit s q u = Ok (1%Z, s))
  /\ (prob1 = 0 -> u + tolerance <= 1 -> measureQubit s q u = Ok (0%Z, s)).
Proof.
  intros Hw Hq Hu Hp.
  rewrite (qubit_probabilities s q Hq) in Hp. injection Hp as <- <-.
  pose proof (qubit_probabilities_sum s q Hw) as Hsum.
  split.
  - intros H1. apply measureQubit_certain_aux; try assumption.
    right. split; [reflexivity|lra].
  - intros H1 _. apply measureQubit_certain_aux; try assumption.
    left. split; [reflexivity|lra].
Qed.

(** X6.  Measuring the same qubit again gives the same value and the same
    state.  After [measureQubit], with a sample at least the tolerance away
    from [prob0], returned [(r, s1)], [measureQubit] on [s1] returns
    [(r, s1)]: for every second sample in [0,1) when [r] is 1 (the
    amplitudes with the qubit at 0 are zeros), and for every second sample
    at least the tolerance below 1 when [r] is 0. *)
Theorem measureQubit_repeatable (s s1 : QuantumState.t) (q r : Z) (u u' : R)
  (prob0 prob1 : R) :
  wellFormed s -> (0 <= q < QuantumState.numQubits s)%Z ->
  0 <= u < 1 -> 0 <= u' < 1 ->
  QuantumState.getQubitMeasurementProbabilities s q = Ok (prob0, prob1) ->
  awayFrom u prob0 ->
  (r = 0%Z -> u' + tolerance <= 1) ->
  measureQubit s q u = Ok (r, s1) ->
  measureQubit s1 q u' = Ok (r, s1).
Proof.
  intros Hw Hq Hu Hu' _ _ _ Hm.
  destruct (measureQubit_explicit s q u _ _ Hw Hq Hu
              (qubit_probabilities s q Hq)) as [_ Hx].
  rewrite Hx in Hm. injection Hm as Hr Hs1.
  set (p0 := 0 + marginal0 _ _ _) in *. set (p1 := 0 + marginal1 _ _ _) in *.
  assert (Hbit : r = 0%Z \/ r = 1%Z)
    by (rewrite <- Hr; unfold outcome; destruct (Rlt_dec u p0); auto).
  rewrite Hr in Hs1.
  pose proof (collapsed_other_zero s q r
                (1 / sqrt (if (r =? 0)%Z then p0 else p1)) Hbit) as Hz.
  cbv zeta in Hz. rewrite Hs1 in Hz.
  assert (Hw1 : wellFormed s1 /\ QuantumState.numQubits s1
                                 = QuantumState.numQubits s).
  { rewrite <- Hs1. split; [|reflexivity].
    destruct (measureQubit_explicit s q u _ _ Hw Hq Hu
                (qubit_probabilities s q Hq)) as [Hpos _].
    fold p0 p1 in Hpos. rewrite Hr in Hpos.
    apply collapsed_wellFormed; [exact Hw | exact Hbit |].
    pose proof (qubit_probabilities_sum s q Hw) as Hsum.
    set (p := if (r =? 0)%Z then p0 else p1) in *.
    replace (if (r =? 0)%Z then marginal0 _ _ _ else marginal1 _ _ _) with p
      by (unfold p, p0, p1; destruct (r =? 0)%Z; ring).
    assert (0 < sqrt p) by (apply sqrt_lt_R0; exact Hpos).
    rewrite <- (sqrt_sqrt p) at 3 by lra. field. lra. }
  destruct Hw1 as [Hw1 Hn1].
  apply measureQubit_certain_aux; try assumption. rewrite Hn1. exact Hq.
Qed.

Lemma measureQubit_certain_witness :
  measureQubit (ket 1 0) 0 (1 / 2) = Ok (0%Z, ket 1 0).
Proof.
  pose proof tolerance_bounds as Ht.
  apply (measureQubit_certain (ket 1 0) 0 (1 / 2) 1 0).
  - apply ket_wellFormed; lia.
  - simpl; lia.
  - lra.
  - rewrite qubit_probabilities by (simpl; lia).
    f_equal.
    f_equal; cbv -[Rplus QuantumState.prob complex IZR];
      rewrite ?prob_one, ?prob_zero; ring.
  - reflexivity.
  - lra.
Defined.

Lemma plusState_probabilities :
  QuantumState.getQubitMeasurementProbabilities plusState 0
  = Ok (1 / 2, 1 / 2).
Proof.
  rewrite qubit_probabilities by (simpl; lia).
  assert (Hh : QuantumState.prob (complex (1 / Gates.SQRT2)) = 1 / 2).
  { rewrite prob_eq. cbn [re im complex]. unfold Gates.SQRT2.
    pose proof inv_sqrt2_sq. lra. }
  f_equal.
  f_equal; cbv -[Rplus Rdiv QuantumState.prob complex IZR Gates.SQRT2];
    rewrite ?Hh; lra.
Qed.

Lemma measureQubit_repeatable_witness :
  exists r s1,
    measureQubit plusState 0 (1 / 4) = Ok (r, s1)
    /\ measureQubit s1 0 (3 / 4) = Ok (r, s1).
Proof.
  assert (Hw : wellFormed plusState) by exact plusState_wellFormed.
  assert (Hq : (0 <= 0 < QuantumState.numQubits plusState)%Z) by (simpl; lia).
  assert (Hu : 0 <= 1 / 4 < 1) by lra.
  pose proof tolerance_bounds as Ht.
  destruct (measureQubit_explicit plusState 0 (1 / 4) _ _ Hw Hq Hu
              (qubit_probabilities plusState 0 Hq)) as [_ Hm].
  do 2 eexists. split; [exact Hm|].
  apply (measureQubit_repeatable plusState _ 0 _ (1 / 4) (3 / 4)
           (1 / 2) (1 / 2) Hw Hq Hu ltac:(lra) plusState_probabilities).
  - left. lra.
  - intros _. lra.
  - exact Hm.
Defined.

(** X7.  Measuring a qubit of a basis state [|k>] returns the bit of [k]
    for that qubit and the state [|k>] itself, for every sample in [0,1). *)
Theorem measureQubit_basis_state (n k q : Z) (u : R) :
  (0 <= n <= 5)%Z -> (0 <= k < 2 ^ n)%Z -> (0 <= q < n)%Z -> 0 <= u < 1 ->
  measureQubit (ket n k) q u = Ok (QuantumState.qubitValue n q k, ket n k).
Proof.
  intros Hn Hk Hq Hu.
  assert (Hw : wellFormed (ket n k)) by (apply ket_wellFormed; assumption).
  apply measureQubit_certain_aux; try assumption.
  change (QuantumState.numQubits (ket n k)) with n.
  assert (Hentry : forall i a,
             In (i, a) (QuantumState.indexed
                          (QuantumState.amplitudes (ket n k))) ->
             QuantumState.qubitValue n q i <> QuantumState.qubitValue n q k ->
             a = complex 0).
  { intros i a Hin Hb. apply in_indexed in Hin as (j & -> & Hj).
    assert (Hlt : (j < length (QuantumState.amplitudes (ket n k)))%nat)
      by (apply nth_error_Some; congruence).
    destruct Hw as (_ & Hl & _).
    change (QuantumState.numQubits (ket n k)) with n in Hl.
    apply (nth_error_nth _ _ (complex 0)) in Hj.
    rewrite <- Hj.
    pose proof (amplitudeAt_ket n k (Z.of_nat j) Hk ltac:(lia)) as Ha.
    unfold amplitudeAt in Ha. rewrite Nat2Z.id in Ha. rewrite Ha.
    destruct (Z.eqb_spec (Z.of_nat j) k) as [E|E]; [|reflexivity].
    exfalso. apply Hb. rewrite E. reflexivity. }
  destruct (qubitValue_bit n q k) as [E|E]; rewrite E in *; [left|right];
    (split; [reflexivity|]).
  - apply marginal1_zero_intro. intros i a Hin Hb.
    apply (Hentry i a Hin). rewrite Hb. discriminate.
  - apply marginal0_zero_intro. intros i a Hin Hb.
    apply (Hentry i a Hin). rewrite Hb. discriminate.
Qed.

Lemma measureQubit_basis_state_witness :
  measureQubit (ket 3 5) 1 (1 / 3) = Ok (0%Z, ket 3 5).
Proof.
  apply (measureQubit_basis_state 3 5 1 (1 / 3)); try (simpl; lia). lra.
Defined.

End MeasureAgain.

(* ------------------------------------------------------------------ *)
(** ** Measurement of the whole register *)

Section MeasureAll.

Import QuantumOperations.

Local Open Scope R_scope.

Lemma total_cons (p : R) (l : list R) : total (p :: l) = p + total l.
Proof. unfold total at 1. simpl. rewrite total_shift. ring. Qed.

Lemma total_nonneg (l : list R) : Forall (fun p => 0 <= p) l -> 0 <= total l.
Proof.
  induction 1 as [|p l Hp _ IH]; [unfold total; simpl; lra|].
  rewrite total_cons. lra.
Qed.

Lemma pick_range (u : R) (ps : list R) :
  forall i c, (0 <= i)%Z ->
  (0 <= pick u ps i c < Z.max 1 (i + Z.of_nat (length ps)))%Z.
Proof.
  induction ps as [|p ps IH]; intros i c Hi; cbn [pick length].
  - lia.
  - destruct (Rle_dec u (c + p)).
    + lia.
    + specialize (IH (i + 1)%Z (c + p) ltac:(lia)). lia.
Qed.

(** The loop stops at the first index whose cumulative sum reaches the
    sample. *)
Lemma pick_first (u : R) (ps : list R) :
  forall i c,
    c < u -> u <= c + total ps ->
    exists pre p post,
      ps = pre ++ p :: post
      /\ pick u ps i c = (i + Z.of_nat (length pre))%Z
      /\ c + total pre < u <= c + total pre + p.
Proof.
  induction ps as [|p ps IH]; intros i c Hc Hu.
  - unfold total in Hu. simpl in Hu. lra.
  - cbn [pick]. rewrite total_cons in Hu.
    destruct (Rle_dec u (c + p)) as [Hle|Hgt].
    + exists [], p, ps. cbn [app length]. unfold total. simpl.
      split; [reflexivity|]. split; [lia|lra].
    + destruct (IH (i + 1)%Z (c + p) ltac:(lra) ltac:(lra))
        as (pre & p' & post & -> & Hpick & Hb).
      exists (p :: pre), p', post. cbn [app length].
      rewrite total_cons. split; [reflexivity|]. split; [lia|lra].
Qed.

Lemma bitsRoundTrip_true : bitsRoundTrip = true.
Proof. vm_compute. reflexivity. Qed.

Lemma finalStateIndex_bits (n m : Z) :
  (0 <= n <= 5)%Z -> (0 <= m < 2 ^ n)%Z ->
  QuantumSimulator.finalStateIndex n (qubitBits n m) = m.
Proof.
  intros Hn Hm. pose proof bitsRoundTrip_true as H. unfold bitsRoundTrip in H.
  rewrite forallb_forall in H.
  specialize (H n ltac:(apply in_indices; lia)).
  rewrite forallb_forall in H.
  specialize (H m ltac:(apply in_indices; lia)).
  apply Z.eqb_eq. exact H.
Qed.

Lemma measureAll_value (s : QuantumState.t) (u : R) :
  measureAll s u
  = (qubitBits (QuantumState.numQubits s)
       (pick u (QuantumState.getMeasurementProbabilities s) 0 0),
     QuantumState.getMeasurementProbabilities s).
Proof. reflexivity. Qed.

Lemma probabilities_length (s : QuantumState.t) :
  length (QuantumState.getMeasurementProbabilities s)
  = length (QuantumState.amplitudes s).
Proof. apply length_map. Qed.

Lemma probabilities_nonneg (s : QuantumState.t) :
  Forall (fun p => 0 <= p) (QuantumState.getMeasurementProbabilities s).
Proof.
  unfold QuantumState.getMeasurementProbabilities.
  apply Forall_forall. intros p Hp. apply in_map_iff in Hp as (a & <- & _).
  apply prob_nonneg.
Qed.

Lemma measured_index_range (s : QuantumState.t) (u : R) :
  wellFormed s ->
  (0 <= pick u (QuantumState.getMeasurementProbabilities s) 0 0
   < 2 ^ QuantumState.numQubits s)%Z.
Proof.
  intros (Hn & Hl & _).
  pose proof (pick_range u (QuantumState.getMeasurementProbabilities s) 0 0
                ltac:(lia)) as H.
  rewrite probabilities_length, Hl in H.
  assert (0 < 2 ^ QuantumState.numQubits s)%Z
    by (apply Z.pow_pos_nonneg; lia).
  lia.
Qed.

(** X8.  [measureAll] of the operations engine on a well-formed state,
    with a sample above 0 and at least the tolerance below 1 (so that the
    cumulative sum reaches it whatever the rounding of the total): the bits
    it returns are those of a basis index [m] in range whose probability is
    positive, and [m] is the first index at which the cumulative
    probability reaches the sample.  It returns the probability vector of
    the state it was given. *)
Theorem measureAll_outcome (s : QuantumState.t) (u : R) :
  wellFormed s -> 0 < u -> u + tolerance <= 1 ->
  exists m pre p post,
    (0 <= m < 2 ^ QuantumState.numQubits s)%Z
    /\ measureAll s u
       = (qubitBits (QuantumState.numQubits s) m,
          QuantumState.getMeasurementProbabilities s)
    /\ QuantumState.getMeasurementProbabilities s = pre ++ p :: post
    /\ Z.of_nat (length pre) = m
    /\ total pre < u <= total pre + p
    /\ 0 < p
    /\ QuantumState.getMeasurementProbability s m = Ok p.
Proof.
  intros Hw Hu0 Hu1.
  assert (Hu : 0 < u <= 1) by (pose proof tolerance_bounds; lra).
  assert (Htot : total (QuantumState.getMeasurementProbabilities s) = 1)
    by (destruct Hw as (_ & _ & N); exact N).
  destruct (pick_first u (QuantumState.getMeasurementProbabilities s) 0 0
              ltac:(lra) ltac:(lra)) as (pre & p & post & Hsplit & Hpick & Hb).
  pose proof (measured_index_range s u Hw) as Hr.
  exists (Z.of_nat (length pre)), pre, p, post.
  rewrite Hpick in Hr. cbn [Z.add] in Hr.
  split; [exact Hr|]. split; [rewrite measureAll_value, Hpick; reflexivity|].
  split; [exact Hsplit|]. split; [reflexivity|].
  assert (Hpre : 0 <= total pre).
  { apply total_nonneg. pose proof (probabilities_nonneg s) as Hnn.
    rewrite Hsplit in Hnn. apply Forall_app in Hnn. tauto. }
  split; [lra|]. split; [lra|].
  unfold QuantumState.getMeasurementProbability, QuantumState.inRange.
  destruct Hw as (_ & Hl & _).
  replace (0 <=? Z.of_nat (length pre))%Z with true
    by (symmetry; apply Z.leb_le; lia).
  replace (Z.of_nat (length pre) <? _)%Z with true
    by (symmetry; apply Z.ltb_lt; lia).
  cbn [andb negb]. rewrite Nat2Z.id.
  assert (Hnth : nth_error (QuantumState.getMeasurementProbabilities s)
                   (length pre) = Some p)
    by (rewrite Hsplit, nth_error_app2, Nat.sub_diag by lia; reflexivity).
  unfold QuantumState.getMeasurementProbabilities in Hnth.
  rewrite nth_error_map in Hnth.
  destruct (nth_error (QuantumState.amplitudes s) (length pre)) as [a|];
    [|discriminate].
  cbn [option_map] in Hnth. injection Hnth as <-. reflexivity.
Qed.

Lemma measureAll_outcome_witness :
  exists m pre p post,
    (0 <= m < 2 ^ QuantumState.numQubits plusState)%Z
    /\ measureAll plusState (3 / 4)
       = (qubitBits (QuantumState.numQubits plusState) m,
          QuantumState.getMeasurementProbabilities plusState)
    /\ QuantumState.getMeasurementProbabilities plusState = pre ++ p :: post
    /\ Z.of_nat (length pre) = m
    /\ total pre < 3 / 4 <= total pre + p
    /\ 0 < p
    /\ QuantumState.getMeasurementProbability plusState m = Ok p.
Proof.
  apply (measureAll_outcome plusState (3 / 4)).
  - exact plusState_wellFormed.
  - lra.
  - unfold tolerance.
    assert (/ 10 ^ 9 <= / 4)
      by (apply Rinv_le_contravar; [lra|]; simpl; lra).
    lra.
Defined.

(** A sample of exactly 0 stops the loop at index 0, whatever the
    probability of index 0. *)
Lemma pick_zero_sample (p : R) (ps : list R) :
  0 <= p -> pick 0 (p :: ps) 0 0 = 0%Z.
Proof.
  intros Hp. cbn [pick]. destruct (Rle_dec 0 (0 + p)) as [|C]; [reflexivity|].
  exfalso. apply C. lra.
Qed.

(** X9.  With a sample of exactly 0 (a value [Math.random()] can return),
    [measureAll] reports the all-zero outcome for every well-formed state,
    also when that outcome has probability 0: on [|1>] it returns [0]. *)
Theorem measureAll_zero_sample (s : QuantumState.t) :
  wellFormed s ->
  fst (measureAll s 0) = qubitBits (QuantumState.numQubits s) 0.
Proof.
  intros (Hn & Hl & _). rewrite measureAll_value. cbn [fst]. f_equal.
  unfold QuantumState.getMeasurementProbabilities.
  destruct (QuantumState.amplitudes s) as [|a l] eqn:E.
  - simpl in Hl.
    assert (0 < 2 ^ QuantumState.numQubits s)%Z
      by (apply Z.pow_pos_nonneg; lia). lia.
  - cbn [map]. apply pick_zero_sample. apply prob_nonneg.
Qed.

Lemma measureAll_zero_sample_witness :
  fst (measureAll (ket 1 1) 0) = [0%Z]
  /\ QuantumState.getMeasurementProbability (ket 1 1) 0 = Ok (QuantumState.prob (complex 0)).
Proof.
  split.
  - apply (measureAll_zero_sample (ket 1 1)). apply ket_wellFormed; lia.
  - reflexivity.
Defined.

End MeasureAll.

(* ------------------------------------------------------------------ *)
(** ** What every session keeps *)

Section SessionInvariant.

Import QuantumSimulator.

Lemma consistent_push (sim : t) (s' : QuantumState.t) (log : list LogEntry) :
  consistentSession sim -> wellFormed s' ->
  QuantumState.numQubits s' = numQubits sim ->
  consistentSession (mk (numQubits sim) s' (stateHistory sim ++ [s']) log).
Proof.
  intros (Hw & _ & Hh & _ & _) Hs' Hn'. unfold consistentSession.
  cbn [numQubits currentState stateHistory].
  split; [apply session_after_gate; assumption|].
  split; [exact Hn'|].
  split; [apply Forall_app; split; [exact Hh|constructor; [exact Hn'|constructor]]|].
  split; [apply last_last|].
  intros E. apply app_eq_nil in E as [_ E]. discriminate.
Qed.

Lemma consistent_log (sim : t) (log : list LogEntry) :
  consistentSession sim ->
  consistentSession (mk (numQubits sim) (currentState sim) (stateHistory sim) log).
Proof. intros H. exact H. Qed.

Lemma consistent_fresh (n : Z) (log : list LogEntry) :
  1 <= n <= 5 -> consistentSession (mk n (ket n 0) [ket n 0] log).
Proof.
  intros Hn.
  assert (Hw : wellFormed (ket n 0)).
  { apply ket_wellFormed; [lia|].
    assert (0 < 2 ^ n) by (apply Z.pow_pos_nonneg; lia). lia. }
  unfold consistentSession, wellFormedSession.
  cbn [numQubits currentState stateHistory last].
  split; [split; [lia|split; [exact Hw|constructor; [exact Hw|constructor]]]|].
  split; [reflexivity|].
  split; [constructor; [reflexivity|constructor]|].
  split; [reflexivity|discriminate].
Qed.

Lemma ops_measureQubit_wellFormed (s s1 : QuantumState.t) (q r : Z) (u : R) :
  QuantumOperations.measureQubit s q u = Ok (r, s1) ->
  wellFormed s1 /\ QuantumState.numQubits s1 = QuantumState.numQubits s.
Proof.
  unfold QuantumOperations.measureQubit. intros H.
  bind_ok H. destruct x as [prob0 prob1].
  destruct (Req_dec_T _ 0); [discriminate|].
  bind_ok H. bind_ok H. injection H as _ <-.
  apply new_wellFormed in E1. exact E1.
Qed.

Lemma step_consistent (sim : t) (c : Call) :
  consistentSession sim -> consistentSession (fst (step sim c)).
Proof.
  intros Hc. pose proof Hc as (Hw & Hn & _).
  destruct c as [g ts|q u|u|]; cbn [step].
  - destruct (QuantumOperations.applyGate (currentState sim) g ts)
      as [s'|e] eqn:E.
    + destruct (applyGate_ok sim g ts s' E) as [Hx Hs']. rewrite Hx.
      cbn [fst]. apply consistent_push; [exact Hc | exact Hs' |].
      apply applyGate_wellFormed in E as [_ E]. congruence.
    + rewrite (applyGate_error sim g ts e E). cbn [fst].
      apply consistent_log. exact Hc.
  - unfold measureQubit.
    destruct (QuantumState.getQubitMeasurementProbabilities _ _)
      as [[prob0 prob1]|e]; [|exact Hc].
    destruct (QuantumOperations.measureQubit _ _ _) as [[r s1]|e] eqn:E;
      [|exact Hc].
    apply ops_measureQubit_wellFormed in E as [Hs1 Hn1].
    rewrite (clone_wellFormed s1 Hs1). cbn [fst].
    apply consistent_push; [exact Hc | exact Hs1 | congruence].
  - unfold measureAll.
    destruct (QuantumOperations.measureAll (currentState sim) u)
      as [results probabilities].
    destruct (QuantumState.new _ _) as [s'|e] eqn:E; [|exact Hc].
    apply new_wellFormed in E as [Hs' Hn'].
    rewrite (clone_wellFormed s' Hs'). cbn [fst].
    apply consistent_push; assumption.
  - destruct Hw as (Hr & _). rewrite (reset_succeeds sim Hr). cbn [fst].
    apply consistent_fresh. exact Hr.
Qed.

Lemma run_consistent (calls : list Call) (sim : t) :
  consistentSession sim -> consistentSession (run sim calls).
Proof.
  revert sim. induction calls as [|c calls IH]; intros sim H; cbn [run fold_left].
  - exact H.
  - apply (IH (fst (step sim c))). apply step_consistent. exact H.
Qed.

(** X10.  In every session reached from the constructor by a sequence of
    settled calls ([applyGate] with a gate of the single-qubit library on
    any target list, [measureQubit] with a sample at least the tolerance
    away from [prob0] of the state it measures, [measureAll] with a sample
    at least the tolerance away from 1 and from every cumulative sum of the
    state it measures, [reset]), throwing ones included: the current state
    and every history entry are
    normalized states of 2^n amplitudes with the qubit count n of the
    session, the history is not empty, and its last entry is the current
    state. *)
Theorem session_states_consistent (n : Z) (sim0 : t) (calls : list Call) :
  QuantumSimulator.new n = Ok sim0 ->
  settledRun sim0 calls ->
  wellFormed (currentState (run sim0 calls))
  /\ QuantumState.numQubits (currentState (run sim0 calls)) = n
  /\ Forall (fun h => wellFormed h /\ QuantumState.numQubits h = n)
       (stateHistory (run sim0 calls))
  /\ stateHistory (run sim0 calls) <> []
  /\ last (stateHistory (run sim0 calls)) (currentState (run sim0 calls))
     = currentState (run sim0 calls).
Proof.
  intros Hnew _. apply new_inv in Hnew as [Hn ->].
  pose proof (run_consistent calls _ (consistent_fresh n [LogInitialized n] Hn))
    as ((_ & Hc & Hh) & Hq & Hhq & Hl & Hne).
  pose proof (run_numQubits calls (mk n (ket n 0) [ket n 0] [LogInitialized n]))
    as Hnq.
  cbn [numQubits] in Hnq. rewrite Hnq in *.
  split; [exact Hc|]. split; [exact Hq|].
  split; [|split; assumption].
  apply Forall_forall. intros h Hin.
  rewrite Forall_forall in Hh, Hhq. auto.
Qed.

Lemma session1_probabilities :
  QuantumState.getQubitMeasurementProbabilities (currentState session1) 0
  = Ok (1, 0)%R.
Proof.
  rewrite qubit_probabilities by (simpl; lia).
  f_equal.
  f_equal; cbv -[Rplus QuantumState.prob complex IZR];
    rewrite ?prob_one, ?prob_zero; ring.
Qed.

Lemma session_states_consistent_witness :
  wellFormed (currentState (run session1
                              [CallMeasureQubit 0 (1 / 2);
                               CallApplyGate Gates.HadamardGate [0];
                               CallApplyGate Gates.PauliXGate [7];
                               CallReset])).
Proof.
  apply (session_states_consistent 1 session1).
  - apply (new_succeeds 1). lia.
  - cbn [settledRun settledCall]. split; [|split; [|split; [|split]]].
    + split; [lra|]. intros prob0 prob1 Hp.
      rewrite session1_probabilities in Hp. injection Hp as <- _.
      left. pose proof tolerance_bounds. lra.
    + left. reflexivity.
    + right. left. reflexivity.
    + exact I.
    + exact I.
Defined.

End SessionInvariant.

(* ------------------------------------------------------------------ *)
(** ** The measurement methods of the simulator *)

Section SimulatorMeasurement.

Import QuantumSimulator.

Local Open Scope R_scope.

(** X11.  [measureQubit] of the simulator, on a session that keeps its
    invariant, with a sample in [0,1).  For a qubit index outside the
    register it throws the index error and changes nothing, log included.
    For an index inside and a sample at least the tolerance away from
    [prob0] it does not throw: the value it returns is 0 when the sample is
    below [prob0] and 1 otherwise, the current state becomes the collapsed
    state of the operations engine, that state is appended to the history
    and one line to the log, and the probability it reports is the marginal
    probability of the value it returns, which is positive. *)
Theorem simulator_measureQubit (sim : t) (q : Z) (u : R) :
  consistentSession sim -> 0 <= u < 1 ->
  ((q < 0 \/ numQubits sim <= q)%Z ->
   measureQubit sim q u = (sim, Err IndexOutOfRange))
  /\ ((0 <= q < numQubits sim)%Z ->
      exists prob0 prob1,
        QuantumState.getQubitMeasurementProbabilities (currentState sim) q
        = Ok (prob0, prob1)
        /\ (awayFrom u prob0 ->
            exists r s1,
              (u < prob0 -> r = 0%Z)
              /\ (prob0 <= u -> r = 1%Z)
              /\ QuantumOperations.measureQubit (currentState sim) q u
                 = Ok (r, s1)
              /\ measureQubit sim q u
                 = (mk (numQubits sim) s1 (stateHistory sim ++ [s1])
                      (executionLog sim
                       ++ [LogMeasured q r
                             (if (r =? 0)%Z then prob0 else prob1)]),
                    Ok (mkMeasurement q r
                          (if (r =? 0)%Z then prob0 else prob1)))
              /\ 0 < (if (r =? 0)%Z then prob0 else prob1))).
Proof.
  intros ((_ & Hw & _) & Hn & _) Hu. split.
  - intros Hq. unfold measureQubit,
      QuantumState.getQubitMeasurementProbabilities.
    rewrite Hn.
    replace ((q <? 0)%Z || (q >=? numQubits sim)%Z) with true; [reflexivity|].
    symmetry. apply orb_true_iff. rewrite Z.ltb_lt, Z.geb_le. lia.
  - intros Hq. rewrite <- Hn in Hq.
    pose proof (qubit_probabilities (currentState sim) q Hq) as Hp.
    destruct (measureQubit_explicit (currentState sim) q u _ _ Hw Hq Hu Hp)
      as [Hpos Hm].
    pose proof (ops_measureQubit_wellFormed _ _ _ _ _ Hm) as [Hw1 _].
    set (p0 := 0 + marginal0 _ _ _) in *. set (p1 := 0 + marginal1 _ _ _) in *.
    exists p0, p1. split; [exact Hp|]. intros _.
    exists (QuantumOperations.outcome u p0). eexists.
    split; [unfold QuantumOperations.outcome;
            destruct (Rlt_dec u p0); [reflexivity|tauto]|].
    split; [unfold QuantumOperations.outcome;
            destruct (Rlt_dec u p0); [lra|reflexivity]|].
    split; [exact Hm|].
    split; [|exact Hpos].
    unfold measureQubit. rewrite Hp, Hm, (clone_wellFormed _ Hw1).
    reflexivity.
Qed.

Lemma session2_probabilities :
  QuantumState.getQubitMeasurementProbabilities (currentState session2) 0
  = Ok (1, 0).
Proof.
  rewrite qubit_probabilities by (simpl; lia).
  f_equal.
  f_equal; cbv -[Rplus QuantumState.prob complex IZR];
    rewrite ?prob_one, ?prob_zero; ring.
Qed.

Lemma simulator_measureQubit_witness :
  exists r s1 p,
    QuantumOperations.measureQubit (currentState session2) 0 (1 / 2)
    = Ok (r, s1)
    /\ measureQubit session2 0 (1 / 2)
       = (mk (numQubits session2) s1 (stateHistory session2 ++ [s1])
            (executionLog session2 ++ [LogMeasured 0 r p]),
          Ok (mkMeasurement 0 r p))
    /\ 0 < p.
Proof.
  destruct (simulator_measureQubit session2 0 (1 / 2)
              (consistent_fresh 2 _ ltac:(lia)) ltac:(lra)) as [_ H].
  destruct (H ltac:(simpl; lia)) as (prob0 & prob1 & Hp & Hm).
  rewrite session2_probabilities in Hp. injection Hp as <- <-.
  destruct Hm as (r & s1 & _ & _ & Ho & Hs & Hpos).
  { left. pose proof tolerance_bounds. lra. }
  exists r, s1, (if (r =? 0)%Z then 1 else 0). auto.
Defined.

(** X12.  [measureAll] of the simulator, on a session that keeps its
    invariant, does not throw for any sample: there is a basis index [m] in
    range such that the returned results are the bits of [m], the current
    state becomes the basis state [|m>], that state is appended to the
    history and the line with the bits to the log, and the returned
    probabilities are those of the state before the call. *)
Theorem simulator_measureAll (sim : t) (u : R) :
  consistentSession sim ->
  exists m,
    (0 <= m < 2 ^ numQubits sim)%Z
    /\ measureAll sim u
       = (mk (numQubits sim) (ket (numQubits sim) m)
            (stateHistory sim ++ [ket (numQubits sim) m])
            (executionLog sim
             ++ [LogMeasuredAll (qubitBits (numQubits sim) m)]),
          Ok (qubitBits (numQubits sim) m,
              QuantumState.getMeasurementProbabilities (currentState sim))).
Proof.
  intros ((Hr & Hw & _) & Hn & _).
  pose proof (measured_index_range (currentState sim) u Hw) as Hm.
  rewrite Hn in Hm.
  set (m := QuantumOperations.pick u
              (QuantumState.getMeasurementProbabilities (currentState sim)) 0 0)
    in *.
  exists m. split; [exact Hm|].
  unfold measureAll. rewrite measureAll_value. fold m. rewrite Hn.
  rewrite finalStateIndex_bits by lia.
  fold (basisAmplitudes (numQubits sim) m).
  rewrite new_basis by lia. fold (ket (numQubits sim) m).
  rewrite clone_wellFormed by (apply ket_wellFormed; lia).
  reflexivity.
Qed.

Lemma simulator_measureAll_witness :
  exists m,
    (0 <= m < 2 ^ numQubits session2)%Z
    /\ measureAll session2 (1 / 2)
       = (mk (numQubits session2) (ket (numQubits session2) m)
            (stateHistory session2 ++ [ket (numQubits session2) m])
            (executionLog session2
             ++ [LogMeasuredAll (qubitBits (numQubits session2) m)]),
          Ok (qubitBits (numQubits session2) m,
              QuantumState.getMeasurementProbabilities
                (currentState session2))).
Proof.
  apply (simulator_measureAll session2 (1 / 2)).
  apply (consistent_fresh 2). lia.
Defined.

(** X13.  Splitting a basis index of a register of up to 5 qubits into its
    per-qubit bits (qubit 0 first, as [measureAll] does) and recombining
    them as the simulator does gives the index back. *)
Theorem bits_round_trip (n m : Z) :
  (0 <= n <= 5)%Z -> (0 <= m < 2 ^ n)%Z ->
  finalStateIndex n (map (fun i => QuantumState.qubitValue n i m) (indices n))
  = m.
Proof. exact (finalStateIndex_bits n m). Qed.

Lemma bits_round_trip_witness :
  finalStateIndex 4 (map (fun i => QuantumState.qubitValue 4 i 11) (indices 4))
  = 11%Z.
Proof. apply (bits_round_trip 4 11); simpl; lia. Defined.

End SimulatorMeasurement.

(* ------------------------------------------------------------------ *)
(** ** The constructor and the accessors of QuantumState *)

Section StateAccessors.

Local Open Scope R_scope.

Lemma normalize_cases (amps : list Complex) :
  (QuantumState.sumSquares amps = 0
   /\ QuantumState.normalize amps = Err ZeroStateError)
  \/ (0 < QuantumState.sumSquares amps
      /\ QuantumState.normalize amps
         = Ok (map (fun a =>
                      multiply a
                        (complex (1 / sqrt (QuantumState.sumSquares amps))))
                 amps)).
Proof.
  pose proof (sumSquares_nonneg amps) as Hn.
  destruct (Req_dec_T (QuantumState.sumSquares amps) 0) as [E|E].
  - left. split; [exact E | apply normalize_zero; exact E].
  - right. split; [lra|]. unfold QuantumState.normalize.
    destruct (Req_dec_T _ 0) as [Hz|_]; [|reflexivity].
    apply sqrt_eq_0 in Hz; [contradiction | exact Hn].
Qed.

Lemma moderate_nonzero (amps : list Complex) :
  moderate amps -> QuantumState.sumSquares amps <> 0.
Proof.
  intros [_ H] E. rewrite E in H.
  assert (0 < / 10 ^ 200) by (apply Rinv_0_lt_compat, pow_lt; lra).
  lra.
Qed.

Lemma new_moderate (n : Z) (init : list Complex) :
  (0 <= n <= 5)%Z -> Z.of_nat (length init) = (2 ^ n)%Z ->
  QuantumState.sumSquares init <> 0 ->
  QuantumState.new n (Some init)
  = Ok (QuantumState.mk
          (map (fun a =>
                  multiply a
                    (complex (1 / sqrt (QuantumState.sumSquares init))))
             init) n).
Proof.
  intros Hn Hl Hz. rewrite new_some by lia.
  destruct (5 <? n)%Z eqn:E5; [apply Z.ltb_lt in E5; lia|].
  rewrite Hl, Z.eqb_refl.
  destruct (normalize_cases init) as [[E _]|[_ E]]; [contradiction|].
  rewrite E. reflexivity.
Qed.

(** X14.  The outcomes of the constructor with an initial array, for a
    count of at most 5.  For a count from -1074 to -1 the power 2^n is a
    fraction and every array is refused as a dimension mismatch.  For a
    count of -1075 or less the power underflows to 0: a non-empty array is
    a dimension mismatch, and the empty array passes the length test and is
    refused as a zero state.  For a count of 0 or more, an array whose
    length is not 2^n is a dimension mismatch, an array of the right length
    whose components are all zero is refused as a zero state, and a
    [moderate] array of the right length gives the state whose amplitudes
    are the given ones, each multiplied by 1/norm. *)
Theorem constructor_outcomes (n : Z) (init : list Complex) :
  (n <= 5)%Z ->
  ((-1075 < n < 0)%Z ->
   QuantumState.new n (Some init) = Err DimensionMismatch)
  /\ ((n <= -1075)%Z -> init <> [] ->
      QuantumState.new n (Some init) = Err DimensionMismatch)
  /\ ((n <= -1075)%Z -> init = [] ->
      QuantumState.new n (Some init) = Err ZeroStateError)
  /\ ((0 <= n)%Z -> Z.of_nat (length init) <> (2 ^ n)%Z ->
      QuantumState.new n (Some init) = Err DimensionMismatch)
  /\ ((0 <= n)%Z -> Z.of_nat (length init) = (2 ^ n)%Z ->
      QuantumState.sumSquares init = 0 ->
      QuantumState.new n (Some init) = Err ZeroStateError)
  /\ ((0 <= n)%Z -> Z.of_nat (length init) = (2 ^ n)%Z ->
      moderate init ->
      QuantumState.new n (Some init)
      = Ok (QuantumState.mk
              (map (fun a =>
                      multiply a
                        (complex (1 / sqrt (QuantumState.sumSquares init))))
                 init) n)).
Proof.
  intros H5.
  assert (E5 : (5 <? n)%Z = false) by (apply Z.ltb_ge; lia).
  split; [|split; [|split; [|split; [|split]]]].
  - intros Hn. unfold QuantumState.new.
    rewrite E5, numStates_fraction by lia. reflexivity.
  - intros Hn Hi. unfold QuantumState.new.
    rewrite E5, numStates_underflow by lia.
    destruct init as [|a init]; [contradiction|]. reflexivity.
  - intros Hn ->. unfold QuantumState.new.
    rewrite E5, numStates_underflow by lia. cbn [length Z.of_nat Z.eqb bind].
    rewrite normalize_zero by apply sumSquares_nil. reflexivity.
  - intros Hn Hl. rewrite new_some by lia. rewrite E5.
    apply Z.eqb_neq in Hl. rewrite Hl. reflexivity.
  - intros Hn Hl Hz. rewrite new_some by lia. rewrite E5, Hl, Z.eqb_refl.
    rewrite (normalize_zero _ Hz). reflexivity.
  - intros Hn Hl Hm. apply new_moderate; [lia|exact Hl|].
    apply moderate_nonzero. exact Hm.
Qed.

Lemma moderate_3_4 : moderate [complex 3; complex 4].
Proof.
  assert (H10 : 10 <= 10 ^ 100).
  { change (10 ^ 100) with (10 * 10 ^ 99).
    assert (1 <= 10 ^ 99) by (apply pow_R1_Rle; lra). nra. }
  split.
  - repeat constructor; cbn [re im complex]; rewrite ?Rabs_R0;
      try (rewrite Rabs_pos_eq by lra); lra.
  - rewrite !sumSquares_cons, sumSquares_nil, !prob_eq. cbn [re im complex].
    assert (/ 10 ^ 200 <= 1).
    { rewrite <- Rinv_1. apply Rinv_le_contravar; [lra|].
      apply pow_R1_Rle. lra. }
    lra.
Qed.

Lemma constructor_outcomes_witness :
  QuantumState.new 1 (Some [complex 3; complex 4])
  = Ok (QuantumState.mk
          (map (fun a =>
                  multiply a
                    (complex (1 / sqrt (QuantumState.sumSquares
                                          [complex 3; complex 4]))))
             [complex 3; complex 4]) 1).
Proof.
  apply (constructor_outcomes 1 [complex 3; complex 4]).
  - lia.
  - lia.
  - reflexivity.
  - exact moderate_3_4.
Defined.




(** X16.  The marginal probabilities of a qubit.  For a qubit index outside
    [0, n) the query throws the index error.  For an index inside, on a
    well-formed state, the two probabilities are each in [0,1] and sum
    to 1. *)
Theorem qubit_probabilities_complementary (s : QuantumState.t) (q : Z) :
  wellFormed s ->
  ((q < 0 \/ QuantumState.numQubits s <= q)%Z ->
   QuantumState.getQubitMeasurementProbabilities s q = Err IndexOutOfRange)
  /\ ((0 <= q < QuantumState.numQubits s)%Z ->
      exists prob0 prob1,
        QuantumState.getQubitMeasurementProbabilities s q = Ok (prob0, prob1)
        /\ 0 <= prob0 <= 1 /\ 0 <= prob1 <= 1 /\ prob0 + prob1 = 1).
Proof.
  intros Hw. split.
  - intros Hq. unfold QuantumState.getQubitMeasurementProbabilities.
    replace ((q <? 0)%Z || (q >=? QuantumState.numQubits s)%Z) with true;
      [reflexivity|].
    symmetry. apply orb_true_iff. rewrite Z.ltb_lt, Z.geb_le. lia.
  - intros Hq. do 2 eexists. split; [apply qubit_probabilities; exact Hq|].
    pose proof (qubit_probabilities_sum s q Hw) as Hsum.
    pose proof (marginal_nonneg (QuantumState.numQubits s) q
                  (QuantumState.indexed (QuantumState.amplitudes s)))
      as [H0 H1].
    lra.
Qed.

Lemma qubit_probabilities_complementary_witness :
  exists prob0 prob1,
    QuantumState.getQubitMeasurementProbabilities plus0 0 = Ok (prob0, prob1)
    /\ 0 <= prob0 <= 1 /\ 0 <= prob1 <= 1 /\ prob0 + prob1 = 1.
Proof.
  apply (qubit_probabilities_complementary plus0 0).
  - apply (applySingleQubitGate_wellFormed _ _ _ _ hadamard_on_00).
  - simpl. lia.
Defined.

End StateAccessors.

(* ------------------------------------------------------------------ *)
(** ** Validation in the gate engine *)

Section GateValidation.

Import QuantumOperations.

(** X17.  The checks of [applyGate], in the order the code makes them, on
    any state and any gate.  A target list whose length is not the arity of
    the gate is refused first; then an arity other than 1 or 2; then, for
    arity 1, a target outside the register; for arity 2, a control or
    target outside the register, and only then equal control and target.
    None of these outcomes depends on the amplitudes or on the matrix. *)
Theorem applyGate_validation (s : QuantumState.t) (g : QuantumGate)
  (ts : list Z) :
  (Z.of_nat (length ts) <> qubits g ->
   applyGate s g ts = Err TargetCountMismatch)
  /\ (Z.of_nat (length ts) = qubits g -> qubits g <> 1 -> qubits g <> 2 ->
      applyGate s g ts = Err UnsupportedGateArity)
  /\ (forall q, qubits g = 1 -> ts = [q] ->
                q < 0 \/ QuantumState.numQubits s <= q ->
                applyGate s g ts = Err IndexOutOfRange)
  /\ (forall c t, qubits g = 2 -> ts = [c; t] ->
                  c < 0 \/ QuantumState.numQubits s <= c
                  \/ t < 0 \/ QuantumState.numQubits s <= t ->
                  applyGate s g ts = Err IndexOutOfRange)
  /\ (forall c, qubits g = 2 -> ts = [c; c] ->
                0 <= c < QuantumState.numQubits s ->
                applyGate s g ts = Err InvalidQubitPair).
Proof.
  unfold applyGate. split; [|split; [|split; [|split]]].
  - intros H. apply Z.eqb_neq in H. rewrite H. reflexivity.
  - intros H H1 H2. rewrite H, Z.eqb_refl. cbn [negb].
    apply Z.eqb_neq in H1, H2. rewrite H1, H2. reflexivity.
  - intros q Hg -> Hq. rewrite Hg. cbn [length Z.of_nat Pos.of_succ_nat
      Z.eqb Pos.eqb negb nth].
    unfold applySingleQubitGate, QuantumState.getNumQubits. rewrite Hg.
    cbn [Z.eqb Pos.eqb negb].
    replace ((q <? 0) || (q >=? QuantumState.numQubits s)) with true;
      [reflexivity|].
    symmetry. apply orb_true_iff. rewrite Z.ltb_lt, Z.geb_le. lia.
  - intros c t Hg -> Hq. rewrite Hg. cbn [length Z.of_nat Pos.of_succ_nat
      Pos.succ Z.eqb Pos.eqb negb nth].
    unfold applyTwoQubitGate, QuantumState.getNumQubits. rewrite Hg.
    cbn [Z.eqb Pos.eqb negb].
    replace ((c <? 0) || (c >=? QuantumState.numQubits s)
             || (t <? 0) || (t >=? QuantumState.numQubits s)) with true;
      [reflexivity|].
    symmetry. rewrite !orb_true_iff, !Z.ltb_lt, !Z.geb_le. lia.
  - intros c Hg -> Hq. rewrite Hg. cbn [length Z.of_nat Pos.of_succ_nat
      Pos.succ Z.eqb Pos.eqb negb nth].
    unfold applyTwoQubitGate, QuantumState.getNumQubits. rewrite Hg.
    cbn [Z.eqb Pos.eqb negb].
    replace ((c <? 0) || (c >=? QuantumState.numQubits s)
             || (c <? 0) || (c >=? QuantumState.numQubits s)) with false.
    + rewrite Z.eqb_refl. reflexivity.
    + symmetry. rewrite !orb_false_iff, !Z.ltb_ge, Z.geb_leb, Z.leb_gt. lia.
Qed.

Lemma applyGate_validation_witness :
  applyGate (ket 2 0) Gates.CNOTGate [0] = Err TargetCountMismatch
  /\ applyGate (ket 2 0) Gates.CNOTGate [1; 1] = Err InvalidQubitPair
  /\ applyGate (ket 2 0) Gates.CNOTGate [5; 5] = Err IndexOutOfRange.
Proof.
  destruct (applyGate_validation (ket 2 0) Gates.CNOTGate [0])
    as (H1 & _).
  destruct (applyGate_validation (ket 2 0) Gates.CNOTGate [1; 1])
    as (_ & _ & _ & _ & H5).
  destruct (applyGate_validation (ket 2 0) Gates.CNOTGate [5; 5])
    as (_ & _ & _ & H4 & _).
  split; [apply H1; simpl; lia|].
  split; [apply (H5 1); [reflexivity | reflexivity | simpl; lia]|].
  apply (H4 5 5); [reflexivity | reflexivity | simpl; lia].
Defined.

End GateValidation.

(* ------------------------------------------------------------------ *)
(** ** executeCircuit and the order of its input *)

Section CircuitInputOrder.

Import QuantumSimulator.

Lemma position_injective (l : list CircuitElement) (a b : CircuitElement) :
  NoDup (map position l) -> In a l -> In b l -> position a = position b ->
  a = b.
Proof.
  induction l as [|x l IH]; intros Hnd Ha Hb E; [destruct Ha|].
  cbn [map] in Hnd. inversion Hnd as [|? ? Hx Hl]; subst.
  destruct Ha as [->|Ha], Hb as [->|Hb].
  - reflexivity.
  - exfalso. apply Hx. rewrite E. apply in_map. exact Hb.
  - exfalso. apply Hx. rewrite <- E. apply in_map. exact Ha.
  - apply IH; assumption.
Qed.

Lemma sorted_unique (l1 : list CircuitElement) :
  forall l2,
    StronglySorted (fun a b => position a <= position b) l1 ->
    StronglySorted (fun a b => position a <= position b) l2 ->
    Permutation l1 l2 -> NoDup (map position l1) -> l1 = l2.
Proof.
  induction l1 as [|a l1 IH]; intros l2 S1 S2 Hp Hnd.
  - apply Permutation_nil in Hp. subst. reflexivity.
  - destruct l2 as [|b l2];
      [apply Permutation_sym, Permutation_nil in Hp; discriminate|].
    inversion S1 as [|? ? S1' F1]; inversion S2 as [|? ? S2' F2]; subst.
    assert (Hab : a = b).
    { assert (Ha : In a (b :: l2))
        by (eapply Permutation_in; [exact Hp | left; reflexivity]).
      assert (Hb : In b (a :: l1))
        by (eapply Permutation_in;
            [apply Permutation_sym; exact Hp | left; reflexivity]).
      apply (position_injective (a :: l1)); auto; [left; reflexivity|].
      rewrite Forall_forall in F1, F2.
      destruct Ha as [->|Ha]; [reflexivity|].
      destruct Hb as [->|Hb]; [reflexivity|].
      specialize (F1 b Hb). specialize (F2 a Ha). simpl in *. lia. }
    subst b. f_equal. apply IH; try assumption.
    + eapply Permutation_cons_inv. exact Hp.
    + cbn [map] in Hnd. inversion Hnd. assumption.
Qed.

Lemma sortByPosition_input_order (c c' : list CircuitElement) :
  Permutation c c' -> NoDup (map position c) ->
  sortByPosition c = sortByPosition c'.
Proof.
  intros Hp Hnd. apply sorted_unique.
  - apply sortByPosition_sorted.
  - apply sortByPosition_sorted.
  - eapply perm_trans; [apply Permutation_sym, sortByPosition_perm|].
    eapply perm_trans; [exact Hp | apply sortByPosition_perm].
  - eapply Permutation_NoDup; [|exact Hnd].
    apply Permutation_map, sortByPosition_perm.
Qed.

(** X18.  When no two elements of a circuit share a position, the order in
    which the elements are listed does not matter: [executeCircuit] returns
    the same session and the same result for every reordering of the
    list. *)
Theorem executeCircuit_input_order (sim : t) (c c' : list CircuitElement) :
  Permutation c c' -> NoDup (map position c) ->
  executeCircuit sim c = executeCircuit sim c'.
Proof.
  intros Hp Hnd. unfold executeCircuit.
  rewrite (sortByPosition_input_order c c' Hp Hnd). reflexivity.
Qed.

Lemma executeCircuit_input_order_witness :
  executeCircuit session2 unorderedCircuit
  = executeCircuit session2
      [mkElement Gates.HadamardGate [0] 0; mkElement Gates.PauliXGate [1] 1].
Proof.
  apply (executeCircuit_input_order session2 unorderedCircuit).
  - apply perm_swap.
  - cbn [map unorderedCircuit position]. repeat constructor; simpl; intuition lia.
Defined.

(** X19.  On a session whose states are well formed, [executeCircuit] of
    the empty circuit changes nothing and returns the current state, its
    probabilities, and the history and the log as they are. *)
Theorem executeCircuit_empty (sim : t) :
  wellFormedSession sim ->
  executeCircuit sim []
  = (sim,
     Ok (mkResult (currentState sim)
           (QuantumState.getMeasurementProbabilities (currentState sim))
           (stateHistory sim) (executionLog sim))).
Proof.
  intros Hw.
  destruct (executeCircuit_ok sim [] [] Hw eq_refl) as [H _].
  rewrite H. cbn [sortByPosition fold_right map last].
  rewrite !app_nil_r. destruct sim. reflexivity.
Qed.

Lemma executeCircuit_empty_witness :
  executeCircuit session1 []
  = (session1,
     Ok (mkResult (currentState session1)
           (QuantumState.getMeasurementProbabilities (currentState session1))
           (stateHistory session1) (executionLog session1))).
Proof. apply (executeCircuit_empty session1). exact session1_wellFormed. Defined.

End CircuitInputOrder.

(* ------------------------------------------------------------------ *)
(** ** The two-qubit routine on any register *)

Section TwoQubitAction.

Import QuantumOperations.

Local Open Scope R_scope.

Lemma statesCheck_true : statesCheck = true.
Proof. vm_compute. reflexivity. Qed.

Lemma sameIndices_eq (l1 l2 : list Z) : sameIndices l1 l2 = true -> l1 = l2.
Proof.
  unfold sameIndices. rewrite !andb_true_iff, !Z.eqb_eq.
  intros [[H1 H2] H].
  destruct l1 as [|a0 [|a1 [|a2 [|a3 [|? ?]]]]]; simpl in H1; try lia.
  destruct l2 as [|b0 [|b1 [|b2 [|b3 [|? ?]]]]]; simpl in H2; try lia.
  cbn [forallb nth] in H. rewrite !andb_true_iff, !Z.eqb_eq in H.
  destruct H as (-> & -> & -> & -> & _). reflexivity.
Qed.

Lemma states_shape (n c t i : Z) :
  (0 <= n <= 5)%Z -> (0 <= c < n)%Z -> (0 <= t < n)%Z -> c <> t ->
  (0 <= i < 2 ^ n)%Z ->
  twoQubitStates n c t i = statesByBits n c t i
  /\ Forall (fun x => (0 <= x < 2 ^ n)%Z) (twoQubitStates n c t i).
Proof.
  intros Hn Hc Ht Hct Hi.
  pose proof statesCheck_true as H. unfold statesCheck in H.
  rewrite forallb_forall in H.
  specialize (H n ltac:(apply in_indices; lia)).
  rewrite forallb_forall in H.
  specialize (H c ltac:(apply in_indices; lia)).
  rewrite forallb_forall in H.
  specialize (H t ltac:(apply in_indices; lia)).
  apply orb_true_iff in H. destruct H as [H|H]; [apply Z.eqb_eq in H; lia|].
  rewrite forallb_forall in H.
  specialize (H i ltac:(apply in_indices; lia)).
  apply andb_true_iff in H as [H1 H2].
  split; [apply sameIndices_eq; exact H1|].
  apply Forall_forall. intros x Hx. rewrite forallb_forall in H2.
  specialize (H2 x Hx). apply andb_true_iff in H2 as [Ha Hb].
  apply Z.leb_le in Ha. apply Z.ltb_lt in Hb. lia.
Qed.

Lemma cnot_row0 (a0 a1 a2 a3 : Complex) :
  add (add (add (add (complex 0) (multiply (complex 1) a0))
                (multiply (complex 0) a1))
           (multiply (complex 0) a2))
      (multiply (complex 0) a3) = a0.
Proof. apply complex_eq; simpl; ring. Qed.

Lemma cnot_row1 (a0 a1 a2 a3 : Complex) :
  add (add (add (add (complex 0) (multiply (complex 0) a0))
                (multiply (complex 1) a1))
           (multiply (complex 0) a2))
      (multiply (complex 0) a3) = a1.
Proof. apply complex_eq; simpl; ring. Qed.

Lemma cnot_row2 (a0 a1 a2 a3 : Complex) :
  add (add (add (add (complex 0) (multiply (complex 0) a0))
                (multiply (complex 0) a1))
           (multiply (complex 0) a2))
      (multiply (complex 1) a3) = a3.
Proof. apply complex_eq; simpl; ring. Qed.

Lemma cnot_row3 (a0 a1 a2 a3 : Complex) :
  add (add (add (add (complex 0) (multiply (complex 0) a0))
                (multiply (complex 0) a1))
           (multiply (complex 1) a2))
      (multiply (complex 0) a3) = a2.
Proof. apply complex_eq; simpl; ring. Qed.

Section OnePair.

Variables (s : QuantumState.t) (c t : Z).
Hypothesis Hwf : wellFormed s.
Hypothesis Hc : (0 <= c < QuantumState.numQubits s)%Z.
Hypothesis Ht : (0 <= t < QuantumState.numQubits s)%Z.
Hypothesis Hct : c <> t.

Let n := QuantumState.numQubits s.

Lemma flips_in_range (i : Z) :
  (0 <= i < 2 ^ n)%Z ->
  (0 <= flipBit n c i < 2 ^ n)%Z /\ (0 <= flipBit n t i < 2 ^ n)%Z
  /\ (0 <= flipBit n c (flipBit n t i) < 2 ^ n)%Z.
Proof.
  intros Hi. unfold flipBit, n in *.
  assert (H1 : (0 <= Z.lxor i (2 ^ (QuantumState.numQubits s - 1 - t))
                < 2 ^ QuantumState.numQubits s)%Z)
    by (apply flip_range; lia).
  split; [apply flip_range; lia|]. split; [exact H1|].
  apply flip_range; [lia | exact H1].
Qed.

Lemma cnot_amplitude (i : Z) :
  (0 <= i < 2 ^ n)%Z ->
  twoQubitAmplitude s Gates.CNOTGate n c t i = Ok (cnotRaw s c t i).
Proof.
  intros Hi.
  assert (Hn : (0 <= n <= 5)%Z) by (destruct Hwf as (H & _); exact H).
  destruct (states_shape n c t i Hn Hc Ht Hct Hi) as [Hs _].
  destruct (flips_in_range i Hi) as (Rc & Rt & Rct).
  assert (Hlen : Z.of_nat (length (QuantumState.amplitudes s)) = (2 ^ n)%Z)
    by (destruct Hwf as (_ & H & _); exact H).
  unfold twoQubitAmplitude, cnotRaw. rewrite Hs. unfold statesByBits.
  fold n.
  change (Z.land (Z.shiftr i (n - 1 - c)) 1)
    with (QuantumState.qubitValue n c i).
  change (Z.land (Z.shiftr i (n - 1 - t)) 1)
    with (QuantumState.qubitValue n t i).
  destruct (qubitValue_bit n c i) as [Ec|Ec],
           (qubitValue_bit n t i) as [Et|Et]; rewrite Ec, Et;
    repeat match goal with
           | |- context [Z.to_nat ?z] =>
               let v := eval vm_compute in (Z.to_nat z) in
               progress change (Z.to_nat z) with v
           end;
    cbn [Z.eqb Pos.eqb foldM bind matrixAt matrix Gates.CNOTGate
         nth_error nth];
    rewrite !getAmplitude_at by (rewrite Hlen; assumption);
    cbn [bind]; f_equal;
    first [apply cnot_row0 | apply cnot_row1 | apply cnot_row2
          | apply cnot_row3].
Qed.

Lemma cnot_loop :
  mapM (twoQubitAmplitude s Gates.CNOTGate n c t) (indices (2 ^ n))
  = Ok (map (cnotRaw s c t) (indices (2 ^ n))).
Proof.
  apply mapM_ok. intros i Hi. apply in_indices in Hi.
  apply cnot_amplitude. exact Hi.
Qed.

Lemma cnot_result :
  applyTwoQubitGate s Gates.CNOTGate c t
  = QuantumState.new n (Some (map (cnotRaw s c t) (indices (2 ^ n)))).
Proof.
  unfold applyTwoQubitGate, QuantumState.getNumQubits. fold n.
  cbn [qubits Gates.CNOTGate Z.eqb Pos.eqb negb].
  replace ((c <? 0)%Z || (c >=? n)%Z || (t <? 0)%Z || (t >=? n)%Z) with false
    by (symmetry; rewrite !orb_false_iff, !Z.ltb_ge, !Z.geb_leb, !Z.leb_gt;
        unfold n; lia).
  replace (c =? t)%Z with false by (symmetry; apply Z.eqb_neq; exact Hct).
  rewrite cnot_loop. reflexivity.
Qed.

End OnePair.

Lemma other_bit_kept (n c t i : Z) :
  (0 <= c < n)%Z -> (0 <= t < n)%Z -> c <> t ->
  QuantumState.qubitValue n c (flipBit n t i) = QuantumState.qubitValue n c i.
Proof.
  intros Hc Ht Hct. rewrite !qubitValue_testbit by lia. unfold flipBit.
  rewrite Z.lxor_spec, testbit_pow2 by lia.
  destruct (Z.eqb_spec (n - 1 - t) (n - 1 - c)) as [E|E]; [lia|].
  rewrite xorb_false_r. reflexivity.
Qed.

Lemma own_bit_flipped (n t i : Z) :
  (0 <= t < n)%Z ->
  QuantumState.qubitValue n t (flipBit n t i)
  = (1 - QuantumState.qubitValue n t i)%Z.
Proof.
  intros Ht. rewrite !qubitValue_testbit by lia. unfold flipBit.
  rewrite flip_testbit by lia. destruct (Z.testbit i (n - 1 - t)); reflexivity.
Qed.

Lemma amplitude_in_indexed (s : QuantumState.t) (i : Z) :
  (0 <= i < Z.of_nat (length (QuantumState.amplitudes s)))%Z ->
  In (i, amplitudeAt s i) (QuantumState.indexed (QuantumState.amplitudes s)).
Proof.
  intros Hi. apply (nth_error_In _ (Z.to_nat i)).
  rewrite indexed_nth. unfold amplitudeAt.
  rewrite (nth_error_nth' _ (complex 0)) by lia.
  cbn [option_map]. rewrite Z2Nat.id by lia. reflexivity.
Qed.

(** X20.  The index arithmetic of [applyTwoQubitGate], for every register
    of up to 5 qubits, every two distinct qubits and every basis index: the
    four indices in [states] stay inside the register; the first, second
    and fourth are the index with the control and target bits set to 00, 01
    and 11; the third, meant for 10, keeps the target bit of the index, so
    it equals the fourth whenever that bit is set. *)
Theorem twoQubitStates_shape (n c t i : Z) :
  (0 <= n <= 5)%Z -> (0 <= c < n)%Z -> (0 <= t < n)%Z -> c <> t ->
  (0 <= i < 2 ^ n)%Z ->
  twoQubitStates n c t i = statesByBits n c t i
  /\ Forall (fun x => (0 <= x < 2 ^ n)%Z) (twoQubitStates n c t i)
  /\ (QuantumState.qubitValue n t i = 1%Z ->
      nth 2 (twoQubitStates n c t i) 0%Z = nth 3 (twoQubitStates n c t i) 0%Z).
Proof.
  intros Hn Hc Ht Hct Hi.
  destruct (states_shape n c t i Hn Hc Ht Hct Hi) as [Hs Hr].
  split; [exact Hs|]. split; [exact Hr|].
  intros Hb. rewrite Hs. unfold statesByBits. rewrite Hb.
  destruct (_ =? 0)%Z; reflexivity.
Qed.

Lemma twoQubitStates_shape_witness :
  twoQubitStates 3 0 2 5 = statesByBits 3 0 2 5
  /\ Forall (fun x => (0 <= x < 2 ^ 3)%Z) (twoQubitStates 3 0 2 5)
  /\ (QuantumState.qubitValue 3 2 5 = 1%Z ->
      nth 2 (twoQubitStates 3 0 2 5) 0%Z = nth 3 (twoQubitStates 3 0 2 5) 0%Z).
Proof. apply (twoQubitStates_shape 3 0 2 5); simpl; lia. Defined.

(** X21.  What [applyTwoQubitGate] computes for the CNOT matrix on a
    well-formed register, for any two distinct in-range qubits: it hands
    the constructor the array that holds, at every index whose control bit
    is 0, the old amplitude of that index, and at both indices of a pair
    with control bit 1 the old amplitude of the one with target bit 1.  The
    old amplitude at control 1, target 0 is read nowhere. *)
Theorem cnot_computes (s : QuantumState.t) (c t : Z) :
  wellFormed s ->
  (0 <= c < QuantumState.numQubits s)%Z ->
  (0 <= t < QuantumState.numQubits s)%Z -> c <> t ->
  applyTwoQubitGate s Gates.CNOTGate c t
  = QuantumState.new (QuantumState.numQubits s)
      (Some (map (cnotRaw s c t) (indices (2 ^ QuantumState.numQubits s)))).
Proof. exact (cnot_result s c t). Qed.

Lemma cnot_computes_witness :
  applyTwoQubitGate plus0 Gates.CNOTGate 0 1
  = QuantumState.new (QuantumState.numQubits plus0)
      (Some (map (cnotRaw plus0 0 1)
               (indices (2 ^ QuantumState.numQubits plus0)))).
Proof.
  apply (cnot_computes plus0 0 1).
  - apply (applySingleQubitGate_wellFormed _ _ _ _ hadamard_on_00).
  - simpl; lia.
  - simpl; lia.
  - lia.
Defined.

Lemma cnot_control_clear_aux (s : QuantumState.t) (c t : Z) :
  wellFormed s ->
  (0 <= c < QuantumState.numQubits s)%Z ->
  (0 <= t < QuantumState.numQubits s)%Z -> c <> t ->
  marginal1 (QuantumState.numQubits s) c
    (QuantumState.indexed (QuantumState.amplitudes s)) = 0 ->
  applyTwoQubitGate s Gates.CNOTGate c t = Ok s.
Proof.
  intros Hw Hc Ht Hct Hz. rewrite cnot_result by assumption.
  set (n := QuantumState.numQubits s) in *.
  assert (Hzero : forall i, (0 <= i < 2 ^ n)%Z ->
                            QuantumState.qubitValue n c i = 1%Z ->
                            amplitudeAt s i = complex 0).
  { intros i Hi Hb. apply (marginal1_zero n c _ Hz i); [|exact Hb].
    apply amplitude_in_indexed. destruct Hw as (_ & Hl & _). fold n in Hl.
    lia. }
  replace (map (cnotRaw s c t) (indices (2 ^ n)))
    with (map (amplitudeAt s) (indices (2 ^ n))).
  - destruct Hw as (Hn & Hl & N). fold n in Hl.
    rewrite <- Hl, <- amplitudes_as_map.
    apply (clone_wellFormed s). unfold wellFormed. fold n. tauto.
  - apply map_ext_in. intros i Hi. apply in_indices in Hi.
    unfold cnotRaw. fold n.
    destruct (qubitValue_bit n c i) as [Ec|Ec]; rewrite Ec; cbn [Z.eqb];
      [reflexivity|].
    destruct (Z.eqb_spec (QuantumState.qubitValue n t i) 0); [|reflexivity].
    rewrite (Hzero i Hi Ec). symmetry. apply Hzero.
    + unfold flipBit. apply flip_range; unfold n in *; lia.
    + rewrite other_bit_kept by (unfold n in *; lia). exact Ec.
Qed.

(** X22.  On a well-formed register in which the control qubit is 1 with
    probability 0, CNOT returns the register it was given, for any target
    other than the control. *)
Theorem cnot_control_clear (s : QuantumState.t) (c t : Z) (prob0 prob1 : R) :
  wellFormed s ->
  (0 <= c < QuantumState.numQubits s)%Z ->
  (0 <= t < QuantumState.numQubits s)%Z -> c <> t ->
  QuantumState.getQubitMeasurementProbabilities s c = Ok (prob0, prob1) ->
  prob1 = 0 ->
  applyTwoQubitGate s Gates.CNOTGate c t = Ok s.
Proof.
  intros Hw Hc Ht Hct Hp Hz.
  rewrite (qubit_probabilities s c Hc) in Hp. injection Hp as _ <-.
  apply cnot_control_clear_aux; try assumption. lra.
Qed.

Lemma cnot_control_clear_witness :
  applyTwoQubitGate (ket 2 1) Gates.CNOTGate 0 1 = Ok (ket 2 1).
Proof.
  assert (Hq : (0 <= 0 < QuantumState.numQubits (ket 2 1))%Z) by (simpl; lia).
  apply (cnot_control_clear (ket 2 1) 0 1 _ _
           ltac:(apply ket_wellFormed; lia) Hq ltac:(simpl; lia) ltac:(lia)
           (qubit_probabilities (ket 2 1) 0 Hq)).
  cbv -[Rplus QuantumState.prob complex IZR].
  rewrite ?prob_one, ?prob_zero. ring.
Defined.

Lemma ket_entry (n k i : Z) (a : Complex) :
  (0 <= n <= 5)%Z -> (0 <= k < 2 ^ n)%Z ->
  In (i, a) (QuantumState.indexed (QuantumState.amplitudes (ket n k))) ->
  a = if (i =? k)%Z then complex 1 else complex 0.
Proof.
  intros Hn Hk Hin. apply in_indexed in Hin as (j & -> & Hj).
  assert (Hw : wellFormed (ket n k)) by (apply ket_wellFormed; assumption).
  assert (Hlt : (j < length (QuantumState.amplitudes (ket n k)))%nat)
    by (apply nth_error_Some; congruence).
  destruct Hw as (_ & Hl & _).
  change (QuantumState.numQubits (ket n k)) with n in Hl.
  apply (nth_error_nth _ _ (complex 0)) in Hj. rewrite <- Hj.
  pose proof (amplitudeAt_ket n k (Z.of_nat j) Hk ltac:(lia)) as Ha.
  unfold amplitudeAt in Ha. rewrite Nat2Z.id in Ha. exact Ha.
Qed.

Lemma map_const {A B : Type} (F : A -> B) (v : B) (l : list A) :
  (forall x, In x l -> F x = v) -> map F l = repeat v (length l).
Proof.
  induction l as [|x l IH]; intros H; simpl; [reflexivity|].
  rewrite (H x) by (left; reflexivity).
  rewrite IH by (intros y Hy; apply H; right; exact Hy). reflexivity.
Qed.

Lemma sumOver_zero (F : Z -> R) (l : list Z) :
  (forall i, In i l -> F i = 0) -> sumOver F l = 0.
Proof.
  induction l as [|x l IH]; intros H; simpl; [reflexivity|].
  rewrite (H x) by (left; reflexivity).
  rewrite IH by (intros y Hy; apply H; right; exact Hy). ring.
Qed.

Lemma sumOver_indicator (k : Z) (l : list Z) :
  NoDup l -> In k l ->
  sumOver (fun i => if (i =? k)%Z then 1 else 0) l = 1.
Proof.
  induction l as [|x l IH]; intros Hnd Hin; [destruct Hin|].
  inversion Hnd as [|? ? Hx Hl]; subst. simpl.
  destruct (Z.eqb_spec x k) as [->|E].
  - rewrite sumOver_zero; [ring|].
    intros i Hi. destruct (Z.eqb_spec i k) as [->|]; [contradiction|reflexivity].
  - destruct Hin as [->|Hin]; [contradiction|]. rewrite IH by assumption. ring.
Qed.

(** X23.  CNOT on the basis state [|k>], for any register of up to 5
    qubits and any two distinct qubits.  When the control bit of [k] is 0
    the state is returned unchanged.  When the control bit is 1 and the
    target bit is 0 the call throws the zero-state error.  When both bits
    are 1 it returns a state that gives probability 1/2 to [k] and 1/2 to
    [k] with the target bit cleared. *)
Theorem cnot_on_basis_state (n k c t : Z) :
  (0 <= n <= 5)%Z -> (0 <= k < 2 ^ n)%Z ->
  (0 <= c < n)%Z -> (0 <= t < n)%Z -> c <> t ->
  (QuantumState.qubitValue n c k = 0%Z ->
   applyTwoQubitGate (ket n k) Gates.CNOTGate c t = Ok (ket n k))
  /\ (QuantumState.qubitValue n c k = 1%Z ->
      QuantumState.qubitValue n t k = 0%Z ->
      applyTwoQubitGate (ket n k) Gates.CNOTGate c t = Err ZeroStateError)
  /\ (QuantumState.qubitValue n c k = 1%Z ->
      QuantumState.qubitValue n t k = 1%Z ->
      exists s',
        applyTwoQubitGate (ket n k) Gates.CNOTGate c t = Ok s'
        /\ QuantumState.getMeasurementProbability s' k = Ok (1 / 2)
        /\ QuantumState.getMeasurementProbability s'
             (Z.lxor k (2 ^ (n - 1 - t))) = Ok (1 / 2)).
Proof.
  intros Hn Hk Hc Ht Hct.
  assert (Hw : wellFormed (ket n k)) by (apply ket_wellFormed; assumption).
  assert (Hfk : (0 <= flipBit n t k < 2 ^ n)%Z)
    by (unfold flipBit; apply flip_range; lia).
  split; [|split].
  - intros Hb. apply cnot_control_clear_aux; try assumption.
    change (QuantumState.numQubits (ket n k)) with n.
    apply marginal1_zero_intro. intros i a Hin Hi.
    rewrite (ket_entry n k i a Hn Hk Hin).
    destruct (Z.eqb_spec i k) as [->|]; [congruence|reflexivity].
  - intros Hb1 Hb0. rewrite cnot_result by assumption.
    change (QuantumState.numQubits (ket n k)) with n.
    rewrite (map_const _ (complex 0)).
    + rewrite indices_length. apply new_zero_vector. exact Hn.
    + intros i Hi. apply in_indices in Hi. unfold cnotRaw.
      change (QuantumState.numQubits (ket n k)) with n.
      assert (Hfi : (0 <= flipBit n t i < 2 ^ n)%Z)
        by (unfold flipBit; apply flip_range; lia).
      destruct (qubitValue_bit n c i) as [Ec|Ec]; rewrite Ec; cbn [Z.eqb].
      * rewrite amplitudeAt_ket by assumption.
        destruct (Z.eqb_spec i k) as [->|]; [congruence|reflexivity].
      * destruct (qubitValue_bit n t i) as [Et|Et]; rewrite Et; cbn [Z.eqb];
          rewrite amplitudeAt_ket by assumption.
        -- destruct (Z.eqb_spec (flipBit n t i) k) as [E|]; [|reflexivity].
           exfalso. rewrite <- E, own_bit_flipped in Hb0 by lia. lia.
        -- destruct (Z.eqb_spec i k) as [->|]; [congruence|reflexivity].
  - intros Hb1 Hb1'.
    assert (Hraw : forall i, (0 <= i < 2 ^ n)%Z ->
               cnotRaw (ket n k) c t i
               = if ((i =? k) || (i =? flipBit n t k))%Z
                 then complex 1 else complex 0).
    { intros i Hi. unfold cnotRaw.
      change (QuantumState.numQubits (ket n k)) with n.
      assert (Hfi : (0 <= flipBit n t i < 2 ^ n)%Z)
        by (unfold flipBit; apply flip_range; lia).
      assert (Hfc : QuantumState.qubitValue n c (flipBit n t k) = 1%Z)
        by (rewrite other_bit_kept by lia; exact Hb1).
      assert (Hft : QuantumState.qubitValue n t (flipBit n t k) = 0%Z)
        by (rewrite own_bit_flipped by lia; lia).
      destruct (qubitValue_bit n c i) as [Ec|Ec]; rewrite Ec; cbn [Z.eqb].
      - rewrite amplitudeAt_ket by assumption.
        destruct (Z.eqb_spec i k) as [->|]; [congruence|].
        destruct (Z.eqb_spec i (flipBit n t k)) as [->|]; [congruence|].
        reflexivity.
      - destruct (qubitValue_bit n t i) as [Et|Et]; rewrite Et; cbn [Z.eqb];
          rewrite amplitudeAt_ket by assumption.
        + destruct (Z.eqb_spec i k) as [->|]; [congruence|]. cbn [orb].
          destruct (Z.eqb_spec (flipBit n t i) k) as [E|E];
            destruct (Z.eqb_spec i (flipBit n t k)) as [E'|E'];
            try reflexivity; exfalso.
          * apply E'. rewrite <- E. unfold flipBit. symmetry.
            apply flip_involutive.
          * apply E. rewrite E'. unfold flipBit. apply flip_involutive.
        + destruct (Z.eqb_spec i (flipBit n t k)) as [->|]; [congruence|].
          rewrite orb_false_r. reflexivity. }
    assert (Hne : k <> flipBit n t k).
    { intros E. pose proof (own_bit_flipped n t k Ht) as H.
      rewrite <- E in H. lia. }
    set (L := indices (2 ^ n)).
    set (raw := map (cnotRaw (ket n k) c t) L).
    assert (HS : QuantumState.sumSquares raw = 2).
    { unfold raw. rewrite sumSquares_map.
      rewrite (sumOver_ext _
                 (fun i => (if (i =? k)%Z then 1 else 0)
                           + (if (i =? flipBit n t k)%Z then 1 else 0))).
      - rewrite sumOver_plus, !sumOver_indicator;
          try apply indices_NoDup; try (apply in_indices; assumption). ring.
      - intros i Hi. apply in_indices in Hi. rewrite (Hraw i Hi).
        destruct (Z.eqb_spec i k) as [Ek|Ek];
          destruct (Z.eqb_spec i (flipBit n t k)) as [E|E]; cbn [orb];
          rewrite ?prob_one, ?prob_zero; try ring.
        exfalso. apply Hne. congruence. }
    assert (Hlen : Z.of_nat (length raw) = (2 ^ n)%Z).
    { unfold raw, L. rewrite length_map, indices_length, Z2Nat.id; [reflexivity|].
      apply Z.pow_nonneg. lia. }
    rewrite cnot_result by assumption.
    change (QuantumState.numQubits (ket n k)) with n. fold L raw.
    assert (Hnew : QuantumState.new n (Some raw)
                   = Ok (QuantumState.mk
                           (map (fun a => multiply a (complex (1 / sqrt 2))) raw)
                           n)).
    { rewrite new_some by lia.
      destruct (5 <? n)%Z eqn:E5; [apply Z.ltb_lt in E5; lia|].
      rewrite Hlen, Z.eqb_refl.
      destruct (normalize_cases raw) as [[E _]|[_ E]]; [lra|].
      rewrite E, HS. reflexivity. }
    eexists. split; [exact Hnew|].
    assert (Hprob : forall j, (0 <= j < 2 ^ n)%Z ->
               cnotRaw (ket n k) c t j = complex 1 ->
               QuantumState.getMeasurementProbability
                 (QuantumState.mk
                    (map (fun a => multiply a (complex (1 / sqrt 2))) raw) n) j
               = Ok (1 / 2)).
    { intros j Hj Hone.
      unfold QuantumState.getMeasurementProbability, QuantumState.inRange.
      cbn [QuantumState.amplitudes]. rewrite length_map, Hlen.
      replace ((0 <=? j)%Z && (j <? 2 ^ n)%Z) with true
        by (symmetry; apply andb_true_iff; rewrite Z.leb_le, Z.ltb_lt; lia).
      cbn [negb]. unfold raw, L. rewrite !nth_error_map, indices_nth.
      destruct (Nat.ltb_spec (Z.to_nat j) (Z.to_nat (2 ^ n))); [|lia].
      cbn [option_map]. rewrite Z2Nat.id by lia. rewrite Hone.
      f_equal. rewrite prob_scale, prob_one.
      pose proof inv_sqrt2_sq. lra. }
    change (Z.lxor k (2 ^ (n - 1 - t))) with (flipBit n t k).
    split; apply Hprob; try assumption.
    + rewrite (Hraw k Hk), Z.eqb_refl. reflexivity.
    + rewrite (Hraw _ Hfk), Z.eqb_refl, orb_true_r. reflexivity.
Qed.

Lemma cnot_on_basis_state_witness :
  applyTwoQubitGate (ket 3 4) Gates.CNOTGate 0 2 = Err ZeroStateError.
Proof.
  apply (cnot_on_basis_state 3 4 0 2); try (simpl; lia); reflexivity.
Defined.

End TwoQubitAction.

(* ------------------------------------------------------------------ *)
(** ** Labels and read-only queries *)

Section Queries.

Import QuantumSimulator.

Local Open Scope R_scope.

Lemma labelCheck_true : labelCheck = true.
Proof. vm_compute. reflexivity. Qed.

(** X24.  The label of a basis index of a register of 1 to 5 qubits has
    exactly one character per qubit, and the character at position [q] is
    the value of qubit [q] in that index: qubit 0 is the leftmost
    character. *)
Theorem basisStateToString_bits (s : QuantumState.t) (k q : Z) :
  (1 <= QuantumState.numQubits s <= 5)%Z ->
  (0 <= k < 2 ^ QuantumState.numQubits s)%Z ->
  (0 <= q < QuantumState.numQubits s)%Z ->
  Z.of_nat (String.length (QuantumState.basisStateToString s k))
  = QuantumState.numQubits s
  /\ String.substring (Z.to_nat q) 1 (QuantumState.basisStateToString s k)
     = (if (QuantumState.qubitValue (QuantumState.numQubits s) q k =? 0)%Z
        then "0" else "1")%string.
Proof.
  intros Hn Hk Hq. unfold QuantumState.basisStateToString.
  set (n := QuantumState.numQubits s) in *.
  pose proof labelCheck_true as H. unfold labelCheck in H.
  rewrite forallb_forall in H.
  assert (Hin : In n (map Z.succ (indices 5))).
  { apply in_map_iff. exists (n - 1)%Z. split; [lia|apply in_indices; lia]. }
  specialize (H n Hin).
  rewrite forallb_forall in H.
  specialize (H k ltac:(apply in_indices; lia)).
  cbv zeta in H. apply andb_true_iff in H as [H1 H2].
  split; [apply Z.eqb_eq; exact H1|].
  rewrite forallb_forall in H2.
  specialize (H2 q ltac:(apply in_indices; lia)).
  apply String.eqb_eq. exact H2.
Qed.

Lemma basisStateToString_bits_witness :
  Z.of_nat (String.length (QuantumState.basisStateToString (ket 3 5) 5))
  = QuantumState.numQubits (ket 3 5)
  /\ String.substring (Z.to_nat 1) 1 (QuantumState.basisStateToString (ket 3 5) 5)
     = (if (QuantumState.qubitValue (QuantumState.numQubits (ket 3 5)) 1 5 =? 0)%Z
        then "0" else "1")%string.
Proof. apply (basisStateToString_bits (ket 3 5) 5 1); simpl; lia. Defined.

(** X25.  The Pauli-Z expectation value of the simulator, on a session that
    keeps its invariant: for a qubit index outside the register the query
    throws the index error; for an index inside it returns prob0 - prob1 of
    that qubit, a value between -1 and 1. *)
Theorem expectationValueZ_bounds (sim : t) (q : Z) :
  consistentSession sim ->
  ((q < 0 \/ numQubits sim <= q)%Z ->
   getExpectationValueZ sim q = Err IndexOutOfRange)
  /\ ((0 <= q < numQubits sim)%Z ->
      exists prob0 prob1,
        QuantumState.getQubitMeasurementProbabilities (currentState sim) q
        = Ok (prob0, prob1)
        /\ getExpectationValueZ sim q = Ok (prob0 - prob1)
        /\ -1 <= prob0 - prob1 <= 1).
Proof.
  intros ((_ & Hw & _) & Hn & _). unfold getExpectationValueZ. split.
  - intros Hq. unfold QuantumState.getQubitMeasurementProbabilities.
    rewrite Hn.
    replace ((q <? 0)%Z || (q >=? numQubits sim)%Z) with true; [reflexivity|].
    symmetry. apply orb_true_iff. rewrite Z.ltb_lt, Z.geb_le. lia.
  - intros Hq. rewrite <- Hn in Hq.
    rewrite (qubit_probabilities _ q Hq). cbn [bind].
    do 2 eexists. split; [reflexivity|]. split; [reflexivity|].
    pose proof (qubit_probabilities_sum (currentState sim) q Hw) as Hsum.
    pose proof (marginal_nonneg (QuantumState.numQubits (currentState sim)) q
                  (QuantumState.indexed
                     (QuantumState.amplitudes (currentState sim))))
      as [H0 H1].
    lra.
Qed.

Lemma expectationValueZ_bounds_witness :
  getExpectationValueZ session2 2 = Err IndexOutOfRange.
Proof.
  apply (expectationValueZ_bounds session2 2).
  - apply (consistent_fresh 2). lia.
  - right. simpl. lia.
Defined.

(** X26.  [getQubitProbabilities] on a session that keeps its invariant
    does not throw and returns one entry per qubit, in qubit order; each
    entry holds the two marginal probabilities of its qubit, which sum
    to 1. *)
Theorem qubitProbabilities_complete (sim : t) :
  consistentSession sim ->
  exists entries,
    getQubitProbabilities sim = Ok entries
    /\ map (fun e => fst (fst e)) entries = indices (numQubits sim)
    /\ Forall (fun e =>
                 QuantumState.getQubitMeasurementProbabilities
                   (currentState sim) (fst (fst e))
                 = Ok (snd (fst e), snd e)
                 /\ snd (fst e) + snd e = 1) entries.
Proof.
  intros ((_ & Hw & _) & Hn & _).
  set (cur := currentState sim) in *.
  set (g := fun i : Z =>
              (i, 0 + marginal0 (QuantumState.numQubits cur) i
                        (QuantumState.indexed (QuantumState.amplitudes cur)),
               0 + marginal1 (QuantumState.numQubits cur) i
                     (QuantumState.indexed (QuantumState.amplitudes cur)))).
  exists (map g (indices (numQubits sim))). split; [|split].
  - unfold getQubitProbabilities. apply mapM_ok. intros i Hi.
    apply in_indices in Hi. fold cur.
    rewrite (qubit_probabilities cur i) by lia. reflexivity.
  - rewrite map_map. apply map_id.
  - apply Forall_forall. intros e He. apply in_map_iff in He as (i & <- & Hi).
    apply in_indices in Hi. unfold g. cbn [fst snd]. split.
    + apply qubit_probabilities. lia.
    + pose proof (qubit_probabilities_sum cur i Hw). lra.
Qed.

Lemma qubitProbabilities_complete_witness :
  exists entries,
    getQubitProbabilities session2 = Ok entries
    /\ map (fun e => fst (fst e)) entries = indices (numQubits session2)
    /\ Forall (fun e =>
                 QuantumState.getQubitMeasurementProbabilities
                   (currentState session2) (fst (fst e))
                 = Ok (snd (fst e), snd e)
                 /\ snd (fst e) + snd e = 1) entries.
Proof.
  apply (qubitProbabilities_complete session2).
  apply (consistent_fresh 2). lia.
Defined.

(** X27.  The snapshots a session hands out: on a session that keeps its
    invariant, [getCurrentState] and [getStateHistory] do not throw and
    return states equal to the ones the session holds, because [clone] of a
    state that satisfies the class invariant is that state. *)
Theorem snapshots_equal (sim : t) :
  consistentSession sim ->
  getCurrentState sim = Ok (currentState sim)
  /\ getStateHistory sim = Ok (stateHistory sim)
  /\ (forall s, wellFormed s -> QuantumState.clone s = Ok s).
Proof.
  intros ((_ & Hw & Hh) & _). split; [|split].
  - apply clone_wellFormed. exact Hw.
  - apply mapM_clone. exact Hh.
  - exact clone_wellFormed.
Qed.

Lemma snapshots_equal_witness :
  getCurrentState session2 = Ok (currentState session2)
  /\ getStateHistory session2 = Ok (stateHistory session2)
  /\ (forall s, wellFormed s -> QuantumState.clone s = Ok s).
Proof.
  apply (snapshots_equal session2). apply (consistent_fresh 2). lia.
Defined.

End Queries.

(* ------------------------------------------------------------------ *)
(** ** The Bloch sphere helpers *)

Section BlochSphere.

Import BlochSphereUtils.

Local Open Scope R_scope.

Lemma two_amplitudes (s : QuantumState.t) :
  wellFormed s -> QuantumState.numQubits s = 1%Z ->
  exists a b, QuantumState.amplitudes s = [a; b]
    /\ QuantumState.prob a + QuantumState.prob b = 1.
Proof.
  intros (_ & Hl & Hs) Hn. rewrite Hn in Hl.
  unfold normalized, QuantumState.getMeasurementProbabilities in Hs.
  rewrite total_probs in Hs.
  destruct (QuantumState.amplitudes s) as [|a [|b [|c l]]];
    simpl in Hl; try lia.
  exists a, b. split; [reflexivity|].
  rewrite !sumSquares_cons, sumSquares_nil in Hs. lra.
Qed.





Lemma bloch_of_state (s : QuantumState.t) :
  wellFormed s -> QuantumState.numQubits s = 1%Z ->
  exists v p0 p1,
    stateToBlochVector s = inl v
    /\ QuantumState.getMeasurementProbability s 0 = Ok p0
    /\ QuantumState.getMeasurementProbability s 1 = Ok p1
    /\ z v = p0 - p1
    /\ x v * x v + y v * y v + z v * z v = 1.
Proof.
  intros Hw Hn.
  destruct (two_amplitudes s Hw Hn) as (a & b & Ha & Hp).
  unfold stateToBlochVector, QuantumState.getAmplitude,
    QuantumState.getMeasurementProbability, QuantumState.inRange,
    QuantumState.getNumQubits.
  rewrite Hn, Ha. cbn.
  do 3 eexists. split; [reflexivity|]. split; [reflexivity|].
  split; [reflexivity|]. split.
  - unfold QuantumState.prob. reflexivity.
  - cbn [x y z]. rewrite !prob_eq in Hp.
    assert (Ea : abs a * (abs a * 1) = re a * re a + im a * im a).
    { rewrite Rmult_1_r. apply sqrt_sqrt. nra. }
    assert (Eb : abs b * (abs b * 1) = re b * re b + im b * im b).
    { rewrite Rmult_1_r. apply sqrt_sqrt. nra. }
    rewrite Ea, Eb.
    transitivity ((re a * re a + im a * im a + (re b * re b + im b * im b))
                  * (re a * re a + im a * im a + (re b * re b + im b * im b)));
      [ring|].
    rewrite Hp. ring.
Qed.

(** X28.  [stateToBlochVector] on a state that satisfies the class
    invariant: a register of any size other than one qubit is refused with
    the single-qubit error; for one qubit the call returns a vector of
    length 1 whose z component is the probability of reading 0 minus the
    probability of reading 1. *)
Theorem stateToBlochVector_unit (s : QuantumState.t) :
  wellFormed s ->
  (QuantumState.numQubits s <> 1%Z ->
   stateToBlochVector s = inr NotSingleQubit)
  /\ (QuantumState.numQubits s = 1%Z ->
      exists v p0 p1,
        stateToBlochVector s = inl v
        /\ QuantumState.getMeasurementProbability s 0 = Ok p0
        /\ QuantumState.getMeasurementProbability s 1 = Ok p1
        /\ z v = p0 - p1
        /\ x v * x v + y v * y v + z v * z v = 1).
Proof.
  intros Hw. split.
  - intros Hn. unfold stateToBlochVector, QuantumState.getNumQubits.
    destruct (Z.eqb_spec (QuantumState.numQubits s) 1); [contradiction|].
    reflexivity.
  - apply bloch_of_state. exact Hw.
Qed.

Lemma stateToBlochVector_unit_witness :
  stateToBlochVector (ket 2 0) = inr NotSingleQubit.
Proof.
  apply (stateToBlochVector_unit (ket 2 0)).
  - apply ket_wellFormed; lia.
  - simpl. lia.
Defined.






End BlochSphere.

(* ------------------------------------------------------------------ *)
(** ** C4: the normalization invariant *)

Section NormalizationInvariant.

Import QuantumOperations.

Local Open Scope R_scope.

(** Whatever the constructor returns went through [normalize]. *)
Lemma new_normalized (n : Z) (init : option (list Complex))
  (s0 : QuantumState.t) :
  QuantumState.new n init = Ok s0 -> normalized s0.
Proof.
  unfold QuantumState.new.
  destruct (5 <? n)%Z; [discriminate|].
  assert (Hpre : forall amps,
            (amps' <- QuantumState.normalize amps ;;
             Ok (QuantumState.mk amps' n)) = Ok s0 -> normalized s0).
  { intros amps H. bind_ok H. injection H as <-.
    apply normalized_iff. cbn [QuantumState.amplitudes].
    apply normalize_ok in E. tauto. }
  destruct init as [init|], (QuantumState.numStates n) as [k|];
    cbn [bind]; try discriminate.
  - destruct (_ =? _)%Z; cbn [bind]; [apply Hpre|discriminate].
  - destruct (_ =? _)%Z; cbn [bind]; apply Hpre.
Qed.

Lemma library_gate_is_unitary (g : QuantumGate) :
  In g singleQubitLibrary -> unitaryGate g.
Proof.
  intros H. destruct (library_gate_unitary g H) as (Hq & Hm & Hu).
  split; [exact Hq|]. do 4 eexists. split; [exact Hm|exact Hu].
Qed.

(** C4.  The normalization invariant on the code.
    What does not hold: a [setAmplitude] that throws has stored the
    amplitude already, so zeroing the only non-zero amplitude of [|0>]
    throws the zero-state error and leaves a state object whose
    probabilities sum to 0.
    What holds: normalizing an amplitude array that is zero everywhere
    throws the zero-state error, from [normalize] and through the
    constructor; the state the constructor returns without an initial
    array, or for a [moderate] initial array, is normalized; so is the state
    a [setAmplitude] that returns leaves when the stored array is
    [moderate], every state along a sequence of successful applications of
    single-qubit gates with unitary matrices to a normalized state, and the
    state CNOT returns when the array it hands to the constructor has a
    squared norm of at least the tolerance. *)
Theorem normalization_invariant :
  (QuantumState.setAmplitude (ket 1 0) 0 (complex 0)
   = (QuantumState.mk [complex 0; complex 0] 1, Some ZeroStateError)
   /\ total (QuantumState.getMeasurementProbabilities
               (QuantumState.mk [complex 0; complex 0] 1)) = 0)
  /\ (forall k, QuantumState.normalize (repeat (complex 0) k)
                = Err ZeroStateError)
  /\ (forall m, (0 <= m <= 5)%Z ->
                QuantumState.new m
                  (Some (repeat (complex 0) (Z.to_nat (2 ^ m))))
                = Err ZeroStateError)
  /\ (forall n s0, QuantumState.new n None = Ok s0 -> normalized s0)
  /\ (forall n init s0,
         moderate init ->
         QuantumState.new n (Some init) = Ok s0 -> normalized s0)
  /\ (forall s i a s',
         wellFormed s ->
         moderate (update (Z.to_nat i) a (QuantumState.amplitudes s)) ->
         QuantumState.setAmplitude s i a = (s', None) -> normalized s')
  /\ (forall s0 gs tr,
         wellFormed s0 ->
         Forall (fun gt => unitaryGate (fst gt)) gs ->
         applyGates s0 gs = Ok tr -> Forall normalized tr)
  /\ (forall s c t s',
         wellFormed s ->
         tolerance
         <= QuantumState.sumSquares
              (map (cnotRaw s c t) (indices (2 ^ QuantumState.numQubits s))) ->
         applyTwoQubitGate s Gates.CNOTGate c t = Ok s' -> normalized s').
Proof.
  split.
  { split; [exact setAmplitude_throw_keeps_store|].
    unfold QuantumState.getMeasurementProbabilities.
    cbn [QuantumState.amplitudes]. rewrite total_probs.
    apply (sumSquares_repeat_zero 2). }
  split; [intros k; apply normalize_zero, sumSquares_repeat_zero|].
  split; [exact new_zero_vector|].
  split; [intros n s0; apply new_normalized|].
  split; [intros n init s0 _; apply new_normalized|].
  split; [intros s i a s' _ _; apply setAmplitude_normalized|].
  split.
  { intros s0 gs tr _ _ H. apply applyGates_wellFormed in H.
    eapply Forall_impl; [|exact H]. intros s (_ & _ & Hs). exact Hs. }
  intros s c t s' _ _ H. apply applyTwoQubitGate_wellFormed in H.
  destruct H as [(_ & _ & Hs) _]. exact Hs.
Qed.

Lemma normalization_invariant_witness : Forall normalized [plus0].
Proof.
  destruct normalization_invariant as (_ & _ & _ & _ & _ & _ & H & _).
  apply (H (ket 2 0) [(Gates.HadamardGate, [0%Z])] [plus0]).
  - apply ket_wellFormed; simpl; lia.
  - constructor; [|constructor]. apply library_gate_is_unitary.
    left. reflexivity.
  - unfold applyGates, applyGate.
    cbn [length Z.of_nat Pos.of_succ_nat qubits Gates.HadamardGate Z.eqb
         Pos.eqb negb nth].
    rewrite hadamard_on_00. reflexivity.
Defined.

End NormalizationInvariant.
